(** * CONTENTLISA: scheduling, delivery and retention engine

    A shallow embedding of [autocontenuelisabot/bot.py] and
    [autocontenuelisabot/database/__init__.py], and the properties of the
    deletion ledger, the weekly recurrence computation, the delivery unit,
    the two workers and the users table.

    Conventions.
    - Python [int] is [Z]; SQLite INTEGER columns are [Z] (the 64-bit range
      of SQLite is not modelled).
    - Instants and wall-clock readings are counted in microseconds, the
      resolution of [datetime]; [timedelta.total_seconds()] and
      [datetime.timestamp()] are these counts divided by 10^6.
    - The outside world (the Telegram client, HTTP, Pillow, ffmpeg, the
      operating system) is a record of oracles; every property is proved
      for all oracles. *)

From Stdlib Require Import ZArith Lia.
From stdpp Require Import base gmap strings list sorting.

Open Scope Z_scope.

(** ** 1. The deletion ledger (table [deletions]) *)

Module Ledger.

(** One row of
    [deletions(id INTEGER PRIMARY KEY AUTOINCREMENT, chat_id, message_id, delete_at)]. *)
Record deletion := Deletion {
  id : Z;
  chat_id : Z;
  message_id : Z;
  delete_at : Z
}.

(** The table: its rows in insertion order, and the AUTOINCREMENT counter
    SQLite keeps in [sqlite_sequence] (the largest row id ever handed out). *)
Record ledger := Build_ledger {
  rows : list deletion;
  seq : Z
}.

(** [db_init]: [CREATE TABLE IF NOT EXISTS] on a fresh database file. *)
Definition db_init : ledger := {| rows := []; seq := 0 |}.

(** The largest id among the rows (0 for none). *)
Definition max_id (l : list deletion) : Z :=
  foldr (fun r m => Z.max (id r) m) 0 l.

(** The row id AUTOINCREMENT assigns: one more than the largest id that ever
    existed in the table. *)
Definition next_id (L : ledger) : Z := Z.max (seq L) (max_id (rows L)) + 1.

(** [db_schedule_deletion]:
    [INSERT INTO deletions (chat_id, message_id, delete_at) VALUES (?, ?, ?)]. *)
Definition db_schedule_deletion (chat message delete_at_ts : Z) (L : ledger) : ledger :=
  let i := next_id L in
  {| rows := rows L ++ [Deletion i chat message delete_at_ts]; seq := i |}.

(** SQL [LIMIT n]: a negative [n] puts no bound on the number of rows. *)
Definition sql_limit {A} (n : Z) (l : list A) : list A :=
  if n <? 0 then l else take (Z.to_nat n) l.

(** The order of [ORDER BY id ASC]. *)
Definition id_le (a b : deletion) : Prop := id a <= id b.

#[global] Instance id_le_dec : RelDecision id_le.
Proof. intros a b. unfold id_le. apply _. Defined.

(** [ORDER BY id ASC]. *)
Definition order_by_id (l : list deletion) : list deletion :=
  merge_sort id_le l.

(** The predicate of [WHERE delete_at <= ?]. *)
Definition due (now_ts : Z) (r : deletion) : Prop := delete_at r <= now_ts.

#[global] Instance due_dec now_ts r : Decision (due now_ts r).
Proof. unfold due. apply _. Defined.

(** The rows the SELECT of [db_fetch_due_deletions] picks, before the
    projection on three columns. *)
Definition due_rows (now_ts limit : Z) (L : ledger) : list deletion :=
  sql_limit limit (order_by_id (filter (due now_ts) (rows L))).

(** The columns [id, chat_id, message_id] of a row. *)
Definition columns (r : deletion) : Z * Z * Z := (id r, chat_id r, message_id r).

(** [db_fetch_due_deletions]:
    [SELECT id, chat_id, message_id FROM deletions
     WHERE delete_at <= ? ORDER BY id ASC LIMIT ?]. *)
Definition db_fetch_due_deletions (now_ts limit : Z) (L : ledger) : list (Z * Z * Z) :=
  columns <$> due_rows now_ts limit L.

(** [db_delete_deletion_row]: [DELETE FROM deletions WHERE id=?]. The
    statement succeeds whether or not a row matches, and the AUTOINCREMENT
    counter is left alone. *)
Definition db_delete_deletion_row (row_id : Z) (L : ledger) : ledger :=
  {| rows := filter (fun r => id r ≠ row_id) (rows L); seq := seq L |}.

(** What SQLite maintains on the table: row ids are pairwise distinct
    (PRIMARY KEY), and none is above the AUTOINCREMENT counter. *)
Definition wf (L : ledger) : Prop :=
  NoDup (id <$> rows L) ∧ Forall (fun r => id r <= seq L) (rows L).

(** The ledgers that come out of a ledger by further inserts and deletes. *)
Inductive evolves (L : ledger) : ledger -> Prop :=
| evolves_refl : evolves L L
| evolves_insert c m d L' :
    evolves L L' -> evolves L (db_schedule_deletion c m d L')
| evolves_delete i L' :
    evolves L L' -> evolves L (db_delete_deletion_row i L').

(** A row id is retired when it has been handed out and is no longer in
    the table. *)
Definition retired (i : Z) (L : ledger) : Prop :=
  i <= seq L ∧ i ∉ (id <$> rows L).

(** The ledgers the program can build: from the empty table of [db_init]. *)
Definition reachable (L : ledger) : Prop := evolves db_init L.

End Ledger.

(** ** 2. Wall-clock time, time zones and the weekly recurrence *)

Module Clock.

Definition us_per_second : Z := 1000000.
Definition us_per_day : Z := 86400 * us_per_second.

(** A [datetime] without its zone: the proleptic Gregorian ordinal of its
    date ([date.toordinal()], 1 for 0001-01-01) and the time-of-day fields.
    Year, month and day are kept together in the ordinal: the program never
    reads them apart. *)
Record datetime := Datetime {
  ordinal : Z;
  hour : Z;
  minute : Z;
  second : Z;
  microsecond : Z;
  fold : bool
}.

(** [date(1970, 1, 1).toordinal()]. *)
Definition epoch_ordinal : Z := 719163.

(** [datetime.weekday()]: Monday is 0. *)
Definition weekday (d : datetime) : Z := (ordinal d + 6) mod 7.

(** The wall-clock reading as one number: microseconds since
    1970-01-01 00:00 on the same wall clock. Comparison and subtraction of
    two [datetime]s that carry the same [tzinfo] work on this number alone;
    the zone and [fold] are ignored. *)
Definition wall_us (d : datetime) : Z :=
  (ordinal d - epoch_ordinal) * us_per_day
  + ((hour d * 60 + minute d) * 60 + second d) * us_per_second
  + microsecond d.

(** The [datetime] of a wall-clock reading. *)
Definition datetime_of_wall (x : Z) (f : bool) : datetime :=
  let tod := x mod us_per_day in
  {| ordinal := epoch_ordinal + x / us_per_day;
     hour := tod / (3600 * us_per_second);
     minute := (tod / (60 * us_per_second)) mod 60;
     second := (tod / us_per_second) mod 60;
     microsecond := tod mod us_per_second;
     fold := f |}.

(** [d + timedelta(days=n)]: the date moves, the time of day stays, and the
    result has [fold=0]. *)
Definition add_days (d : datetime) (n : Z) : datetime :=
  {| ordinal := ordinal d + n; hour := hour d; minute := minute d;
     second := second d; microsecond := microsecond d; fold := false |}.

(** [d.replace(hour=h, minute=m, second=0, microsecond=0)]. *)
Definition replace_hm (d : datetime) (h m : Z) : datetime :=
  {| ordinal := ordinal d; hour := h; minute := m;
     second := 0; microsecond := 0; fold := fold d |}.

(** A [tzinfo]: its two methods. [fromutc] gives the local reading at an
    instant (microseconds since the Unix epoch); [utcoffset] gives the offset
    from UTC, in microseconds, that the zone assigns to a local reading. *)
Record tzinfo := Tzinfo {
  fromutc : Z -> datetime;
  utcoffset : datetime -> Z
}.

(** [datetime.now(tz)] when the system clock reads [clock]. *)
Definition datetime_now (tz : tzinfo) (clock : Z) : datetime := fromutc tz clock.

(** [d.timestamp()] of an aware [datetime], in microseconds:
    [(d - EPOCH_UTC)], a subtraction across zones, which goes through UTC. *)
Definition timestamp (tz : tzinfo) (d : datetime) : Z := wall_us d - utcoffset tz d.

(** [int(x)] of a number of seconds given in microseconds: truncation
    toward zero. (The float in between holds a present-day timestamp with
    its microseconds to well below one microsecond, so it truncates to the
    same whole second.) *)
Definition int_seconds (us : Z) : Z := us ÷ us_per_second.

(** The value of [target] when [_seconds_until_next_weekly] returns. *)
Definition next_weekly_target (weekday_idx h m : Z) (now : datetime) : datetime :=
  let days_ahead := (weekday_idx - weekday now) mod 7 in
  let target := replace_hm (add_days now days_ahead) h m in
  if decide (wall_us target <= wall_us now) then add_days target 7 else target.

(** [_seconds_until_next_weekly], with the zone already looked up and the
    system clock reading [clock]. The result is [(target - now)], in
    microseconds: both operands carry the same [tzinfo], so the difference
    is the difference of the two wall-clock readings. *)
Definition _seconds_until_next_weekly
    (weekday_idx h m : Z) (tz : tzinfo) (clock : Z) : Z :=
  let now := datetime_now tz clock in
  let target := next_weekly_target weekday_idx h m now in
  wall_us target - wall_us now.

(** The instant at which a sleep of the returned duration, started at
    [clock], ends: the instant the function designates as the next
    occurrence. ([_autopost_worker] sleeps [max(1, wait_s)], which is
    [wait_s] from one second up.) *)
Definition next_occurrence (weekday_idx h m : Z) (tz : tzinfo) (clock : Z) : Z :=
  clock + _seconds_until_next_weekly weekday_idx h m tz clock.

(** The time-of-day fields of a [datetime] are in range. *)
Definition valid (d : datetime) : Prop :=
  0 <= hour d < 24 ∧ 0 <= minute d < 60 ∧ 0 <= second d < 60
  ∧ 0 <= microsecond d < us_per_second.

(** [now] reads exactly the given weekday, hour and minute. *)
Definition at_schedule (weekday_idx h m : Z) (now : datetime) : Prop :=
  weekday now = weekday_idx ∧ hour now = h ∧ minute now = m
  ∧ second now = 0 ∧ microsecond now = 0.

(** The offset from UTC in force at an instant. *)
Definition offset_at (tz : tzinfo) (t : Z) : Z := wall_us (fromutc tz t) - t.

(** A zone with one offset all year round (UTC, [Etc/GMT-3], ...). *)
Definition fixed_zone (off : Z) : tzinfo :=
  {| fromutc := fun t => datetime_of_wall (t + off) false;
     utcoffset := fun _ => off |}.

(** A zone with a summer-time period: offset [std] outside the instants
    [[t_on, t_off)] and [dst] inside. A local reading that the clocks skip
    or show twice takes the earlier offset with [fold=0] and the later one
    with [fold=1]. *)
Definition dst_zone (std dst t_on t_off : Z) : tzinfo :=
  let off t := if decide (t_on <= t < t_off) then dst else std in
  {| fromutc := fun t =>
       datetime_of_wall (t + off t)
         (bool_decide (t_off <= t < t_off + (dst - std)));
     utcoffset := fun d =>
       let w := wall_us d in
       let early := off (w - dst) in
       let late := off (w - std) in
       if decide (early = late) then early
       else if decide (w - std < t_on + (dst - std)) then
              (if fold d then dst else std)
            else (if fold d then std else dst) |}.

(** [ZoneInfo("Europe/Paris")] during 2025: UTC+1, and UTC+2 from
    2025-03-30 01:00 UTC to 2025-10-26 01:00 UTC. *)
Definition europe_paris_2025 : tzinfo :=
  dst_zone (3600 * us_per_second) (7200 * us_per_second)
           (1743296400 * us_per_second) (1761440400 * us_per_second).

End Clock.

(** ** 3. The string operations of Python the program relies on

    A Python [str] is a [string] read as its sequence of code points, each
    below 256; a text with a code point from 256 up has no counterpart
    here. [is_ascii] marks the strings of code points below 128. Case
    conversion covers the ASCII letters, which is where the literals the
    program compares against live. *)

Module PyStr.

Import Stdlib.Strings.Ascii.

Definition ascii_lower (c : Ascii.ascii) : Ascii.ascii :=
  let n := Ascii.nat_of_ascii c in
  if ((65 <=? n) && (n <=? 90))%nat then Ascii.ascii_of_nat (n + 32) else c.

Definition ascii_upper (c : Ascii.ascii) : Ascii.ascii :=
  let n := Ascii.nat_of_ascii c in
  if ((97 <=? n) && (n <=? 122))%nat then Ascii.ascii_of_nat (n - 32) else c.

Fixpoint map_chars (f : Ascii.ascii -> Ascii.ascii) (s : string) : string :=
  match s with
  | EmptyString => EmptyString
  | String c s' => String (f c) (map_chars f s')
  end.

(** [s.lower()] and [s.upper()]. *)
Definition lower : string -> string := map_chars ascii_lower.
Definition upper : string -> string := map_chars ascii_upper.

(** [s.startswith(p)]. *)
Definition startswith (p s : string) : bool := String.prefix p s.

(** [s.startswith(("http://", "https://"))]. *)
Definition is_url (s : string) : bool :=
  startswith "http://" s || startswith "https://" s.

(** [os.path.isabs(p)] on a POSIX system. *)
Definition isabs (p : string) : bool := startswith "/" p.

(** [s.lstrip("-")]. *)
Fixpoint lstrip_minus (s : string) : string :=
  match s with
  | String c s' => if Ascii.eqb c "-"%char then lstrip_minus s' else s
  | EmptyString => s
  end.

(** An ASCII decimal digit, [0] to [9]: [c.isdecimal()] for a code point
    below 256. *)
Definition is_digit_char (c : Ascii.ascii) : bool :=
  let n := Ascii.nat_of_ascii c in ((48 <=? n) && (n <=? 57))%nat.

Fixpoint all_digits (s : string) : bool :=
  match s with
  | EmptyString => true
  | String c s' => is_digit_char c && all_digits s'
  end.

(** A string of ASCII decimal digits, one at least. *)
Definition plain_digits (s : string) : bool :=
  match s with
  | EmptyString => false
  | _ => all_digits s
  end.

(** [c.isdigit()] for a code point below 256: the ASCII digits, and the
    superscripts two, three and one (U+00B2, U+00B3, U+00B9), which are
    digits without being decimal. *)
Definition isdigit_char (c : Ascii.ascii) : bool :=
  let n := Ascii.nat_of_ascii c in
  (is_digit_char c || (n =? 178) || (n =? 179) || (n =? 185))%nat.

Fixpoint all_isdigit (s : string) : bool :=
  match s with
  | EmptyString => true
  | String c s' => isdigit_char c && all_isdigit s'
  end.

(** [s.isdigit()]: at least one character, and every character a digit. *)
Definition isdigit (s : string) : bool :=
  match s with
  | EmptyString => false
  | _ => all_isdigit s
  end.

(** Every code point is below 128. *)
Fixpoint is_ascii (s : string) : bool :=
  match s with
  | EmptyString => true
  | String c s' => (Ascii.nat_of_ascii c <? 128)%nat && is_ascii s'
  end.

Fixpoint digits_value (acc : Z) (s : string) : Z :=
  match s with
  | EmptyString => acc
  | String c s' =>
      digits_value (10 * acc + (Z.of_nat (Ascii.nat_of_ascii c) - 48)) s'
  end.

(** The part of [s] before its last ["."], if it has one. *)
Fixpoint before_last_dot (s : string) : option string :=
  match s with
  | EmptyString => None
  | String c s' =>
      match before_last_dot s' with
      | Some h => Some (String c h)
      | None => if Ascii.eqb c "."%char then Some EmptyString else None
      end
  end.

(** [s.rsplit(".", 1)[0]]. *)
Definition rsplit_dot_head (s : string) : string :=
  default s (before_last_dot s).

(** [a or b] on strings: the empty string is falsy. *)
Definition str_or (a b : string) : string :=
  if decide (a = "") then b else a.

(** [not s] on an optional string: [None] and the empty string are falsy. *)
Definition falsy (s : option string) : bool :=
  match s with
  | None => true
  | Some s => bool_decide (s = "")
  end.

End PyStr.

(** ** 4. White space, splitting, [int] and indexing

    On the same reading of a [str]: a sequence of code points below 256. *)

Module PyText.

Import Stdlib.Strings.Ascii.

(** [c.isspace()] for a code point below 256. *)
Definition is_space (c : Ascii.ascii) : bool :=
  let n := Ascii.nat_of_ascii c in
  ((9 <=? n) && (n <=? 13) || (28 <=? n) && (n <=? 32)
   || (n =? 133) || (n =? 160))%nat.

(** [s.lstrip()]. *)
Fixpoint lstrip (s : string) : string :=
  match s with
  | String c s' => if is_space c then lstrip s' else s
  | EmptyString => s
  end.

(** [s.rstrip()]. *)
Fixpoint rstrip (s : string) : string :=
  match s with
  | String c s' =>
      match rstrip s' with
      | EmptyString => if is_space c then EmptyString else String c EmptyString
      | r => String c r
      end
  | EmptyString => EmptyString
  end.

(** [s.strip()]. *)
Definition strip (s : string) : string := rstrip (lstrip s).

(** [s.split(sep)] for a separator of one character: the pieces between
    the separators, empty pieces included; one piece at least. *)
Fixpoint split_on (sep : Ascii.ascii) (s : string) : list string :=
  match s with
  | EmptyString => [EmptyString]
  | String c s' =>
      if Ascii.eqb c sep then EmptyString :: split_on sep s'
      else match split_on sep s' with
           | piece :: pieces => String c piece :: pieces
           | [] => [String c EmptyString]
           end
  end.

(** [s.split()]: the pieces between runs of white space, none of them
    empty. *)
Fixpoint split_space (s : string) : list string :=
  match s with
  | EmptyString => []
  | String c s' =>
      if is_space c then split_space s'
      else match s' with
           | String c' _ =>
               if is_space c' then String c EmptyString :: split_space s'
               else match split_space s' with
                    | piece :: pieces => String c piece :: pieces
                    | [] => [String c EmptyString]
                    end
           | EmptyString => [String c EmptyString]
           end
  end.

(** Every character of the string passes the test. *)
Fixpoint all_chars (P : Ascii.ascii -> bool) (s : string) : bool :=
  match s with
  | EmptyString => true
  | String c s' => P c && all_chars P s'
  end.

(** White space only; no white space; no occurrence of a character. *)
Definition all_space : string -> bool := all_chars is_space.
Definition no_space : string -> bool := all_chars (fun c => negb (is_space c)).
Definition lacks (sep : Ascii.ascii) : string -> bool :=
  all_chars (fun c => negb (Ascii.eqb c sep)).

(** The default of [sys.int_max_str_digits]. *)
Definition int_max_str_digits : nat := 4300.

(** The digits of a number written with single underscores between digits,
    as [int] accepts them; [None] for anything else. *)
Fixpoint grouped_digits (s : string) : option string :=
  match s with
  | EmptyString => None
  | String c s' =>
      if PyStr.is_digit_char c then
        match s' with
        | EmptyString => Some (String c EmptyString)
        | String c' s'' =>
            if Ascii.eqb c' "_"%char then
              match s'' with
              | String c'' _ =>
                  if PyStr.is_digit_char c'' then
                    String c <$> grouped_digits s''
                  else None
              | EmptyString => None
              end
            else String c <$> grouped_digits s'
        end
      else None
  end.

(** The value of an unsigned decimal number, within the digit limit. *)
Definition unsigned_int (s : string) : option Z :=
  match grouped_digits s with
  | Some ds =>
      if (String.length ds <=? int_max_str_digits)%nat
      then Some (PyStr.digits_value 0 ds) else None
  | None => None
  end.

(** The white space [int] skips around a number. A code point below 127
    counts when it is one of the six of C's [isspace] (so not U+001C to
    U+001F, which [str.strip] removes); above, the two that [str.isspace]
    accepts. *)
Definition is_int_space (c : Ascii.ascii) : bool :=
  let n := Ascii.nat_of_ascii c in
  ((9 <=? n) && (n <=? 13) || (n =? 32) || (n =? 133) || (n =? 160))%nat.

Fixpoint int_lstrip (s : string) : string :=
  match s with
  | String c s' => if is_int_space c then int_lstrip s' else s
  | EmptyString => s
  end.

Fixpoint int_rstrip (s : string) : string :=
  match s with
  | String c s' =>
      match int_rstrip s' with
      | EmptyString => if is_int_space c then EmptyString else String c EmptyString
      | r => String c r
      end
  | EmptyString => EmptyString
  end.

(** [int(s)] of a string, in base 10: white space around, an optional sign,
    decimal digits with optional single underscores between them. [None] is
    [ValueError]. *)
Definition int (s : string) : option Z :=
  match int_rstrip (int_lstrip s) with
  | String c s' =>
      if Ascii.eqb c "-"%char then Z.opp <$> unsigned_int s'
      else if Ascii.eqb c "+"%char then unsigned_int s'
      else unsigned_int (String c s')
  | EmptyString => None
  end.

(** [l[i]] on a list: a negative index counts from the end; [None] is
    [IndexError]. *)
Definition getitem {A} (l : list A) (i : Z) : option A :=
  let n := Z.of_nat (length l) in
  if (0 <=? i) && (i <? n) then l !! Z.to_nat i
  else if (- n <=? i) && (i <? 0) then l !! Z.to_nat (n + i)
  else None.

End PyText.

(** ** 5. The world the bot acts on, and its environment *)

Module Bot.

(** The exceptions a call can raise, by the handler of
    [_send_autopost_to_chat] that takes them: [ChatAdminRequired], any other
    [BadRequest], any other [RPCError], any other [Exception]. *)
Inductive exn := ChatAdminRequired | BadRequest | RPCError | OtherException.

Inductive outcome (A : Type) : Type :=
| Returns (a : A)
| Raises (e : exn).
Arguments Returns {A} a.
Arguments Raises {A} e.

(** A channel reference of [config.CHANNEL_IDS]: an [int] or a [str] (of
    code points below 256, as every [str] here). *)
Inductive chat_ref := RefInt (n : Z) | RefStr (s : string).

(** [InlineKeyboardMarkup]: rows of (text, url) buttons, or no markup. *)
Definition markup : Type := option (list (list (string * string))).

(** The calls made on the Telegram client [app_1]. *)
Inductive client_call :=
| GetChat (ref : string)
| SendMessage (chat : Z) (body : string) (reply_markup : markup)
| SendPhoto (chat : Z) (photo : option string) (caption : option string)
    (reply_markup : markup)
| SendVideo (chat : Z) (video : option string) (caption : option string)
    (reply_markup : markup)
| SendVoice (chat : Z) (voice : option string) (caption : option string)
    (reply_markup : markup)
| SendDocument (chat : Z) (document : option string) (caption : option string)
    (reply_markup : markup)
| DeleteMessages (chat message : Z).

(** The calls that publish a message. *)
Definition is_send (c : client_call) : bool :=
  match c with
  | GetChat _ | DeleteMessages _ _ => false
  | _ => true
  end.

(** The records written to the logger. *)
Inductive log_entry :=
| WarnResolve (ref : chat_ref)
| WarnAutopostResolveKO (ref : chat_ref)
| WarnMediaNotFound (name : string)
| WarnNoRights (chat : Z)
| WarnBadRequest (chat : Z)
| WarnRPCError (chat : Z)
| WarnUnexpected (chat : Z)
| WarnDownloadTooSmall (url : string)
| WarnDownloadKO (url : string)
| WarnImageConversion
| WarnVideoConversion
| InfoToDelete (n : nat)
| WarnAutodelete (chat message : Z)
| InfoNoChannels
| InfoSent (name : string) (sent : Z).

(** What the program can observe or change: the files on disk, the log,
    the calls made on the client with what each one answered, and the
    deletion ledger. *)
Record world := World {
  fs : gset string;
  log : list log_entry;
  calls : list (client_call * outcome Z);
  ledger : Ledger.ledger
}.

(** One entry of [MESSAGES]. *)
Record post := Post {
  name : string;
  schedule_var : string;
  type : option string;
  media : option string;
  text : option string;
  buttons : list (string * string)
}.

(** An HTTP response: its [Content-Type] header and the length of its body,
    [None] when reading the body fails. *)
Record response := Response {
  content_type : string;
  body_length : option Z
}.

(** What [Image.open] shows of an image file. *)
Record image := Image {
  format : option string;
  size : Z * Z
}.

(** The result of writing an output file: written, or failed, leaving a
    partial file behind or not. *)
Inductive write_result := Written | WriteFailed (file_left : bool).

(** The environment: what the outside world answers, given the state of the
    world at the time of asking, and the values of [config]. *)
Record env := Env {
  (** the answer of the Telegram client: the id of the chat or of the
      message, or an exception *)
  client : world -> client_call -> outcome Z;
  (** [urllib.request.urlopen]: [None] when it raises *)
  urlopen : world -> string -> option response;
  (** [_guess_ext_from_content_type(ct, Path(s).suffix or "")] *)
  temp_suffix : string -> string -> string;
  (** [tempfile.mkstemp(prefix, suffix)]: the path of the file it creates,
      [None] when it raises *)
  mkstemp : world -> string -> string -> option string;
  (** [Image.open]: [None] when it raises *)
  image_open : world -> string -> option image;
  (** [convert], [resize] and [save] of an image into an output path *)
  pil_save : world -> string -> string -> write_result;
  (** [shutil.which("ffmpeg") is not None] *)
  _has_ffmpeg : world -> bool;
  (** [subprocess.run] of ffmpeg from a path into an output path *)
  ffmpeg_run : world -> string -> string -> write_result;
  (** whether [os.remove] of a path goes through *)
  os_remove_ok : world -> string -> bool;
  (** the system clock, in microseconds since the Unix epoch *)
  clock : world -> Z;
  HAVE_HEIF : bool;
  TIMEZONE : Clock.tzinfo;
  CHANNEL_IDS : list chat_ref;
  AUTO_DELETE_AFTER_DAYS : Z
}.

(** *** Computations: a state and exception monad *)

Definition M (S A : Type) : Type := S -> outcome A * S.

#[global] Instance M_ret {S} : MRet (M S) := fun A a s => (Returns a, s).

#[global] Instance M_bind {S} : MBind (M S) := fun A B f c s =>
  match c s with
  | (Returns a, s') => f a s'
  | (Raises e, s') => (Raises e, s')
  end.

Definition raise {S A} (e : exn) : M S A := fun s => (Raises e, s).

(** [try: c  except Exception as e: h e]. *)
Definition try_except {S A} (c : M S A) (h : exn -> M S A) : M S A := fun s =>
  match c s with
  | (Returns a, s') => (Returns a, s')
  | (Raises e, s') => h e s'
  end.

(** [try: c  finally: f]. *)
Definition try_finally {S A} (c : M S A) (f : M S unit) : M S A := fun s =>
  let '(r, s') := c s in
  match f s' with
  | (Returns _, s'') => (r, s'')
  | (Raises e, s'') => (Raises e, s'')
  end.

(** [for x in l: f x]. *)
Fixpoint for_each {S A} (l : list A) (f : A -> M S unit) : M S unit :=
  match l with
  | [] => mret tt
  | x :: l' => f x ;; for_each l' f
  end.

(** *** Primitive effects *)

Definition logger (e : log_entry) : M world unit := fun w =>
  (Returns tt, World (fs w) (log w ++ [e]) (calls w) (ledger w)).

(** A call on the client: the environment answers, and the call is recorded
    with its answer. *)
Definition call (E : env) (c : client_call) : M world Z := fun w =>
  let r := client E w c in
  (r, World (fs w) (log w) (calls w ++ [(c, r)]) (ledger w)).

Definition create_file (p : string) (w : world) : world :=
  World ({[p]} ∪ fs w) (log w) (calls w) (ledger w).

Definition delete_file (p : string) (w : world) : world :=
  World (fs w ∖ {[p]}) (log w) (calls w) (ledger w).

Definition with_ledger (f : Ledger.ledger -> Ledger.ledger) : M world unit :=
  fun w => (Returns tt, World (fs w) (log w) (calls w) (f (ledger w))).

(** The three ledger operations, on the ledger of the world. *)
Definition schedule_deletion (chat message delete_at_ts : Z) : M world unit :=
  with_ledger (Ledger.db_schedule_deletion chat message delete_at_ts).

Definition fetch_due_deletions (now_ts limit : Z) : M world (list (Z * Z * Z)) :=
  fun w => (Returns (Ledger.db_fetch_due_deletions now_ts limit (ledger w)), w).

Definition delete_deletion_row (row_id : Z) : M world unit :=
  with_ledger (Ledger.db_delete_deletion_row row_id).

(** [asyncio.sleep]: time is read from the environment, so a pause changes
    nothing the program can see by itself. *)
Definition sleep : M world unit := mret tt.

(** *** The helpers of the delivery unit *)

(** [_kb]: one button per row, no markup for no buttons. *)
Definition _kb (buttons : list (string * string)) : markup :=
  match buttons with
  | [] => None
  | _ => Some ((fun b => [b]) <$> buttons)
  end.

(** [_resolve_chat_id]: a string for which [lstrip("-").isdigit()] does
    not hold is looked up through the client; anything else goes through
    [int], whose [ValueError] is an exception like the others. Every
    exception is logged and turned into [None]. *)
Definition _resolve_chat_id (E : env) (ref : chat_ref) : M world (option Z) :=
  try_except
    (match ref with
     | RefStr s =>
         if negb (PyStr.isdigit (PyStr.lstrip_minus s)) then
           chat ← call E (GetChat s);
           mret (Some chat)
         else
           match PyText.int s with
           | Some n => mret (Some n)
           | None => raise OtherException
           end
     | RefInt n => mret (Some n)
     end)
    (fun _ => logger (WarnResolve ref) ;; mret None).

(** The file operations of [_download_if_url] inside its [try]: open the
    URL, create the temporary file, copy the body into it. *)
Definition download_to_temp (E : env) (s : string) : M world (string * Z) := fun w =>
  match urlopen E w s with
  | None => (Raises OtherException, w)
  | Some resp =>
      let suffix := temp_suffix E (content_type resp) s in
      match mkstemp E w "ap_dl_" suffix with
      | None => (Raises OtherException, w)
      | Some temp_path =>
          match body_length resp with
          | None => (Raises OtherException, create_file temp_path w)
          | Some n => (Returns (temp_path, n), create_file temp_path w)
          end
      end
  end.

(** [_download_if_url]. *)
Definition _download_if_url (E : env) (maybe_url : option string)
    : M world (option string) :=
  if PyStr.falsy maybe_url then mret None
  else
    let s := default "" maybe_url in
    if negb (PyStr.is_url s) then mret (Some s)
    else
      try_except
        ('(temp_path, size) ← download_to_temp E s;
         if size <? 1024 then
           logger (WarnDownloadTooSmall s) ;; mret None
         else mret (Some temp_path))
        (fun _ => logger (WarnDownloadKO s) ;; mret None).

(** Writing an output file with Pillow or ffmpeg. *)
Definition write_output (r : write_result) (out : string) : M world unit := fun w =>
  match r with
  | Written => (Returns tt, create_file out w)
  | WriteFailed partial => (Raises OtherException, if partial then create_file out w else w)
  end.

Definition problematic : list string := ["WEBP"; "HEIC"; "HEIF"; "AVIF"].
Definition needs_heif : list string := ["HEIC"; "HEIF"; "AVIF"].
Definition max_side : Z := 4096.

(** [_convert_image_if_needed]. *)
Definition _convert_image_if_needed (E : env) (path : string) : M world string :=
  try_except
    (fun w =>
       match image_open E w path with
       | None => (Raises OtherException, w)
       | Some im =>
           let fmt := PyStr.upper (default "" (format im)) in
           if bool_decide (fmt ∈ problematic) then
             if bool_decide (fmt ∈ needs_heif) && negb (HAVE_HEIF E) then
               (Returns path, w)
             else
               let out := PyStr.rsplit_dot_head path +:+ ".jpg" in
               (write_output (pil_save E w path out) out ;; mret out) w
           else
             let '(wd, ht) := size im in
             if max_side <? Z.max wd ht then
               let out := PyStr.rsplit_dot_head path +:+ "_tg.jpg" in
               (write_output (pil_save E w path out) out ;; mret out) w
             else (Returns path, w)
       end)
    (fun _ => logger WarnImageConversion ;; mret path).

(** [_convert_video_if_needed]. *)
Definition _convert_video_if_needed (E : env) (path : string) : M world string := fun w =>
  if negb (_has_ffmpeg E w) then (Returns path, w)
  else
    let out := PyStr.rsplit_dot_head path +:+ "_tg.mp4" in
    try_except
      (write_output (ffmpeg_run E w path out) out ;; mret out)
      (fun _ => logger WarnVideoConversion ;; mret path)
      w.

(** *** The delivery unit: [_send_autopost_to_chat] *)

(** The two locals the [finally] clause reads. *)
Record frame := Frame {
  temp_path : option string;
  conv_path : option string
}.

Definition in_world {A} (c : M world A) : M (frame * world) A := fun '(f, w) =>
  let '(r, w') := c w in (r, (f, w')).

Definition set_temp_path (p : string) : M (frame * world) unit := fun '(f, w) =>
  (Returns tt, (Frame (Some p) (conv_path f), w)).

Definition set_conv_path (p : string) : M (frame * world) unit := fun '(f, w) =>
  (Returns tt, (Frame (temp_path f) (Some p), w)).

(** Running a body with [temp_path = None] and [conv_path = None]. *)
Definition with_frame {A} (c : M (frame * world) A) : M world A := fun w =>
  let '(r, (_, w')) := c (Frame None None, w) in (r, w').

(** [ptype in ("photo", "video", "voice", "document")]. *)
Definition requires_media (ptype : string) : bool :=
  bool_decide (ptype ∈ ["photo"; "video"; "voice"; "document"]).

(** The part of the [try] block that makes [media_path]: fetch, remember
    an absolute path in [temp_path], convert photos and videos. The result
    [None] is the [return None] taken when the media is not there;
    [Some media_path] goes on to the sending. *)
Definition prepare_media (E : env) (ptype : string) (post_cfg : post)
    : M (frame * world) (option (option string)) :=
  if requires_media ptype then
    media_path ← in_world (_download_if_url E (media post_cfg));
    if PyStr.falsy media_path then
      in_world (logger (WarnMediaNotFound (name post_cfg))) ;; mret None
    else
      let p := default "" media_path in
      (if PyStr.isabs p then set_temp_path p else mret tt) ;;
      if decide (ptype = "photo") then
        c ← in_world (_convert_image_if_needed E p);
        set_conv_path c ;;
        mret (Some (Some (PyStr.str_or c p)))
      else if decide (ptype = "video") then
        c ← in_world (_convert_video_if_needed E p);
        set_conv_path c ;;
        mret (Some (Some (PyStr.str_or c p)))
      else mret (Some (Some p))
  else mret (Some None).

(** The [if]/[elif] chain that picks the sending call; it gives [m.id]. *)
Definition send_by_type (E : env) (ptype : string) (chat_id : Z)
    (media_path : option string) (txt : string) (mk : markup) : M world Z :=
  let caption := if decide (txt = "") then None else Some txt in
  if decide (ptype = "text") then
    call E (SendMessage chat_id (PyStr.str_or txt " ") mk)
  else if decide (ptype = "photo") then
    call E (SendPhoto chat_id media_path caption mk)
  else if decide (ptype = "video") then
    call E (SendVideo chat_id media_path caption mk)
  else if decide (ptype = "voice") then
    call E (SendVoice chat_id media_path caption mk)
  else if decide (ptype = "document") then
    call E (SendDocument chat_id media_path caption mk)
  else
    call E (SendMessage chat_id (PyStr.str_or txt " ") mk).

(** The warning each of the four [except] clauses writes. *)
Definition error_record (chat_id : Z) (e : exn) : log_entry :=
  match e with
  | ChatAdminRequired => WarnNoRights chat_id
  | BadRequest => WarnBadRequest chat_id
  | RPCError => WarnRPCError chat_id
  | OtherException => WarnUnexpected chat_id
  end.

(** The four [except] clauses: each logs its warning, and control goes on
    to the [finally] clause and the last [return None]. *)
Definition on_error (chat_id : Z) (e : exn) : M world unit :=
  logger (error_record chat_id e).

(** One turn of the loop of the [finally] clause:
    [if p and os.path.exists(p): try: os.remove(p) except Exception: pass]. *)
Definition remove_if_exists (E : env) (p : option string) (w : world) : world :=
  match p with
  | Some s =>
      if negb (bool_decide (s = "")) && bool_decide (s ∈ fs w) then
        if os_remove_ok E w s then delete_file s w else w
      else w
  | None => w
  end.

(** What the loop [for p in (conv_path, temp_path)] of the [finally] clause
    does to the world. *)
Definition cleanup_world (E : env) (f : frame) (w : world) : world :=
  remove_if_exists E (temp_path f) (remove_if_exists E (conv_path f) w).

(** The [finally] clause. *)
Definition cleanup (E : env) : M (frame * world) unit := fun '(f, w) =>
  (Returns tt, (f, cleanup_world E f w)).

(** [ptype = (post_cfg.get("type") or "text").lower()]. *)
Definition post_type (post_cfg : post) : string :=
  PyStr.lower (PyStr.str_or (default "" (type post_cfg)) "text").

(** [_send_autopost_to_chat]. *)
Definition _send_autopost_to_chat (E : env) (ref : chat_ref) (post_cfg : post)
    : M world (option Z) :=
  let ptype := post_type post_cfg in
  let txt := PyStr.str_or (default "" (text post_cfg)) "" in
  let mk := _kb (buttons post_cfg) in
  chat ← _resolve_chat_id E ref;
  match chat with
  | None => logger (WarnAutopostResolveKO ref) ;; mret None
  | Some chat_id =>
      with_frame
        (try_finally
           (try_except
              (prepared ← prepare_media E ptype post_cfg;
               match prepared with
               | None => mret None
               | Some media_path =>
                   m ← in_world (send_by_type E ptype chat_id media_path txt mk);
                   mret (Some m)
               end)
              (fun e => in_world (on_error chat_id e) ;; mret None))
           (cleanup E))
  end.

(** *** Observations on a run *)

(** The publishing calls made so far, with their answers. *)
Definition sends (w : world) : list (client_call * outcome Z) :=
  filter (fun ev => is_send ev.1 = true) (calls w).

(** The calls made between two states of the world. *)
Definition new_calls (w w' : world) : list (client_call * outcome Z) :=
  drop (length (calls w)) (calls w').

(** The log records written between two states of the world. *)
Definition new_log (w w' : world) : list log_entry :=
  drop (length (log w)) (log w').

(** The world only grows its log and its list of calls, by these. *)
Definition extends_by (w w' : world) (lg : list log_entry)
    (evs : list (client_call * outcome Z)) : Prop :=
  log w' = log w ++ lg ∧ calls w' = calls w ++ evs.

(** The retraction call for a fetched row [(row_id, chat_id, message_id)]. *)
Definition retraction (row : Z * Z * Z) : client_call :=
  DeleteMessages row.1.2 row.2.

(** The ledger after the rows of a batch have been deleted one by one. *)
Definition delete_rows (batch : list (Z * Z * Z)) (L : Ledger.ledger)
    : Ledger.ledger :=
  foldl (fun L row => Ledger.db_delete_deletion_row row.1.1 L) L batch.

(** A step that makes no call and leaves the ledger alone; its log may
    grow. *)
Definition quiet (w w' : world) : Prop :=
  calls w' = calls w ∧ ledger w' = ledger w ∧ exists lg, log w' = log w ++ lg.

(** *** The workers *)

(** [if mid:] on an optional message id. *)
Definition truthy (mid : option Z) : bool :=
  match mid with
  | Some m => negb (m =? 0)
  | None => false
  end.

Definition now (E : env) : M world Z := fun w => (Returns (clock E w), w).

(** [int((datetime.now(tz) + timedelta(days=AUTO_DELETE_AFTER_DAYS)).timestamp())]
    when the clock reads [t]. *)
Definition delete_at_from (E : env) (t : Z) : Z :=
  let tz := TIMEZONE E in
  Clock.int_seconds
    (Clock.timestamp tz
       (Clock.add_days (Clock.datetime_now tz t) (AUTO_DELETE_AFTER_DAYS E))).

(** The body of [for raw_ref in config.CHANNEL_IDS], the same in
    [_autopost_worker] and in [force_post_index_handler]; the result is what
    the turn adds to [sent]. *)
Definition post_to_channel (E : env) (post_cfg : post) (raw_ref : chat_ref)
    : M world Z :=
  mid ← _send_autopost_to_chat E raw_ref post_cfg;
  added ← (if truthy mid then
             t ← now E;
             let delete_at := delete_at_from E t in
             chat_id ← _resolve_chat_id E raw_ref;
             match chat_id with
             | Some c => schedule_deletion c (default 0 mid) delete_at
             | None => mret tt
             end ;;
             mret 1
           else mret 0);
  sleep ;;
  mret added.

(** The whole loop, from [sent]. *)
Fixpoint post_to_channels (E : env) (post_cfg : post) (refs : list chat_ref)
    (sent : Z) : M world Z :=
  match refs with
  | [] => mret sent
  | raw_ref :: rest =>
      added ← post_to_channel E post_cfg raw_ref;
      post_to_channels E post_cfg rest (sent + added)
  end.

(** One firing of [_autopost_worker], after its sleep. *)
Definition autopost_fire (E : env) (post_cfg : post) : M world unit :=
  match CHANNEL_IDS E with
  | [] => logger InfoNoChannels
  | refs =>
      sent ← post_to_channels E post_cfg refs 0;
      logger (InfoSent (name post_cfg) sent)
  end.

(** [force_post_index_handler], once the index has been read and the post
    looked up; the replies to the operator are left out. The result is
    [sent]. *)
Definition force_post_index_handler (E : env) (post_cfg : post) : M world Z :=
  match CHANNEL_IDS E with
  | [] => mret 0
  | refs => post_to_channels E post_cfg refs 0
  end.

(** The body of [for row_id, chat_id, message_id in rows] in
    [_autodelete_worker]. *)
Definition retract (E : env) (row : Z * Z * Z) : M world unit :=
  let '(row_id, chat_id, message_id) := row in
  try_finally
    (try_except
       (call E (DeleteMessages chat_id message_id) ;; mret tt)
       (fun _ => logger (WarnAutodelete chat_id message_id)))
    (delete_deletion_row row_id) ;;
  sleep.

(** One turn of the [while True] of [_autodelete_worker]. *)
Definition autodelete_poll (E : env) : M world unit :=
  t ← now E;
  let now_ts := Clock.int_seconds t in
  rows ← fetch_due_deletions now_ts 200;
  match rows with
  | [] => mret tt
  | _ => logger (InfoToDelete (length rows))
  end ;;
  for_each rows (retract E) ;;
  sleep.

End Bot.

(** ** 6. The users table ([database/__init__.py]) *)

Module Users.

(** One row of [users(id INTEGER PRIMARY KEY, user_id, first_name, username)]. *)
Record user := User {
  id : Z;
  user_id : Z;
  first_name : string;
  username : option string
}.

(** The row id SQLite gives a new row of a table whose key is a plain
    [INTEGER PRIMARY KEY]: one more than the largest in the table. *)
Definition next_rowid (t : list user) : Z :=
  foldr (fun u m => Z.max (id u) m) 0 t + 1.

(** [session.query(cls).filter(cls.user_id == user_id).first()]. *)
Definition first_with_user_id (uid : Z) (t : list user) : option user :=
  head (filter (fun u => user_id u = uid) t).

(** [User.add_user_to_db]. *)
Definition add_user_to_db (uid : Z) (fname : string) (uname : option string)
    (t : list user) : list user :=
  match first_with_user_id uid t with
  | Some _ => t
  | None => t ++ [User (next_rowid t) uid fname uname]
  end.

(** [User.get_user]. *)
Definition get_user (t : list user) : list user := t.

(** The tables sequential calls of [add_user_to_db] build from the empty
    one. *)
Inductive built : list user -> Prop :=
| built_empty : built []
| built_add uid fname uname t :
    built t -> built (add_user_to_db uid fname uname t).

End Users.

(** ** 7. Concrete environments, posts and worlds *)

Module Scenarios.
Import Bot.

(** A fresh start: nothing on disk, nothing logged, no call made, the
    ledger empty. *)
Definition empty_world : world := World ∅ [] [] Ledger.db_init.

(** A world with one local picture on disk. *)
Definition world_with_picture : world :=
  World {["/data/pic.jpg"]} [] [] Ledger.db_init.

(** A client that answers every lookup with the channel -1001234 and every
    publication with the message id 42. *)
Definition obliging_client (w : world) (c : client_call) : outcome Z :=
  match c with
  | GetChat _ => Returns (-1001234)
  | DeleteMessages _ _ => Returns 1
  | _ => Returns 42
  end.

(** A client whose first lookup works and whose later lookups fail. *)
Definition flaky_lookup_client (w : world) (c : client_call) : outcome Z :=
  match c with
  | GetChat _ =>
      match calls w with
      | [] => Returns (-1001234)
      | _ => Raises RPCError
      end
  | DeleteMessages _ _ => Returns 1
  | _ => Returns 42
  end.

(** A client that knows no channel by name. *)
Definition no_such_chat_client (w : world) (c : client_call) : outcome Z :=
  match c with
  | GetChat _ => Raises BadRequest
  | DeleteMessages _ _ => Returns 1
  | _ => Returns 42
  end.

(** A client that looks channels up but has no right to publish, and fails
    to delete. *)
Definition no_rights_client (w : world) (c : client_call) : outcome Z :=
  match c with
  | GetChat _ => Returns (-1001234)
  | _ => Raises ChatAdminRequired
  end.

(** An environment around a client and an HTTP server; pictures are small
    JPEG files, there is no ffmpeg, files can be removed, the clock stands
    at 2025-03-29 22:45:00 UTC, the zone is UTC, messages live 7 days. *)
Definition env_with (cl : world -> client_call -> outcome Z)
    (http : world -> string -> option response) : env :=
  {| client := cl;
     urlopen := http;
     temp_suffix := fun _ _ => ".jpg";
     mkstemp := fun _ prefix suffix => Some ("/tmp/" +:+ prefix +:+ "k3x9" +:+ suffix);
     image_open := fun _ _ => Some (Image (Some "JPEG") (800, 600));
     pil_save := fun _ _ _ => Written;
     _has_ffmpeg := fun _ => false;
     ffmpeg_run := fun _ _ _ => Written;
     os_remove_ok := fun _ _ => true;
     clock := fun _ => 1743288300 * Clock.us_per_second;
     HAVE_HEIF := false;
     TIMEZONE := Clock.fixed_zone 0;
     CHANNEL_IDS := [RefStr "@mychannel"; RefInt (-1001234)];
     AUTO_DELETE_AFTER_DAYS := 7 |}.

(** A server that is down. *)
Definition server_down (w : world) (url : string) : option response := None.

(** A server that answers every request with a 200-byte error page. *)
Definition error_page_server (w : world) (url : string) : option response :=
  Some (Response "text/html; charset=utf-8" (Some 200)).

(** A server that serves a 50 kB picture. *)
Definition picture_server (w : world) (url : string) : option response :=
  Some (Response "image/jpeg" (Some 50000)).

Definition post1 : post :=
  Post "post1" "POST1_SCHEDULE" (Some "text") None (Some "Coucou") [].

Definition post4 : post :=
  Post "post4" "POST4_SCHEDULE" (Some "photo")
    (Some "http://my-privatelink.com/wp-content/uploads/2025/12/IMG_7602.jpg")
    (Some "Ne me fait pas attendre...") [].

(** A photo post whose media is a local file. *)
Definition local_photo_post : post :=
  Post "local" "POST4_SCHEDULE" (Some "photo") (Some "/data/pic.jpg") None [].

(** A photo post without media. *)
Definition photo_post_without_media : post :=
  Post "nomedia" "POST4_SCHEDULE" (Some "photo") None None [].

(** A world whose ledger holds three rows: two due before the clock of
    [env_with] (2025-03-29 22:45:00 UTC), one due a week later. *)
Definition world_with_three_rows : world :=
  World ∅ [] []
    (Ledger.db_schedule_deletion (-1001234) 43 1743893100
       (Ledger.db_schedule_deletion (-1001234) 42 1743288100
          (Ledger.db_schedule_deletion (-1001234) 41 1743288000
             Ledger.db_init))).

End Scenarios.

(** ** 8. The schedule of a post and the extension of a download *)

Module Config.

Import Stdlib.Strings.Ascii.

(** [_FR_WEEKDAYS]. *)
Definition _FR_WEEKDAYS : gmap string Z :=
  list_to_map
    [("lundi", 0); ("mardi", 1); ("mercredi", 2); ("jeudi", 3);
     ("vendredi", 4); ("samedi", 5); ("dimanche", 6)].

(** The keys of [_FR_WEEKDAYS]. *)
Definition day_names : list string :=
  ["lundi"; "mardi"; "mercredi"; "jeudi"; "vendredi"; "samedi"; "dimanche"].

(** [_resolve_schedule_tuple]: [config] is the schedule variables of
    [config.py], each a pair [(day_str, hhmm)]; [None] is [ValueError].
    The keys of the table are ASCII, and no other character below 256
    turns into an ASCII letter in lower case, so the table is consulted with
    the same outcome as under [str.lower]. *)
Definition _resolve_schedule_tuple (config : gmap string (string * string))
    (schedule_var_name : string) : option (Z * Z * Z) :=
  match config !! schedule_var_name with
  | None => None
  | Some (day_str, hhmm) =>
      match _FR_WEEKDAYS !! PyStr.lower (PyText.strip day_str) with
      | None => None
      | Some day_idx =>
          match PyText.int <$> PyText.split_on ":"%char (PyText.strip hhmm) with
          | [Some hour; Some minute] => Some (day_idx, hour, minute)
          | _ => None
          end
      end
  end.

(** The table [m] of [_guess_ext_from_content_type]. *)
Definition extensions : gmap string string :=
  list_to_map
    [("image/jpeg", ".jpg"); ("image/png", ".png"); ("image/webp", ".webp");
     ("image/avif", ".avif"); ("image/heic", ".heic"); ("image/heif", ".heif");
     ("video/mp4", ".mp4"); ("video/quicktime", ".mov")].

(** The values of the table. *)
Definition known_extensions : list string :=
  [".jpg"; ".png"; ".webp"; ".avif"; ".heic"; ".heif"; ".mp4"; ".mov"].

(** [ct.split(";")[0]]. *)
Definition before_semicolon (ct : string) : string :=
  default "" (head (PyText.split_on ";"%char ct)).

(** [_guess_ext_from_content_type]. *)
Definition _guess_ext_from_content_type (ct dflt : string) : string :=
  if decide (ct = "") then dflt
  else default dflt
         (extensions !! PyStr.lower (PyText.strip (before_semicolon ct))).

End Config.

(** ** 9. What a delivery leaves behind

    Every delivery to a channel ends in one of three ways that can be told
    apart afterwards: a publishing call was made, or the channel did not
    resolve, or the media was not there. The last two are log records. *)

Module Tally.
Import Bot.

(** The two records a delivery writes when it gives up before publishing. *)
Definition is_skip (e : log_entry) : bool :=
  match e with
  | WarnAutopostResolveKO _ | WarnMediaNotFound _ => true
  | _ => false
  end.

(** The number of deliveries given up before publishing, among records. *)
Definition skips (lg : list log_entry) : nat :=
  length (filter (fun e => is_skip e = true) lg).


(** A step that makes no call, and whose records are none of the two a
    delivery gives up with. *)
Definition silent (w w' : world) : Prop :=
  calls w' = calls w ∧ ledger w' = ledger w
  ∧ exists lg, log w' = log w ++ lg ∧ skips lg = 0%nat.

End Tally.

(** ** 10. The command of the operator *)

Module Commands.
Import Bot.

(** The four replies of [force_post_index_handler]. *)
Inductive reply :=
| ReplyUsage
| ReplyInvalidIndex
| ReplyNoChannels
| ReplyOk (idx sent : Z).

(** What the handler meets besides the delivery: what
    [message.reply_text] answers, given the replies made before and the
    state of the world, and whether [ZoneInfo(config.TIMEZONE)] finds the
    zone ([TIMEZONE] of the environment is then that zone). *)
Record console := Console {
  reply_text : list (reply * outcome unit) -> world -> reply -> outcome unit;
  zone_found : bool
}.

(** The handler runs on the replies made so far and the world. *)
Definition session : Type := list (reply * outcome unit) * world.

(** [await message.reply_text(...)]: the reply is recorded with its
    answer. *)
Definition say (C : console) (r : reply) : M session unit := fun '(said, w) =>
  let a := reply_text C said w r in (a, (said ++ [(r, a)], w)).

Definition on_world {A} (c : M world A) : M session A := fun '(said, w) =>
  let '(r, w') := c w in (r, (said, w')).

(** [idx = int(parts[1]); post = MESSAGES[idx]] inside its [try]: [None]
    when either raises. *)
Definition read_index (MESSAGES : list post) (arg : string) : option (Z * post) :=
  match PyText.int arg with
  | None => None
  | Some idx =>
      match PyText.getitem MESSAGES idx with
      | None => None
      | Some post_cfg => Some (idx, post_cfg)
      end
  end.

(** [force_post_index_handler], for the text of the message, [None] when
    the message has no text ([message.text.strip()] is then an
    [AttributeError]). *)
Definition force_post_index_command (E : env) (C : console)
    (MESSAGES : list post) (message_text : option string) : M session unit :=
  match message_text with
  | None => raise OtherException
  | Some t =>
      match PyText.split_space (PyText.strip t) with
      | [_; arg] =>
          match read_index MESSAGES arg with
          | None => say C ReplyInvalidIndex
          | Some (idx, post_cfg) =>
              match CHANNEL_IDS E with
              | [] => say C ReplyNoChannels
              | refs =>
                  if zone_found C then
                    sent ← on_world (post_to_channels E post_cfg refs 0);
                    say C (ReplyOk idx sent)
                  else raise OtherException
              end
          end
      | _ => say C ReplyUsage
      end
  end.

End Commands.

(** ** 11. The start-up check ([_preflight_check])

    The check talks to the client through calls of its own ([get_me],
    [get_chat], [get_chat_member]) and only writes to the logger. *)

Module Preflight.
Import Bot.

(** The calls [_preflight_check] makes on the client. *)
Inductive probe :=
| GetMe
| GetChatInfo (raw : chat_ref)
| GetChatMember (chat me : Z).

(** [member.privileges.can_post_messages] and [can_delete_messages], each
    [None] where the attribute is missing. *)
Definition rights : Type := option bool * option bool.

(** The records it writes to the logger. *)
Inductive record :=
| InfoRights (chat : Z) (can_post can_delete : option bool)
| WarnRights (chat : Z)
| WarnAccess (raw : chat_ref)
| WarnGlobal.

(** The calls made so far and the records written so far. *)
Record state := State {
  probes : list probe;
  records : list record
}.

(** What the client answers, given the calls made before. *)
Record api := Api {
  get_me : list probe -> outcome Z;
  get_chat : list probe -> chat_ref -> outcome Z;
  get_chat_member : list probe -> Z -> Z -> outcome rights
}.

Definition ask {A} (p : probe) (answer : list probe -> outcome A) : M state A :=
  fun s => (answer (probes s), State (probes s ++ [p]) (records s)).

Definition note (r : record) : M state unit := fun s =>
  (Returns tt, State (probes s) (records s ++ [r])).

(** The body of [for raw in getattr(config, "CHANNEL_IDS", [])]. *)
Definition check_channel (O : api) (me : Z) (raw : chat_ref) : M state unit :=
  try_except
    (chat ← ask (GetChatInfo raw) (fun h => get_chat O h raw);
     try_except
       (member ← ask (GetChatMember chat me)
                   (fun h => get_chat_member O h chat me);
        note (InfoRights chat member.1 member.2))
       (fun _ => note (WarnRights chat)))
    (fun _ => note (WarnAccess raw)).

(** [_preflight_check]. *)
Definition _preflight_check (O : api) (CHANNEL_IDS : list chat_ref)
    : M state unit :=
  try_except
    (me ← ask GetMe (get_me O);
     for_each CHANNEL_IDS (check_channel O me))
    (fun _ => note WarnGlobal).

(** The channels looked up among a list of calls, in the order of the
    calls. *)
Definition lookups (ps : list probe) : list chat_ref :=
  omap (fun p => match p with GetChatInfo raw => Some raw | _ => None end) ps.

End Preflight.

(** * Properties *)

(** ** The deletion ledger *)

Module LedgerProps.
Import Ledger.

Lemma sql_limit_take {A} (n : Z) (l : list A) :
  exists k : nat, sql_limit n l = take k l.
Proof.
  unfold sql_limit. destruct (n <? 0).
  - exists (length l). by rewrite firstn_all.
  - by exists (Z.to_nat n).
Qed.

Lemma sql_limit_elem_of {A} (n : Z) (l : list A) (x : A) :
  x ∈ sql_limit n l -> x ∈ l.
Proof.
  destruct (sql_limit_take n l) as [k ->]. apply subseteq_take.
Qed.

Lemma sql_limit_length {A} (n : Z) (l : list A) :
  0 <= n -> Z.of_nat (length (sql_limit n l)) <= n.
Proof.
  intros Hn. unfold sql_limit.
  destruct (Z.ltb_spec n 0) as [?|_]; [lia|].
  rewrite length_take. lia.
Qed.

Lemma sql_limit_sorted {A} (R : relation A) (n : Z) (l : list A) :
  StronglySorted R l -> StronglySorted R (sql_limit n l).
Proof.
  destruct (sql_limit_take n l) as [k ->]. intros Hs.
  rewrite <- (take_drop k l) in Hs. by apply StronglySorted_app_1_l in Hs.
Qed.

Lemma sql_limit_NoDup {A B} (f : A -> B) (n : Z) (l : list A) :
  NoDup (f <$> l) -> NoDup (f <$> sql_limit n l).
Proof.
  destruct (sql_limit_take n l) as [k ->]. intros Hs.
  rewrite <- (take_drop k l), fmap_app in Hs.
  by apply NoDup_app in Hs as (? & _ & _).
Qed.

Lemma order_by_id_perm (l : list deletion) : order_by_id l ≡ₚ l.
Proof. apply merge_sort_Permutation. Qed.

Lemma order_by_id_sorted (l : list deletion) :
  StronglySorted id_le (order_by_id l).
Proof.
  apply StronglySorted_merge_sort.
  - intros a b c. unfold id_le. lia.
  - intros a b. unfold id_le. lia.
Qed.

Lemma NoDup_fmap_filter {A B} (f : A -> B) (P : A -> Prop)
    `{!forall x, Decision (P x)} (l : list A) :
  NoDup (f <$> l) -> NoDup (f <$> filter P l).
Proof.
  induction l as [|x l IH]; [done|].
  rewrite fmap_cons, NoDup_cons. intros [Hx Hl].
  rewrite filter_cons. destruct (decide (P x)); [|by apply IH].
  rewrite fmap_cons, NoDup_cons. split; [|by apply IH].
  intros (y & Hy & Hin)%list_elem_of_fmap.
  apply Hx, list_elem_of_fmap. exists y.
  split; [done|]. by apply list_elem_of_filter in Hin as [_ ?].
Qed.

(** The rows the SELECT picks are rows of the table that are due. *)
Lemma due_rows_elem_of (L : ledger) (now_ts limit : Z) (r : deletion) :
  r ∈ due_rows now_ts limit L -> r ∈ rows L ∧ delete_at r <= now_ts.
Proof.
  unfold due_rows. intros Hr%sql_limit_elem_of.
  rewrite order_by_id_perm in Hr.
  apply list_elem_of_filter in Hr as [Hdue Hin]. done.
Qed.

Lemma due_rows_NoDup (L : ledger) (now_ts limit : Z) :
  NoDup (id <$> rows L) -> NoDup (id <$> due_rows now_ts limit L).
Proof.
  intros Hnd. unfold due_rows. apply sql_limit_NoDup.
  rewrite order_by_id_perm. by apply NoDup_fmap_filter.
Qed.

Lemma strictly_sorted (l : list deletion) :
  NoDup (id <$> l) -> StronglySorted id_le l ->
  StronglySorted (fun a b => id a < id b) l.
Proof.
  intros Hnd Hs. induction Hs as [|x l Hs IH Hall]; [constructor|].
  rewrite fmap_cons, NoDup_cons in Hnd. destruct Hnd as [Hx Hnd].
  constructor; [by apply IH|].
  rewrite Forall_forall in Hall. apply Forall_forall. intros y Hy.
  specialize (Hall y Hy). unfold id_le in Hall.
  assert (id x ≠ id y); [|lia].
  intros Heq. apply Hx. rewrite Heq. apply list_elem_of_fmap. eauto.
Qed.

(** Order of ids is order of insertion: in a ledger grown by inserts and
    deletes from a well-formed one, the rows stand in ascending id. *)
Lemma max_id_ge (l : list deletion) (r : deletion) : r ∈ l -> id r <= max_id l.
Proof.
  induction l as [|x l IH]; [by intros ?%elem_of_nil|].
  intros [->|Hin]%elem_of_cons; simpl; [lia|]. specialize (IH Hin). lia.
Qed.

Lemma wf_init : wf db_init.
Proof. split; simpl; constructor. Qed.

Lemma wf_insert c m d (L : ledger) : wf L -> wf (db_schedule_deletion c m d L).
Proof.
  intros [Hnd Hle]. split; simpl.
  - rewrite fmap_app. apply NoDup_app. split; [done|]. split.
    + intros i (r & -> & Hr)%list_elem_of_fmap Hi. simpl in Hi.
      apply list_elem_of_singleton in Hi.
      pose proof (max_id_ge _ _ Hr). unfold next_id in Hi. lia.
    + simpl. apply NoDup_singleton.
  - apply Forall_app. split.
    + eapply Forall_impl; [exact Hle|]. intros r Hr. simpl in Hr.
      unfold next_id. lia.
    + constructor; [simpl; lia|constructor].
Qed.

Lemma wf_delete i (L : ledger) : wf L -> wf (db_delete_deletion_row i L).
Proof.
  intros [Hnd Hle]. split; simpl.
  - by apply NoDup_fmap_filter.
  - rewrite Forall_forall in Hle. apply Forall_forall.
    intros r [_ Hr]%list_elem_of_filter. by apply Hle.
Qed.

Lemma evolves_wf (L L' : ledger) : wf L -> evolves L L' -> wf L'.
Proof.
  intros Hwf. induction 1; auto using wf_insert, wf_delete.
Qed.

Lemma reachable_wf (L : ledger) : reachable L -> wf L.
Proof. apply evolves_wf, wf_init. Qed.

(** A retired row id never comes back. *)
Lemma retired_insert i c m d (L : ledger) :
  retired i L -> retired i (db_schedule_deletion c m d L).
Proof.
  intros [Hle Hni]. split; simpl; [unfold next_id; lia|].
  rewrite fmap_app, elem_of_app. intros [?|Hi]; [done|].
  simpl in Hi. apply list_elem_of_singleton in Hi. unfold next_id in Hi. lia.
Qed.

Lemma retired_delete i j (L : ledger) :
  retired i L -> retired i (db_delete_deletion_row j L).
Proof.
  intros [Hle Hni]. split; simpl; [done|].
  intros (r & -> & Hr)%list_elem_of_fmap.
  apply list_elem_of_filter in Hr as [_ Hr].
  apply Hni, list_elem_of_fmap. eauto.
Qed.

Lemma retired_evolves i (L L' : ledger) :
  retired i L -> evolves L L' -> retired i L'.
Proof.
  intros Hr. induction 1; auto using retired_insert, retired_delete.
Qed.

Lemma delete_retires i (L : ledger) :
  wf L -> i ∈ (id <$> rows L) -> retired i (db_delete_deletion_row i L).
Proof.
  intros [_ Hle] (r & -> & Hr)%list_elem_of_fmap. split; simpl.
  - rewrite Forall_forall in Hle. by apply Hle.
  - intros (r' & Heq & Hr')%list_elem_of_fmap.
    by apply list_elem_of_filter in Hr' as [? _].
Qed.

Lemma filter_idem {A} (P : A -> Prop) `{!forall x, Decision (P x)} (l : list A) :
  filter P (filter P l) = filter P l.
Proof.
  induction l as [|x l IH]; [done|].
  rewrite filter_cons. destruct (decide (P x)) as [HP|HP]; [|done].
  rewrite filter_cons. destruct (decide (P x)); [|done]. by rewrite IH.
Qed.

Lemma filter_all {A} (P : A -> Prop) `{!forall x, Decision (P x)} (l : list A) :
  Forall P l -> filter P l = l.
Proof.
  induction 1 as [|x l HP _ IH]; [done|].
  rewrite filter_cons. destruct (decide (P x)); [|done]. by rewrite IH.
Qed.

Lemma NoDup_fmap_eq {A B} (f : A -> B) (l : list A) (x y : A) :
  NoDup (f <$> l) -> x ∈ l -> y ∈ l -> f x = f y -> x = y.
Proof.
  induction l as [|z l IH]; [by intros _ ?%elem_of_nil|].
  rewrite fmap_cons, NoDup_cons. intros [Hz Hnd] Hx Hy Heq.
  apply elem_of_cons in Hx as [->|Hx]; apply elem_of_cons in Hy as [->|Hy].
  - done.
  - exfalso. apply Hz. rewrite Heq. apply list_elem_of_fmap. eauto.
  - exfalso. apply Hz. rewrite <- Heq. apply list_elem_of_fmap. eauto.
  - by apply IH.
Qed.

(** In a ledger the program can build, the rows stand in ascending id:
    the order of the ids is the order of insertion. *)
Lemma StronglySorted_filter {A} (R : relation A) (P : A -> Prop)
    `{!forall x, Decision (P x)} (l : list A) :
  StronglySorted R l -> StronglySorted R (filter P l).
Proof.
  induction 1 as [|x l Hs IH Hall]; [constructor|].
  rewrite filter_cons. destruct (decide (P x)); [|done].
  constructor; [done|]. rewrite Forall_forall in Hall. apply Forall_forall.
  intros y [_ Hy]%list_elem_of_filter. by apply Hall.
Qed.

Lemma StronglySorted_weaken {A} (R1 R2 : relation A) (l : list A) :
  (forall x y, R1 x y -> R2 x y) -> StronglySorted R1 l -> StronglySorted R2 l.
Proof.
  intros HR. induction 1 as [|x l Hs IH Hall]; constructor; [done|].
  eapply Forall_impl; [exact Hall|]. intros y. apply HR.
Qed.

Lemma reachable_in_id_order (L : ledger) :
  reachable L -> StronglySorted (fun a b => id a < id b) (rows L).
Proof.
  intros HL. pose proof (reachable_wf L HL) as Hwf. revert Hwf.
  unfold reachable in HL.
  induction HL as [|c m d L' HL IH|i L' HL IH]; intros Hwf.
  - constructor.
  - pose proof (evolves_wf _ _ wf_init HL) as Hwf'.
    simpl. apply StronglySorted_app_2; [|by apply IH|repeat constructor].
    intros r r' Hr ->%list_elem_of_singleton. simpl.
    pose proof (max_id_ge _ _ Hr). unfold next_id. lia.
  - pose proof (evolves_wf _ _ wf_init HL) as Hwf'.
    simpl. by apply StronglySorted_filter, IH.
Qed.

(** There the SELECT gives the first [limit] due rows in the order they were
    inserted. *)
Lemma due_rows_in_insertion_order (L : ledger) (now_ts limit : Z) :
  reachable L ->
  due_rows now_ts limit L = sql_limit limit (filter (due now_ts) (rows L)).
Proof.
  intros HL. unfold due_rows. f_equal.
  pose proof (reachable_in_id_order L HL) as Hs.
  destruct (reachable_wf L HL) as [Hnd _].
  apply (StronglySorted_unique_strong id_le).
  - intros x y Hx Hy. rewrite order_by_id_perm in Hx.
    apply list_elem_of_filter in Hx as [_ Hx].
    apply list_elem_of_filter in Hy as [_ Hy].
    unfold id_le. intros ? ?. eapply (NoDup_fmap_eq id); eauto. lia.
  - apply order_by_id_sorted.
  - apply StronglySorted_filter.
    eapply StronglySorted_weaken; [|exact Hs]. unfold id_le. intros; lia.
  - apply order_by_id_perm.
Qed.

(** A ledger of two rows, due at 10 and at 20. *)
Example two_rows :
  rows (db_schedule_deletion 7 2 20 (db_schedule_deletion 7 1 10 db_init))
  = [Deletion 1 7 1 10; Deletion 2 7 2 20].
Proof. reflexivity. Qed.

Example fetch_two_rows_at_15 :
  db_fetch_due_deletions 15 200
    (db_schedule_deletion 7 2 20 (db_schedule_deletion 7 1 10 db_init))
  = [(1, 7, 1)].
Proof. reflexivity. Qed.

(** A limit below zero, which no caller passes, is read by SQLite as no
    limit: both due rows come back. *)
Lemma db_fetch_due_deletions_negative_limit :
  let L := db_schedule_deletion 7 2 20 (db_schedule_deletion 7 1 10 db_init) in
  db_fetch_due_deletions 100 (-1) L = [(1, 7, 1); (2, 7, 2)]
  ∧ ¬ (Z.of_nat (length (db_fetch_due_deletions 100 (-1) L)) <= -1).
Proof. split; [reflexivity|]. simpl. lia. Qed.

(** C3: on every ledger, for every [now_ts] and every limit,
    [db_fetch_due_deletions] returns only rows of the ledger with
    [delete_at <= now_ts], never a row with [delete_at > now_ts], in
    strictly ascending row id; and for every limit that is not negative it
    returns at most [limit] of them. In a ledger built by the program,
    ascending row id is the order of insertion, and the result is the first
    [limit] due rows in that order. *)
Theorem db_fetch_due_deletions_spec (L : ledger) (now_ts limit : Z) :
  wf L ->
  let r := db_fetch_due_deletions now_ts limit L in
  (forall t, t ∈ r ->
     exists row, row ∈ rows L ∧ columns row = t ∧ delete_at row <= now_ts)
  ∧ (forall row, row ∈ rows L -> now_ts < delete_at row -> columns row ∉ r)
  ∧ StronglySorted (fun a b => a.1.1 < b.1.1) r
  ∧ (0 <= limit -> Z.of_nat (length r) <= limit)
  ∧ (reachable L ->
     r = columns <$> sql_limit limit (filter (due now_ts) (rows L))).
Proof.
  intros [Hnd _] r. subst r. unfold db_fetch_due_deletions.
  split; [|split; [|split; [|split]]];
    [| | | |intros HL; by rewrite due_rows_in_insertion_order].
  - intros t (row & -> & Hrow)%list_elem_of_fmap.
    apply due_rows_elem_of in Hrow as [? ?]. eauto.
  - intros row Hin Hlate (row' & Heq & Hrow')%list_elem_of_fmap.
    apply due_rows_elem_of in Hrow' as [Hin' Hdue].
    assert (row = row') as <-; [|lia].
    eapply (NoDup_fmap_eq id); eauto.
    unfold columns in Heq. congruence.
  - eapply StronglySorted_fmap; [|apply strictly_sorted].
    + intros x y Hxy. exact Hxy.
    + by apply due_rows_NoDup.
    + unfold due_rows. apply sql_limit_sorted, order_by_id_sorted.
  - intros Hlim. rewrite length_fmap. unfold due_rows.
    by apply sql_limit_length.
Qed.

Lemma db_fetch_due_deletions_spec_witness :
  let L := db_schedule_deletion 7 2 20 (db_schedule_deletion 7 1 10 db_init) in
  wf L
  ∧ db_fetch_due_deletions 15 1 L = [(1, 7, 1)]
  ∧ (forall row, row ∈ rows L -> 15 < delete_at row ->
       columns row ∉ db_fetch_due_deletions 15 1 L).
Proof.
  assert (Hwf : wf (db_schedule_deletion 7 2 20
                      (db_schedule_deletion 7 1 10 db_init))).
  { split; [apply (bool_decide_unpack _)|apply (bool_decide_unpack _)];
      vm_compute; exact I. }
  split; [exact Hwf|]. split; [reflexivity|].
  exact (proj1 (proj2 (db_fetch_due_deletions_spec _ 15 1 Hwf))).
Defined.

(** C4: deleting a row twice gives the ledger that deleting it once gives;
    the row is absent after either call; every other row is kept; deleting
    an id that is not in the ledger changes nothing; and the call returns
    normally whatever the ledger holds. *)
Theorem db_delete_deletion_row_idempotent (L : ledger) (row_id : Z) :
  db_delete_deletion_row row_id (db_delete_deletion_row row_id L)
  = db_delete_deletion_row row_id L
  ∧ (row_id ∉ (id <$> rows (db_delete_deletion_row row_id L)))
  ∧ (forall r, r ∈ rows L -> id r ≠ row_id ->
       r ∈ rows (db_delete_deletion_row row_id L))
  ∧ (row_id ∉ (id <$> rows L) -> db_delete_deletion_row row_id L = L)
  ∧ (forall w, Bot.ledger w = L ->
       (Bot.delete_deletion_row row_id w).1 = Bot.Returns tt
       ∧ Bot.ledger (Bot.delete_deletion_row row_id w).2
         = db_delete_deletion_row row_id L).
Proof.
  unfold db_delete_deletion_row. simpl. split; [|split; [|split; [|split]]].
  - by rewrite filter_idem.
  - intros (r & Heq & Hr)%list_elem_of_fmap.
    by apply list_elem_of_filter in Hr as [? _].
  - intros r Hr Hne. rewrite list_elem_of_filter. done.
  - intros Hni. destruct L as [rs sq]. simpl in *. f_equal.
    apply filter_all, Forall_forall. intros r Hr Heq.
    apply Hni, list_elem_of_fmap. eauto.
  - by intros w <-.
Qed.

Example delete_twice :
  let L := db_schedule_deletion 7 2 20 (db_schedule_deletion 7 1 10 db_init) in
  rows (db_delete_deletion_row 1 (db_delete_deletion_row 1 L))
  = [Deletion 2 7 2 20]
  ∧ db_delete_deletion_row 5 L = L.
Proof. split; reflexivity. Qed.

End LedgerProps.

(** ** The weekly recurrence *)

Module ClockProps.
Import Clock.

Ltac unfold_wall :=
  unfold wall_us, us_per_day, us_per_second, epoch_ordinal in *.

Lemma datetime_of_wall_valid (x : Z) (f : bool) : valid (datetime_of_wall x f).
Proof.
  unfold valid, datetime_of_wall; simpl. unfold us_per_day, us_per_second.
  repeat split; Z.div_mod_to_equations; lia.
Qed.

Lemma wall_us_of_wall (x : Z) (f : bool) : wall_us (datetime_of_wall x f) = x.
Proof.
  unfold wall_us, datetime_of_wall; simpl.
  unfold us_per_day, us_per_second, epoch_ordinal.
  Z.div_mod_to_equations. lia.
Qed.

(** Two valid readings with the same number are the same reading. *)
Lemma wall_us_inj (d1 d2 : datetime) :
  valid d1 -> valid d2 -> wall_us d1 = wall_us d2 ->
  ordinal d1 = ordinal d2 ∧ hour d1 = hour d2 ∧ minute d1 = minute d2
  ∧ second d1 = second d2 ∧ microsecond d1 = microsecond d2.
Proof.
  unfold valid. unfold_wall. intros (?&?&?&?) (?&?&?&?) Heq.
  assert (ordinal d1 = ordinal d2) by lia.
  assert (hour d1 = hour d2) by lia.
  assert (minute d1 = minute d2) by lia.
  assert (second d1 = second d2) by lia.
  repeat split; lia.
Qed.

Lemma weekday_add_days_7 (d : datetime) : weekday (add_days d 7) = weekday d.
Proof.
  unfold weekday, add_days; simpl. Z.div_mod_to_equations. lia.
Qed.

(** [target] falls on the asked weekday, at the asked hour and minute. *)
Lemma next_weekly_target_fields (weekday_idx h m : Z) (now : datetime) :
  0 <= weekday_idx < 7 ->
  let target := next_weekly_target weekday_idx h m now in
  weekday target = weekday_idx ∧ hour target = h ∧ minute target = m
  ∧ second target = 0 ∧ microsecond target = 0.
Proof.
  intros Hwd. unfold next_weekly_target.
  set (t := replace_hm _ h m).
  assert (weekday t = weekday_idx) as Ht.
  { unfold t, weekday, replace_hm, add_days; simpl. unfold weekday.
    Z.div_mod_to_equations. lia. }
  destruct (decide _); [rewrite weekday_add_days_7|]; done.
Qed.

(** [target] is later than [now] on the wall clock, by a week at most. *)
Lemma next_weekly_target_after (weekday_idx h m : Z) (now : datetime) :
  valid now -> 0 <= h < 24 -> 0 <= m < 60 ->
  let target := next_weekly_target weekday_idx h m now in
  wall_us now < wall_us target <= wall_us now + 7 * us_per_day.
Proof.
  intros (?&?&?&?) Hh Hm. unfold next_weekly_target.
  pose proof (Z.mod_pos_bound (weekday_idx - weekday now) 7 eq_refl) as Hd.
  revert Hd. generalize ((weekday_idx - weekday now) mod 7). intros k Hk.
  destruct (decide _) as [Hle|Hgt]; revert Hle || revert Hgt;
    unfold replace_hm, add_days; unfold_wall; simpl; lia.
Qed.

(** The returned duration is positive and at most a week. *)
Lemma seconds_until_next_weekly_bounds (weekday_idx h m : Z) (tz : tzinfo) (clock : Z) :
  valid (fromutc tz clock) -> 0 <= h < 24 -> 0 <= m < 60 ->
  0 < _seconds_until_next_weekly weekday_idx h m tz clock <= 7 * us_per_day.
Proof.
  intros Hv Hh Hm. unfold _seconds_until_next_weekly, datetime_now.
  pose proof (next_weekly_target_after weekday_idx h m _ Hv Hh Hm). simpl in *. lia.
Qed.

(** When [now] reads exactly the schedule, the duration is seven days. *)
Lemma seconds_until_next_weekly_exact (weekday_idx h m : Z) (tz : tzinfo) (clock : Z) :
  at_schedule weekday_idx h m (fromutc tz clock) ->
  _seconds_until_next_weekly weekday_idx h m tz clock = 7 * us_per_day.
Proof.
  intros (Hwd & Hh & Hm & Hs & Hus).
  unfold _seconds_until_next_weekly, datetime_now, next_weekly_target.
  rewrite Hwd, Z.sub_diag. change (0 mod 7) with 0.
  destruct (decide _) as [Hle|Hgt]; revert Hle || revert Hgt;
    unfold replace_hm, add_days; unfold_wall; simpl; lia.
Qed.

Lemma offset_at_fixed_zone (off t : Z) : offset_at (fixed_zone off) t = off.
Proof.
  unfold offset_at, fixed_zone; simpl. rewrite wall_us_of_wall. lia.
Qed.

(** With the same offset at both ends, the local reading at the end of the
    sleep is [target]. *)
Lemma fire_reads_target (weekday_idx h m : Z) (tz : tzinfo) (clock : Z) :
  offset_at tz (next_occurrence weekday_idx h m tz clock) = offset_at tz clock ->
  wall_us (fromutc tz (next_occurrence weekday_idx h m tz clock))
  = wall_us (next_weekly_target weekday_idx h m (fromutc tz clock)).
Proof.
  unfold offset_at, next_occurrence, _seconds_until_next_weekly, datetime_now.
  intros Hoff. lia.
Qed.

Lemma next_weekly_target_valid (weekday_idx h m : Z) (now : datetime) :
  0 <= weekday_idx < 7 -> 0 <= h < 24 -> 0 <= m < 60 ->
  valid (next_weekly_target weekday_idx h m now).
Proof.
  intros Hwd Hh Hm.
  destruct (next_weekly_target_fields weekday_idx h m now Hwd)
    as (_ & Th & Tm & Ts & Tus).
  unfold valid. rewrite Th, Tm, Ts, Tus. unfold us_per_second. lia.
Qed.

(** Where the zone has the same offset from UTC at the current instant and
    at the returned one, the sleep ends strictly in the future, at an
    instant whose local reading is the asked weekday, hour and minute; and
    from a clock that reads exactly the schedule it ends seven days later. *)
Lemma next_occurrence_same_offset (weekday_idx h m : Z) (tz : tzinfo) (clock : Z) :
  (forall t, valid (fromutc tz t)) ->
  0 <= weekday_idx < 7 -> 0 <= h < 24 -> 0 <= m < 60 ->
  offset_at tz (next_occurrence weekday_idx h m tz clock) = offset_at tz clock ->
  clock < next_occurrence weekday_idx h m tz clock
  ∧ weekday (fromutc tz (next_occurrence weekday_idx h m tz clock)) = weekday_idx
  ∧ hour (fromutc tz (next_occurrence weekday_idx h m tz clock)) = h
  ∧ minute (fromutc tz (next_occurrence weekday_idx h m tz clock)) = m
  ∧ (at_schedule weekday_idx h m (fromutc tz clock) ->
     next_occurrence weekday_idx h m tz clock = clock + 7 * us_per_day).
Proof.
  intros Hv Hwd Hh Hm Hoff.
  destruct (seconds_until_next_weekly_bounds weekday_idx h m tz clock
              (Hv clock) Hh Hm) as [Hpos _].
  destruct (next_weekly_target_fields weekday_idx h m (fromutc tz clock) Hwd)
    as (Twd & Th & Tm & _).
  apply fire_reads_target in Hoff.
  apply wall_us_inj in Hoff as (Ho & Hh' & Hm' & _);
    [|by apply Hv|by apply next_weekly_target_valid].
  split; [unfold next_occurrence; lia|].
  split; [unfold weekday in *; by rewrite Ho|].
  split; [congruence|]. split; [congruence|].
  intros Hexact. unfold next_occurrence.
  by rewrite seconds_until_next_weekly_exact.
Qed.

(** In particular in every zone without clock changes. *)
Lemma next_occurrence_fixed_zone (weekday_idx h m off clock : Z) :
  0 <= weekday_idx < 7 -> 0 <= h < 24 -> 0 <= m < 60 ->
  let tz := fixed_zone off in
  let fire := next_occurrence weekday_idx h m tz clock in
  clock < fire
  ∧ weekday (fromutc tz fire) = weekday_idx
  ∧ hour (fromutc tz fire) = h
  ∧ minute (fromutc tz fire) = m
  ∧ (at_schedule weekday_idx h m (fromutc tz clock) ->
     fire = clock + 7 * us_per_day).
Proof.
  intros Hwd Hh Hm tz fire. subst tz fire.
  apply next_occurrence_same_offset; try assumption.
  - intros t. apply datetime_of_wall_valid.
  - by rewrite !offset_at_fixed_zone.
Qed.

(** Monday 09:00 asked, Monday 2025-03-03 09:00:01 UTC on the clock: the
    next occurrence is Monday 2025-03-10 09:00. *)
Example monday_nine_one_second_late :
  let tz := fixed_zone 0 in
  let clock := 1740992401 * us_per_second in
  weekday (datetime_now tz clock) = 0
  ∧ _seconds_until_next_weekly 0 9 0 tz clock = (7 * 86400 - 1) * us_per_second
  ∧ next_occurrence 0 9 0 tz clock = 1741597200 * us_per_second.
Proof. repeat split; reflexivity. Qed.

(** C2 fails on the code across a clock change. Europe/Paris, Saturday
    2025-03-29 23:45 local time on the clock (22:45 UTC), Sunday 23:30
    asked: the function returns 23 h 45 min, the difference of the two
    wall-clock readings; but the night is one hour short, and a sleep of
    that length ends on Monday 2025-03-31 at 00:30 local time. Sunday
    23:30 local time is 22 h 45 min away. *)
Theorem next_occurrence_across_dst :
  let tz := europe_paris_2025 in
  let clock := 1743288300 * us_per_second in
  let local := datetime_now tz clock in
  let fire := datetime_now tz (next_occurrence 6 23 30 tz clock) in
  let due := datetime_now tz (clock + 81900 * us_per_second) in
  (weekday local = 5 ∧ hour local = 23 ∧ minute local = 45)
  ∧ _seconds_until_next_weekly 6 23 30 tz clock = 85500 * us_per_second
  ∧ (weekday fire = 0 ∧ hour fire = 0 ∧ minute fire = 30)
  ∧ ¬ (weekday fire = 6 ∧ hour fire = 23 ∧ minute fire = 30)
  ∧ (weekday due = 6 ∧ hour due = 23 ∧ minute due = 30
     ∧ second due = 0 ∧ microsecond due = 0).
Proof.
  vm_compute. repeat split; try reflexivity. intros [? _]. discriminate.
Qed.

End ClockProps.

(** ** The delivery unit *)

Module BotProps.
Import Bot.

Ltac run :=
  unfold mbind, M_bind, mret, M_ret, try_except, try_finally, raise, logger,
    call, in_world, with_frame, set_temp_path, set_conv_path, sleep, now,
    write_output, create_file, delete_file in *;
  simpl in *.

Lemma quiet_refl (w : world) : quiet w w.
Proof. repeat split. exists []. by rewrite app_nil_r. Qed.

Lemma quiet_trans (w1 w2 w3 : world) : quiet w1 w2 -> quiet w2 w3 -> quiet w1 w3.
Proof.
  intros (C1 & L1 & lg1 & G1) (C2 & L2 & lg2 & G2).
  repeat split; [congruence..|].
  exists (lg1 ++ lg2). by rewrite G2, G1, app_assoc.
Qed.

Lemma quiet_change (w : world) (files : gset string) (lg : list log_entry) :
  quiet w (World files (log w ++ lg) (calls w) (ledger w)).
Proof. repeat split. by exists lg. Qed.

Lemma quiet_files (w : world) (files : gset string) :
  quiet w (World files (log w) (calls w) (ledger w)).
Proof. repeat split. exists []. by rewrite app_nil_r. Qed.

Create HintDb quiet.
#[local] Hint Resolve quiet_refl quiet_change quiet_files : quiet.

Ltac done_quiet :=
  eexists _, _; split; [reflexivity|]; eauto with quiet.

Lemma new_calls_app (w w' : world) evs :
  calls w' = calls w ++ evs -> new_calls w w' = evs.
Proof. unfold new_calls. intros ->. by rewrite drop_app_length. Qed.

Lemma new_log_app (w w' : world) lg :
  log w' = log w ++ lg -> new_log w w' = lg.
Proof. unfold new_log. intros ->. by rewrite drop_app_length. Qed.

(** [_resolve_chat_id] never raises; it leaves the disk and the ledger
    alone, and calls the client at most once, to look a name up. *)
Lemma resolve_chat_id_spec (E : env) (ref : chat_ref) (w : world) :
  exists r w', _resolve_chat_id E ref w = (Returns r, w')
    ∧ fs w' = fs w ∧ ledger w' = ledger w
    ∧ (exists lg, log w' = log w ++ lg)
    ∧ (calls w' = calls w
       ∨ exists s o, ref = RefStr s ∧ calls w' = calls w ++ [(GetChat s, o)]).
Proof.
  unfold _resolve_chat_id. destruct ref as [n|s]; run.
  - exists (Some n), w. repeat split; auto. exists []. by rewrite app_nil_r.
  - destruct (negb _); run.
    + destruct (client E w (GetChat s)) as [c|e] eqn:Hc; run;
        eexists _, _; (split; [reflexivity|]); simpl; repeat split; eauto.
      exists []. by rewrite app_nil_r.
    + destruct (PyText.int s); run;
        eexists _, _; (split; [reflexivity|]); simpl; repeat split; eauto.
      exists []. by rewrite app_nil_r.
Qed.

(** A number is its own identifier: no call, no log, no change. *)
Lemma resolve_chat_id_int (E : env) (n : Z) (w : world) :
  _resolve_chat_id E (RefInt n) w = (Returns (Some n), w).
Proof. reflexivity. Qed.

(** [_download_if_url] never raises, and is quiet. *)
Lemma download_if_url_spec (E : env) (u : option string) (w : world) :
  exists r w', _download_if_url E u w = (Returns r, w') ∧ quiet w w'.
Proof.
  unfold _download_if_url. destruct (PyStr.falsy u); run; [done_quiet|].
  destruct (negb _); run; [done_quiet|].
  unfold download_to_temp.
  destruct (urlopen E w _) as [resp|]; run; [|done_quiet].
  destruct (mkstemp E w _ _) as [tp|]; run; [|done_quiet].
  destruct (body_length resp) as [n|]; run; [|done_quiet].
  destruct (n <? 1024); run; done_quiet.
Qed.

(** A local path is given back as it is, and nothing happens. *)
Lemma download_if_url_local (E : env) (s : string) (w : world) :
  s ≠ "" -> PyStr.is_url s = false ->
  _download_if_url E (Some s) w = (Returns (Some s), w).
Proof.
  intros Hs Hu. unfold _download_if_url. simpl.
  rewrite bool_decide_eq_false_2 by done. by rewrite Hu.
Qed.

Lemma convert_image_spec (E : env) (path : string) (w : world) :
  exists c w', _convert_image_if_needed E path w = (Returns c, w') ∧ quiet w w'.
Proof.
  unfold _convert_image_if_needed. run.
  destruct (image_open E w path) as [im|]; run; [|done_quiet].
  destruct (bool_decide (_ ∈ problematic)).
  - destruct (_ && _); [done_quiet|].
    destruct (pil_save E w path _) as [|[|]]; run; done_quiet.
  - destruct (size im) as [wd ht]. destruct (max_side <? _); [|done_quiet].
    destruct (pil_save E w path _) as [|[|]]; run; done_quiet.
Qed.

Lemma convert_video_spec (E : env) (path : string) (w : world) :
  exists c w', _convert_video_if_needed E path w = (Returns c, w') ∧ quiet w w'.
Proof.
  unfold _convert_video_if_needed. destruct (negb _); [done_quiet|]. run.
  destruct (ffmpeg_run E w path _) as [|[|]]; run; done_quiet.
Qed.

(** The [finally] clause only deletes files. *)
Lemma remove_if_exists_frame (E : env) (p : option string) (w : world) :
  log (remove_if_exists E p w) = log w
  ∧ calls (remove_if_exists E p w) = calls w
  ∧ ledger (remove_if_exists E p w) = ledger w
  ∧ fs (remove_if_exists E p w) ⊆ fs w.
Proof.
  unfold remove_if_exists. destruct p as [s|]; [|done].
  destruct (_ && _); [|done]. destruct (os_remove_ok E w s); [|done].
  unfold delete_file; simpl. repeat split. by apply subseteq_difference_l.
Qed.

Lemma cleanup_world_frame (E : env) (f : frame) (w : world) :
  log (cleanup_world E f w) = log w
  ∧ calls (cleanup_world E f w) = calls w
  ∧ ledger (cleanup_world E f w) = ledger w
  ∧ fs (cleanup_world E f w) ⊆ fs w.
Proof.
  unfold cleanup_world.
  destruct (remove_if_exists_frame E (conv_path f) w) as (L1 & C1 & D1 & F1).
  destruct (remove_if_exists_frame E (temp_path f)
              (remove_if_exists E (conv_path f) w)) as (L2 & C2 & D2 & F2).
  repeat split; [congruence..|by etrans].
Qed.

(** A path the operating system lets go of is gone after its turn of the
    loop. *)
Lemma remove_if_exists_gone (E : env) (p : string) (w : world) :
  p ≠ "" -> os_remove_ok E w p = true ->
  p ∉ fs (remove_if_exists E (Some p) w).
Proof.
  intros Hne Hok. unfold remove_if_exists.
  rewrite (bool_decide_eq_false_2 (p = "")) by done. simpl.
  destruct (bool_decide (p ∈ fs w)) eqn:Hin.
  - rewrite Hok. unfold delete_file; simpl.
    intros [_ Hn]%elem_of_difference. apply Hn. by apply elem_of_singleton.
  - by apply bool_decide_eq_false in Hin.
Qed.

Lemma isabs_not_url (p : string) :
  PyStr.isabs p = true -> PyStr.is_url p = false ∧ p ≠ "".
Proof.
  destruct p as [|c p]; [discriminate|].
  unfold PyStr.isabs, PyStr.is_url, PyStr.startswith.
  destruct c as [[] [] [] [] [] [] [] []]; simpl; try discriminate.
  intros _. split; [reflexivity|discriminate].
Qed.

(** The preparation of the media never raises and is quiet. *)
Lemma prepare_media_spec (E : env) (ptype : string) (post_cfg : post)
    (f : frame) (w : world) :
  exists r f' w', prepare_media E ptype post_cfg (f, w) = (Returns r, (f', w'))
    ∧ quiet w w'.
Proof.
  unfold prepare_media. destruct (requires_media ptype);
    [|run; eexists _, _, _; split; [reflexivity|apply quiet_refl]].
  destruct (download_if_url_spec E (media post_cfg) w) as (mp & w1 & Hd & Hq1).
  run. rewrite Hd.
  destruct (PyStr.falsy mp); run.
  { eexists _, _, _; split; [reflexivity|].
    eapply quiet_trans; [exact Hq1|apply quiet_change]. }
  destruct (PyStr.isabs (default "" mp)); simpl.
  all: destruct (decide (ptype = "photo"));
    [destruct (convert_image_spec E (default "" mp) w1) as (c & w2 & -> & Hq2);
     eexists _, _, _; split; [reflexivity|by eapply quiet_trans]|].
  all: destruct (decide (ptype = "video"));
    [destruct (convert_video_spec E (default "" mp) w1) as (c & w2 & -> & Hq2);
     eexists _, _, _; split; [reflexivity|by eapply quiet_trans]|].
  all: eexists _, _, _; split; [reflexivity|done].
Qed.

(** Without media the preparation stops, with the locals as they were. *)
Lemma prepare_media_none (E : env) (ptype : string) (post_cfg : post)
    (f : frame) (w : world) :
  requires_media ptype = true ->
  (_download_if_url E (media post_cfg) w).1 = Returns None ->
  exists w', prepare_media E ptype post_cfg (f, w) = (Returns None, (f, w'))
    ∧ quiet w w'.
Proof.
  intros Hreq Hnone. unfold prepare_media. rewrite Hreq.
  destruct (download_if_url_spec E (media post_cfg) w) as (mp & w1 & Hd & Hq1).
  rewrite Hd in Hnone. simpl in Hnone. injection Hnone as ->.
  run. rewrite Hd. simpl.
  eexists. split; [reflexivity|].
  eapply quiet_trans; [exact Hq1|apply quiet_change].
Qed.

(** When the fetch gives an absolute path, the preparation goes through and
    [temp_path] holds that path. *)
Lemma prepare_media_fetched (E : env) (ptype : string) (post_cfg : post)
    (p : string) (w w1 : world) :
  requires_media ptype = true ->
  _download_if_url E (media post_cfg) w = (Returns (Some p), w1) ->
  PyStr.isabs p = true ->
  exists mp f' w',
    prepare_media E ptype post_cfg (Frame None None, w)
    = (Returns (Some mp), (f', w'))
    ∧ temp_path f' = Some p.
Proof.
  intros Hreq Hd Habs. unfold prepare_media. rewrite Hreq.
  destruct (isabs_not_url p Habs) as [Hurl Hne].
  run. rewrite Hd. simpl.
  rewrite (bool_decide_eq_false_2 (p = "")) by done. rewrite Habs. simpl.
  destruct (decide (ptype = "photo"));
    [destruct (convert_image_spec E p w1) as (c & w2 & -> & Hq2);
     by eexists _, _, _|].
  destruct (decide (ptype = "video"));
    [destruct (convert_video_spec E p w1) as (c & w2 & -> & Hq2);
     by eexists _, _, _|].
  by eexists _, _, _.
Qed.

(** The sending makes one publishing call and passes its answer on. *)
Lemma send_by_type_spec (E : env) (ptype : string) (chat_id : Z)
    (mp : option string) (txt : string) (mk : markup) (w : world) :
  exists c, is_send c = true
    ∧ send_by_type E ptype chat_id mp txt mk w
      = (client E w c, World (fs w) (log w) (calls w ++ [(c, client E w c)]) (ledger w)).
Proof.
  unfold send_by_type.
  repeat (destruct (decide _)); unfold call; eexists; split; try reflexivity;
    reflexivity.
Qed.

(** The evaluation of [_send_autopost_to_chat], path by path. *)
Lemma send_autopost_unresolved (E : env) (ref : chat_ref) (post_cfg : post)
    (w w1 : world) :
  _resolve_chat_id E ref w = (Returns None, w1) ->
  _send_autopost_to_chat E ref post_cfg w
  = (Returns None,
     World (fs w1) (log w1 ++ [WarnAutopostResolveKO ref]) (calls w1) (ledger w1)).
Proof. intros H. unfold _send_autopost_to_chat. run. by rewrite H. Qed.

Lemma send_autopost_no_media (E : env) (ref : chat_ref) (post_cfg : post)
    (w w1 w2 : world) (chat_id : Z) (f : frame) :
  _resolve_chat_id E ref w = (Returns (Some chat_id), w1) ->
  prepare_media E (post_type post_cfg) post_cfg (Frame None None, w1)
  = (Returns None, (f, w2)) ->
  _send_autopost_to_chat E ref post_cfg w
  = (Returns None, cleanup_world E f w2).
Proof.
  intros H1 H2. unfold _send_autopost_to_chat, cleanup. run.
  rewrite H1. by rewrite H2.
Qed.

Lemma send_autopost_sent (E : env) (ref : chat_ref) (post_cfg : post)
    (w w1 w2 w3 : world) (chat_id m : Z) (f : frame) (mp : option string) :
  _resolve_chat_id E ref w = (Returns (Some chat_id), w1) ->
  prepare_media E (post_type post_cfg) post_cfg (Frame None None, w1)
  = (Returns (Some mp), (f, w2)) ->
  send_by_type E (post_type post_cfg) chat_id mp
    (PyStr.str_or (default "" (text post_cfg)) "") (_kb (buttons post_cfg)) w2
  = (Returns m, w3) ->
  _send_autopost_to_chat E ref post_cfg w
  = (Returns (Some m), cleanup_world E f w3).
Proof.
  intros H1 H2 H3. unfold _send_autopost_to_chat, cleanup. run.
  rewrite H1. rewrite H2. by rewrite H3.
Qed.

Lemma send_autopost_failed (E : env) (ref : chat_ref) (post_cfg : post)
    (w w1 w2 w3 : world) (chat_id : Z) (e : exn) (f : frame)
    (mp : option string) :
  _resolve_chat_id E ref w = (Returns (Some chat_id), w1) ->
  prepare_media E (post_type post_cfg) post_cfg (Frame None None, w1)
  = (Returns (Some mp), (f, w2)) ->
  send_by_type E (post_type post_cfg) chat_id mp
    (PyStr.str_or (default "" (text post_cfg)) "") (_kb (buttons post_cfg)) w2
  = (Raises e, w3) ->
  _send_autopost_to_chat E ref post_cfg w
  = (Returns None,
     cleanup_world E f
       (World (fs w3) (log w3 ++ [error_record chat_id e]) (calls w3) (ledger w3))).
Proof.
  intros H1 H2 H3. unfold _send_autopost_to_chat, cleanup, on_error. run.
  rewrite H1. rewrite H2. by rewrite H3.
Qed.

(** What a run of the delivery unit amounts to: it never raises and never
    touches the ledger; after at most one lookup call [pre], either nothing
    is published and the result is [None], or one publishing call is made
    and answered with the message id that is returned, or one publishing
    call is made, raises, is logged, and the result is [None]. *)
Lemma send_autopost_summary (E : env) (ref : chat_ref) (post_cfg : post)
    (w : world) :
  let r := (_send_autopost_to_chat E ref post_cfg w).1 in
  let w' := (_send_autopost_to_chat E ref post_cfg w).2 in
  exists pre lg,
    (pre = [] ∨ exists s o, ref = RefStr s ∧ pre = [(GetChat s, o)])
    ∧ ledger w' = ledger w
    ∧ ((r = Returns None ∧ calls w' = calls w ++ pre ∧ log w' = log w ++ lg)
       ∨ (exists c m, is_send c = true ∧ r = Returns (Some m)
            ∧ calls w' = calls w ++ pre ++ [(c, Returns m)]
            ∧ log w' = log w ++ lg)
       ∨ (exists c e chat, is_send c = true ∧ r = Returns None
            ∧ calls w' = calls w ++ pre ++ [(c, Raises e)]
            ∧ log w' = log w ++ lg ++ [error_record chat e])).
Proof.
  intros r w'. subst r w'.
  destruct (resolve_chat_id_spec E ref w)
    as (r1 & w1 & Hres & _ & Hled1 & [lg1 Hlog1] & Hcalls1).
  assert (exists pre, calls w1 = calls w ++ pre
            ∧ (pre = [] ∨ exists s o, ref = RefStr s ∧ pre = [(GetChat s, o)]))
    as (pre & Hc1 & Hpre).
  { destruct Hcalls1 as [Heq|(s & o & -> & Heq)].
    - exists []. rewrite app_nil_r. auto.
    - exists [(GetChat s, o)]. split; [done|]. right. eauto. }
  exists pre. destruct r1 as [chat|].
  - destruct (prepare_media_spec E (post_type post_cfg) post_cfg
                (Frame None None) w1)
      as (rp & f & w2 & Hprep & Hc2 & Hled2 & [lg2 Hlog2]).
    destruct rp as [mp|].
    + destruct (send_by_type_spec E (post_type post_cfg) chat mp
                  (PyStr.str_or (default "" (text post_cfg)) "")
                  (_kb (buttons post_cfg)) w2) as (c & Hsend & Heq).
      destruct (client E w2 c) as [m|e] eqn:Hans.
      * rewrite (send_autopost_sent _ _ _ _ _ _ _ _ _ _ _ Hres Hprep Heq).
        simpl. destruct (cleanup_world_frame E f
          (World (fs w2) (log w2) (calls w2 ++ [(c, Returns m)]) (ledger w2)))
          as (HL & HC & HD & _). simpl in *.
        exists (lg1 ++ lg2). split; [done|]. split; [congruence|].
        right. left. exists c, m. repeat split; [done|..].
        -- rewrite HC, Hc2, Hc1. by rewrite app_assoc.
        -- rewrite HL, Hlog2, Hlog1. by rewrite app_assoc.
      * rewrite (send_autopost_failed _ _ _ _ _ _ _ _ _ _ _ Hres Hprep Heq).
        simpl. destruct (cleanup_world_frame E f
          (World (fs w2) (log w2 ++ [error_record chat e])
             (calls w2 ++ [(c, Raises e)]) (ledger w2)))
          as (HL & HC & HD & _). simpl in *.
        exists (lg1 ++ lg2). split; [done|]. split; [congruence|].
        right. right. exists c, e, chat. repeat split; [done|..].
        -- rewrite HC, Hc2, Hc1. by rewrite app_assoc.
        -- rewrite HL, Hlog2, Hlog1. by rewrite !app_assoc.
    + rewrite (send_autopost_no_media _ _ _ _ _ _ _ _ Hres Hprep). simpl.
      destruct (cleanup_world_frame E f w2) as (HL & HC & HD & _).
      exists (lg1 ++ lg2). split; [done|]. split; [congruence|].
      left. repeat split.
      * congruence.
      * rewrite HL, Hlog2, Hlog1. by rewrite app_assoc.
  - rewrite (send_autopost_unresolved _ _ _ _ _ Hres). simpl.
    exists (lg1 ++ [WarnAutopostResolveKO ref]).
    split; [done|]. split; [done|]. left. repeat split; [done|].
    rewrite Hlog1. by rewrite app_assoc.
Qed.

Lemma lookup_is_no_send (ref : chat_ref) pre :
  (pre = [] ∨ exists s o, ref = RefStr s ∧ pre = [(GetChat s, o)]) ->
  filter (fun ev : client_call * outcome Z => is_send ev.1 = true) pre = []
  ∧ forall c o, (c, o) ∈ pre -> is_send c = false.
Proof.
  intros [->|(s & o & _ & ->)].
  - split; [done|]. by intros c o ?%elem_of_nil.
  - split; [done|]. intros c o' Hin%list_elem_of_singleton. by inversion Hin.
Qed.

(** The delivery unit never raises. *)
Lemma send_autopost_never_raises (E : env) (ref : chat_ref) (post_cfg : post)
    (w : world) :
  exists v, (_send_autopost_to_chat E ref post_cfg w).1 = Returns v.
Proof.
  destruct (send_autopost_summary E ref post_cfg w)
    as (pre & lg & _ & _ & [(-> & _)|[(c & m & _ & -> & _)|(c & e & ch & _ & -> & _)]]);
    eauto.
Qed.

(** The delivery unit never touches the ledger. *)
Lemma send_autopost_ledger (E : env) (ref : chat_ref) (post_cfg : post)
    (w : world) :
  ledger (_send_autopost_to_chat E ref post_cfg w).2 = ledger w.
Proof.
  by destruct (send_autopost_summary E ref post_cfg w) as (pre & lg & _ & ? & _).
Qed.

(** C5: when a publishing call of a delivery raises, whatever the
    exception, the delivery returns [None] (it does not raise), that call is
    the only publishing call of the delivery, and the last record the
    delivery logs is the warning for that exception. *)
Theorem send_failure_is_contained (E : env) (ref : chat_ref) (post_cfg : post)
    (w : world) (c : client_call) (e : exn) :
  is_send c = true ->
  (c, Raises e) ∈ new_calls w (_send_autopost_to_chat E ref post_cfg w).2 ->
  (_send_autopost_to_chat E ref post_cfg w).1 = Returns None
  ∧ filter (fun ev => is_send ev.1 = true)
      (new_calls w (_send_autopost_to_chat E ref post_cfg w).2)
    = [(c, Raises e)]
  ∧ exists chat,
      last (new_log w (_send_autopost_to_chat E ref post_cfg w).2)
      = Some (error_record chat e).
Proof.
  intros Hsend Hin.
  destruct (send_autopost_summary E ref post_cfg w)
    as (pre & lg & Hpre & _ & Hcases).
  destruct (lookup_is_no_send ref pre Hpre) as [Hfilter Hnosend].
  destruct Hcases as [(Hr & Hc & Hl)|[(c' & m & Hs' & Hr & Hc & Hl)
                                     |(c' & e' & chat & Hs' & Hr & Hc & Hl)]].
  - rewrite (new_calls_app _ _ _ Hc) in Hin.
    apply Hnosend in Hin. congruence.
  - rewrite (new_calls_app _ _ _ Hc) in Hin.
    apply elem_of_app in Hin as [Hin|Hin%list_elem_of_singleton].
    + apply Hnosend in Hin. congruence.
    + discriminate.
  - rewrite (new_calls_app _ _ _ Hc) in Hin |- *.
    rewrite (new_log_app _ _ _ Hl).
    apply elem_of_app in Hin as [Hin|Hin%list_elem_of_singleton].
    { apply Hnosend in Hin. congruence. }
    injection Hin as -> ->.
    split; [done|]. split.
    + rewrite filter_app, Hfilter. simpl.
      rewrite filter_cons. simpl. destruct (decide _); [done|congruence].
    + exists chat. by rewrite last_snoc.
Qed.

(** A delivery of [post4] to ["@mychannel"] through a client that has no
    right to publish there. *)
Lemma send_failure_is_contained_witness :
  let E := Scenarios.env_with Scenarios.no_rights_client Scenarios.picture_server in
  let run := _send_autopost_to_chat E (RefStr "@mychannel") Scenarios.post4
               Scenarios.empty_world in
  run.1 = Returns None
  ∧ new_log Scenarios.empty_world run.2 = [WarnNoRights (-1001234)]
  ∧ filter (fun ev => is_send ev.1 = true) (new_calls Scenarios.empty_world run.2)
    = [(SendPhoto (-1001234) (Some "/tmp/ap_dl_k3x9.jpg")
          (Some "Ne me fait pas attendre...") None, Raises ChatAdminRequired)].
Proof.
  intros E run.
  assert (Hin : (SendPhoto (-1001234) (Some "/tmp/ap_dl_k3x9.jpg")
                   (Some "Ne me fait pas attendre...") None,
                 Raises ChatAdminRequired)
                ∈ new_calls Scenarios.empty_world run.2).
  { vm_compute. right. left. }
  destruct (send_failure_is_contained E (RefStr "@mychannel") Scenarios.post4
              Scenarios.empty_world
              (SendPhoto (-1001234) (Some "/tmp/ap_dl_k3x9.jpg")
                 (Some "Ne me fait pas attendre...") None)
              ChatAdminRequired eq_refl Hin) as (Hr & Hf & _).
  split; [exact Hr|]. split; [reflexivity|exact Hf].
Defined.

(** C7, as stated, fails for a channel given by name: the media fetch
    gives nothing, the delivery returns [None], and yet the client has
    been called, once, to look the channel up. *)
Lemma delivery_without_media_calls_client :
  let E := Scenarios.env_with Scenarios.obliging_client Scenarios.server_down in
  let post_cfg := Scenarios.photo_post_without_media in
  let w := Scenarios.empty_world in
  let run := _send_autopost_to_chat E (RefStr "@mychannel") post_cfg w in
  requires_media (post_type post_cfg) = true
  ∧ (_download_if_url E (media post_cfg)
       (_resolve_chat_id E (RefStr "@mychannel") w).2).1 = Returns None
  ∧ run.1 = Returns None
  ∧ new_calls w run.2 = [(GetChat "@mychannel", Returns (-1001234))]
  ∧ new_calls w run.2 ≠ [].
Proof. repeat split; try reflexivity. discriminate. Qed.

(** C7 (amended): when the kind of the post requires media and the fetch
    gives [None], the delivery returns [None] and makes no publishing call;
    the only call it can have made on the client is the lookup of a channel
    given by name, before the fetch. For a numeric channel reference the
    client is not called at all. *)
Theorem no_media_no_send (E : env) (ref : chat_ref) (post_cfg : post) (w : world) :
  requires_media (post_type post_cfg) = true ->
  (_download_if_url E (media post_cfg) (_resolve_chat_id E ref w).2).1
  = Returns None ->
  (_send_autopost_to_chat E ref post_cfg w).1 = Returns None
  ∧ filter (fun ev => is_send ev.1 = true)
      (new_calls w (_send_autopost_to_chat E ref post_cfg w).2) = []
  ∧ (new_calls w (_send_autopost_to_chat E ref post_cfg w).2 = []
     ∨ exists s o, ref = RefStr s
         ∧ new_calls w (_send_autopost_to_chat E ref post_cfg w).2
           = [(GetChat s, o)])
  ∧ (forall n, ref = RefInt n ->
       calls (_send_autopost_to_chat E ref post_cfg w).2 = calls w).
Proof.
  intros Hreq Hnone.
  destruct (resolve_chat_id_spec E ref w)
    as (r1 & w1 & Hres & _ & _ & _ & Hcalls1).
  rewrite Hres in Hnone. simpl in Hnone.
  assert (calls (_send_autopost_to_chat E ref post_cfg w).2 = calls w1
          ∧ (_send_autopost_to_chat E ref post_cfg w).1 = Returns None)
    as [Hc Hr].
  { destruct r1 as [chat|].
    - destruct (prepare_media_none E _ post_cfg (Frame None None) w1 Hreq Hnone)
        as (w2 & Hprep & Hc2 & _).
      rewrite (send_autopost_no_media _ _ _ _ _ _ _ _ Hres Hprep). simpl.
      destruct (cleanup_world_frame E (Frame None None) w2) as (_ & HC & _).
      split; [congruence|done].
    - by rewrite (send_autopost_unresolved _ _ _ _ _ Hres). }
  split; [done|].
  destruct Hcalls1 as [Heq|(s & o & -> & Heq)].
  - assert (new_calls w (_send_autopost_to_chat E ref post_cfg w).2 = []) as Hn.
    { apply new_calls_app. rewrite app_nil_r. congruence. }
    rewrite Hn. split; [done|]. split; [by left|]. intros; congruence.
  - assert (new_calls w (_send_autopost_to_chat E (RefStr s) post_cfg w).2
            = [(GetChat s, o)]) as Hn.
    { apply new_calls_app. congruence. }
    rewrite Hn. split; [done|]. split; [right; eauto|]. intros; discriminate.
Qed.

Lemma no_media_no_send_witness :
  let E := Scenarios.env_with Scenarios.obliging_client Scenarios.error_page_server in
  let run := _send_autopost_to_chat E (RefInt (-1001234)) Scenarios.post4
               Scenarios.empty_world in
  run.1 = Returns None ∧ calls run.2 = [].
Proof.
  intros E run.
  destruct (no_media_no_send E (RefInt (-1001234)) Scenarios.post4
              Scenarios.empty_world eq_refl eq_refl) as (Hr & _ & _ & Hint).
  split; [exact Hr|]. exact (Hint _ eq_refl).
Defined.

(** Once the channel is resolved and the fetch has given an absolute path,
    the file at that path is gone when the delivery returns, sent or not,
    if the operating system lets it be removed. *)
Lemma fetched_file_removed (E : env) (ref : chat_ref) (post_cfg : post)
    (w w1 w2 : world) (p : string) (chat : Z) :
  requires_media (post_type post_cfg) = true ->
  _resolve_chat_id E ref w = (Returns (Some chat), w1) ->
  _download_if_url E (media post_cfg) w1 = (Returns (Some p), w2) ->
  PyStr.isabs p = true ->
  (forall w0, os_remove_ok E w0 p = true) ->
  p ∉ fs (_send_autopost_to_chat E ref post_cfg w).2.
Proof.
  intros Hreq Hres Hd Habs Hok.
  destruct (isabs_not_url p Habs) as [_ Hne].
  destruct (prepare_media_fetched E _ post_cfg p w1 w2 Hreq Hd Habs)
    as (mp & f & w3 & Hprep & Htemp).
  destruct (send_by_type_spec E (post_type post_cfg) chat mp
              (PyStr.str_or (default "" (text post_cfg)) "")
              (_kb (buttons post_cfg)) w3) as (c & _ & Heq).
  destruct (client E w3 c) as [m|e] eqn:Hans.
  - rewrite (send_autopost_sent _ _ _ _ _ _ _ _ _ _ _ Hres Hprep Heq). simpl.
    unfold cleanup_world. rewrite Htemp. by apply remove_if_exists_gone.
  - rewrite (send_autopost_failed _ _ _ _ _ _ _ _ _ _ _ Hres Hprep Heq). simpl.
    unfold cleanup_world. rewrite Htemp. by apply remove_if_exists_gone.
Qed.

(** C9, as stated, fails when the channel cannot be resolved: the delivery
    returns [None] before it looks at the media, and the local file is still
    on disk. *)
Lemma unresolved_channel_keeps_local_file :
  let E := Scenarios.env_with Scenarios.no_such_chat_client Scenarios.server_down in
  let post_cfg := Scenarios.local_photo_post in
  let w := Scenarios.world_with_picture in
  let run := _send_autopost_to_chat E (RefStr "@gone") post_cfg w in
  requires_media (post_type post_cfg) = true
  ∧ media post_cfg = Some "/data/pic.jpg"
  ∧ PyStr.isabs "/data/pic.jpg" = true
  ∧ "/data/pic.jpg" ∈ fs w
  ∧ run.1 = Returns None
  ∧ "/data/pic.jpg" ∈ fs run.2.
Proof.
  repeat split; try reflexivity; apply (bool_decide_unpack _); vm_compute;
    exact I.
Qed.

(** C9 (amended): when the kind of the post requires media, the media
    reference is an absolute local path, the channel reference resolves and
    the operating system lets the file be removed, the file at that path is
    not on disk when the delivery returns, whether the publication went
    through or raised. *)
Theorem local_media_file_is_deleted (E : env) (ref : chat_ref) (post_cfg : post)
    (w : world) (p : string) (chat : Z) :
  requires_media (post_type post_cfg) = true ->
  media post_cfg = Some p ->
  PyStr.isabs p = true ->
  (_resolve_chat_id E ref w).1 = Returns (Some chat) ->
  (forall w0, os_remove_ok E w0 p = true) ->
  p ∉ fs (_send_autopost_to_chat E ref post_cfg w).2.
Proof.
  intros Hreq Hmedia Habs Hres Hok.
  destruct (_resolve_chat_id E ref w) as [r1 w1] eqn:Hr. simpl in Hres. subst r1.
  destruct (isabs_not_url p Habs) as [Hurl Hne].
  eapply fetched_file_removed; eauto.
  rewrite Hmedia. by apply download_if_url_local.
Qed.

(** The local picture of [local_photo_post] is sent to the channel -1001234
    and is gone afterwards. *)
Lemma local_media_file_is_deleted_witness :
  let E := Scenarios.env_with Scenarios.obliging_client Scenarios.server_down in
  let w := Scenarios.world_with_picture in
  let run := _send_autopost_to_chat E (RefInt (-1001234))
               Scenarios.local_photo_post w in
  "/data/pic.jpg" ∈ fs w ∧ run.1 = Returns (Some 42) ∧ "/data/pic.jpg" ∉ fs run.2.
Proof.
  intros E w run. split; [|split].
  - apply (bool_decide_unpack _). vm_compute. exact I.
  - reflexivity.
  - exact (local_media_file_is_deleted E (RefInt (-1001234))
             Scenarios.local_photo_post w "/data/pic.jpg" (-1001234)
             eq_refl eq_refl eq_refl eq_refl (fun _ => eq_refl)).
Defined.

(** The same file, when the client refuses the publication: gone as well. *)
Example local_media_file_is_deleted_on_failure :
  let E := Scenarios.env_with Scenarios.no_rights_client Scenarios.server_down in
  let run := _send_autopost_to_chat E (RefInt (-1001234))
               Scenarios.local_photo_post Scenarios.world_with_picture in
  run.1 = Returns None ∧ "/data/pic.jpg" ∉ fs run.2.
Proof.
  split; [reflexivity|]. apply (bool_decide_unpack _). vm_compute. exact I.
Qed.

(** A file that was downloaded is removed as well, on the same
    conditions. *)
Example downloaded_file_is_deleted :
  let E := Scenarios.env_with Scenarios.obliging_client Scenarios.picture_server in
  let run := _send_autopost_to_chat E (RefInt (-1001234)) Scenarios.post4
               Scenarios.empty_world in
  run.1 = Returns (Some 42) ∧ fs run.2 = ∅.
Proof.
  split; [reflexivity|]. apply (bool_decide_unpack _). vm_compute. exact I.
Qed.

(** *** Where the cleanup is complete

    The conditions under which a delivery leaves no new file on disk. *)

Section NoLeak.
Variable E : env.
(** A download that starts goes through and is at least 1024 bytes. *)
Hypothesis complete_downloads :
  forall w s resp, urlopen E w s = Some resp ->
    exists n, body_length resp = Some n ∧ (n <? 1024) = false.
(** Temporary files get absolute paths. *)
Hypothesis absolute_temp :
  forall w a b p, mkstemp E w a b = Some p -> PyStr.isabs p = true.
(** A conversion that fails leaves no partial output. *)
Hypothesis clean_pil : forall w a b, pil_save E w a b ≠ WriteFailed true.
Hypothesis clean_ffmpeg : forall w a b, ffmpeg_run E w a b ≠ WriteFailed true.
(** The operating system lets every file be removed. *)
Hypothesis removable : forall w p, os_remove_ok E w p = true.

Lemma download_fs (u : option string) (w : world) :
  exists r w', _download_if_url E u w = (Returns r, w')
    ∧ ((r = None ∧ fs w' = fs w)
       ∨ exists p, r = Some p ∧ p ≠ ""
           ∧ (fs w' = fs w ∨ (fs w' = {[p]} ∪ fs w ∧ PyStr.isabs p = true))).
Proof.
  unfold _download_if_url. destruct (PyStr.falsy u) eqn:Hf; run.
  { eexists _, _. split; [reflexivity|]. by left. }
  destruct (negb _); run.
  { eexists _, _. split; [reflexivity|]. right.
    destruct u as [s|]; [|done]. simpl in *.
    apply bool_decide_eq_false in Hf. eauto. }
  unfold download_to_temp.
  destruct (urlopen E w _) as [resp|] eqn:Hopen; run;
    [|eexists _, _; split; [reflexivity|]; by left].
  destruct (complete_downloads _ _ _ Hopen) as (n & Hn & Hbig).
  destruct (mkstemp E w _ _) as [tp|] eqn:Htp; run;
    [|eexists _, _; split; [reflexivity|]; by left].
  rewrite Hn. run. rewrite Hbig.
  eexists _, _. split; [reflexivity|]. right. exists tp.
  pose proof (absolute_temp _ _ _ _ Htp) as Habs.
  destruct (isabs_not_url tp Habs) as [_ Hne]. simpl. eauto.
Qed.

Lemma append_nonempty (a b : string) : b ≠ "" -> a +:+ b ≠ "".
Proof. destruct a; [done|discriminate]. Qed.

Lemma convert_image_fs (path : string) (w : world) :
  path ≠ "" ->
  exists c w', _convert_image_if_needed E path w = (Returns c, w')
    ∧ c ≠ "" ∧ fs w' ⊆ {[c]} ∪ fs w.
Proof.
  intros Hne. unfold _convert_image_if_needed. run.
  destruct (image_open E w path) as [im|]; run;
    [|eexists _, _; split; [reflexivity|]; split; [done|apply union_subseteq_r]].
  destruct (bool_decide (_ ∈ problematic)).
  - destruct (_ && _);
      [eexists _, _; split; [reflexivity|]; split; [done|apply union_subseteq_r]|].
    pose proof (clean_pil w path (PyStr.rsplit_dot_head path +:+ ".jpg")).
    destruct (pil_save E w path _) as [|[|]]; run; [|done|];
      eexists _, _; (split; [reflexivity|]); simpl;
      (split; [by (done || apply append_nonempty)|]);
      [done|apply union_subseteq_r].
  - destruct (size im) as [wd ht]. destruct (max_side <? _);
      [|eexists _, _; split; [reflexivity|]; split; [done|apply union_subseteq_r]].
    pose proof (clean_pil w path (PyStr.rsplit_dot_head path +:+ "_tg.jpg")).
    destruct (pil_save E w path _) as [|[|]]; run; [|done|];
      eexists _, _; (split; [reflexivity|]); simpl;
      (split; [by (done || apply append_nonempty)|]);
      [done|apply union_subseteq_r].
Qed.

Lemma convert_video_fs (path : string) (w : world) :
  path ≠ "" ->
  exists c w', _convert_video_if_needed E path w = (Returns c, w')
    ∧ c ≠ "" ∧ fs w' ⊆ {[c]} ∪ fs w.
Proof.
  intros Hne. unfold _convert_video_if_needed.
  destruct (negb _);
    [eexists _, _; split; [reflexivity|]; split; [done|apply union_subseteq_r]|].
  run.
  pose proof (clean_ffmpeg w path (PyStr.rsplit_dot_head path +:+ "_tg.mp4")).
  destruct (ffmpeg_run E w path _) as [|[|]]; run; [|done|];
    eexists _, _; (split; [reflexivity|]); simpl;
    (split; [by (done || apply append_nonempty)|]);
    [done|apply union_subseteq_r].
Qed.

(** Removal takes the path off the disk. *)
Lemma remove_if_exists_fs (p : string) (w : world) :
  p ≠ "" -> fs (remove_if_exists E (Some p) w) ⊆ fs w ∖ {[p]}.
Proof.
  intros Hne. unfold remove_if_exists.
  rewrite (bool_decide_eq_false_2 (p = "")) by done. simpl.
  destruct (bool_decide (p ∈ fs w)) eqn:Hin.
  - by rewrite removable.
  - apply bool_decide_eq_false in Hin. intros x Hx.
    apply elem_of_difference. split; [done|].
    intros ->%elem_of_singleton. done.
Qed.


Ltac by_elements :=
  let x := fresh "x" in
  intros x;
  repeat match goal with
         | H : _ ⊆ _ |- _ => specialize (H x)
         end;
  rewrite ?elem_of_difference, ?elem_of_union, ?elem_of_singleton,
    ?elem_of_empty in *;
  tauto.

Lemma remove_opt_fs (p : option string) (w : world) :
  (forall s, p = Some s -> s ≠ "") ->
  fs (remove_if_exists E p w) ⊆ fs w ∖ from_option singleton ∅ p.
Proof.
  intros Hne. destruct p as [s|]; simpl.
  - apply remove_if_exists_fs. by apply Hne.
  - intros x Hx. apply elem_of_difference. split; [done|].
    apply not_elem_of_empty.
Qed.

Lemma cleanup_world_fs (f : frame) (w : world) :
  (forall s, conv_path f = Some s -> s ≠ "") ->
  (forall s, temp_path f = Some s -> s ≠ "") ->
  fs (cleanup_world E f w)
  ⊆ (fs w ∖ from_option singleton ∅ (conv_path f))
      ∖ from_option singleton ∅ (temp_path f).
Proof.
  intros Hc Ht. unfold cleanup_world.
  etrans; [by apply remove_opt_fs|].
  apply difference_mono_r. by apply remove_opt_fs.
Qed.

(** After the preparation, the [finally] clause brings the disk back
    within what was there before. *)
Lemma prepare_media_fs (ptype : string) (post_cfg : post) (w : world) :
  exists r f w',
    prepare_media E ptype post_cfg (Frame None None, w) = (Returns r, (f, w'))
    ∧ forall w'', fs w'' = fs w' -> fs (cleanup_world E f w'') ⊆ fs w.
Proof.
  unfold prepare_media. destruct (requires_media ptype).
  2:{ run. eexists _, _, _. split; [reflexivity|]. intros w'' Hw''.
      unfold cleanup_world; simpl. by rewrite Hw''. }
  destruct (download_fs (media post_cfg) w) as (mp & w1 & Hd & Hcases).
  run. rewrite Hd.
  destruct Hcases as [[-> Hfs]|(p & -> & Hne & Hfs)]; simpl.
  { eexists _, _, _. split; [reflexivity|]. intros w'' Hw''.
    unfold cleanup_world; simpl. by rewrite Hw'', <- Hfs. }
  rewrite (bool_decide_eq_false_2 (p = "")) by done. simpl.
  assert (Hcreated : fs w1 = fs w ∨ PyStr.isabs p = true ∧ fs w1 = {[p]} ∪ fs w)
    by (destruct Hfs as [?|[? ?]]; auto).
  clear Hfs Hd.
  destruct (decide (ptype = "photo")) as [_|_]; [|destruct (decide (ptype = "video")) as [_|_]].
  - destruct (convert_image_fs p w1 Hne) as (c & w2 & Hconv & Hc & Hfs2).
    destruct (PyStr.isabs p) eqn:Habs; simpl; rewrite Hconv; simpl;
      eexists _, _, _; (split; [reflexivity|]); intros w'' Hw'';
      (etrans; [apply cleanup_world_fs; simpl; congruence|]); simpl;
      rewrite Hw''; destruct Hcreated as [Hf|[? Hf]]; try done;
      rewrite Hf in Hfs2; by_elements.
  - destruct (convert_video_fs p w1 Hne) as (c & w2 & Hconv & Hc & Hfs2).
    destruct (PyStr.isabs p) eqn:Habs; simpl; rewrite Hconv; simpl;
      eexists _, _, _; (split; [reflexivity|]); intros w'' Hw'';
      (etrans; [apply cleanup_world_fs; simpl; congruence|]); simpl;
      rewrite Hw''; destruct Hcreated as [Hf|[? Hf]]; try done;
      rewrite Hf in Hfs2; by_elements.
  - destruct (PyStr.isabs p) eqn:Habs; simpl;
      eexists _, _, _; (split; [reflexivity|]); intros w'' Hw'';
      (etrans; [apply cleanup_world_fs; simpl; congruence|]); simpl;
      rewrite Hw''; destruct Hcreated as [Hf|[? Hf]]; try done;
      rewrite Hf; by_elements.
Qed.

(** Under these conditions a delivery leaves no new file on disk. *)
Lemma send_autopost_leaves_no_file (ref : chat_ref) (post_cfg : post) (w : world) :
  fs (_send_autopost_to_chat E ref post_cfg w).2 ⊆ fs w.
Proof.
  destruct (resolve_chat_id_spec E ref w) as (r1 & w1 & Hres & Hfs1 & _).
  destruct r1 as [chat|];
    [|rewrite (send_autopost_unresolved _ _ _ _ _ Hres); simpl; by rewrite Hfs1].
  destruct (prepare_media_fs (post_type post_cfg) post_cfg w1)
    as (rp & f & w2 & Hprep & Hclean).
  rewrite <- Hfs1. destruct rp as [mp|].
  - destruct (send_by_type_spec E (post_type post_cfg) chat mp
                (PyStr.str_or (default "" (text post_cfg)) "")
                (_kb (buttons post_cfg)) w2) as (c & _ & Heq).
    destruct (client E w2 c) as [m|e] eqn:Hans.
    + rewrite (send_autopost_sent _ _ _ _ _ _ _ _ _ _ _ Hres Hprep Heq).
      by apply Hclean.
    + rewrite (send_autopost_failed _ _ _ _ _ _ _ _ _ _ _ Hres Hprep Heq).
      by apply Hclean.
  - rewrite (send_autopost_no_media _ _ _ _ _ _ _ _ Hres Hprep).
    by apply Hclean.
Qed.

End NoLeak.

(** C6 fails on the code when the download is too small. The server
    answers the URL of [post4] with a 200-byte page: [_download_if_url]
    creates the temporary file, writes the page into it, finds it shorter
    than 1024 bytes and returns [None] without removing it; [temp_path] was
    never set, so the [finally] clause has nothing to remove either. The
    delivery returns [None] and the temporary file is still on disk. *)
Theorem small_download_leaves_temp_file :
  let E := Scenarios.env_with Scenarios.obliging_client Scenarios.error_page_server in
  let w := Scenarios.empty_world in
  let run := _send_autopost_to_chat E (RefInt (-1001234)) Scenarios.post4 w in
  ("/tmp/ap_dl_k3x9.jpg" ∉ fs w)
  ∧ run.1 = Returns None
  ∧ new_log w run.2
    = [WarnDownloadTooSmall
         "http://my-privatelink.com/wp-content/uploads/2025/12/IMG_7602.jpg";
       WarnMediaNotFound "post4"]
  ∧ "/tmp/ap_dl_k3x9.jpg" ∈ fs run.2.
Proof.
  repeat split; try reflexivity; apply (bool_decide_unpack _); vm_compute;
    exact I.
Qed.

End BotProps.

(** ** The workers *)

Module WorkerProps.
Import Bot BotProps.

Lemma int_seconds_exact (s : Z) :
  Clock.int_seconds (s * Clock.us_per_second) = s.
Proof.
  unfold Clock.int_seconds, Clock.us_per_second. by rewrite Z.quot_mul.
Qed.

(** In a zone without clock changes, the deletion time is the clock reading
    plus the retention period of [AUTO_DELETE_AFTER_DAYS] days of 86400
    seconds, cut to whole seconds. *)
Lemma delete_at_from_fixed_zone (E : env) (off t : Z) :
  TIMEZONE E = Clock.fixed_zone off ->
  delete_at_from E t
  = Clock.int_seconds (t + AUTO_DELETE_AFTER_DAYS E * Clock.us_per_day).
Proof.
  intros Htz. unfold delete_at_from. rewrite Htz. f_equal.
  unfold Clock.timestamp, Clock.datetime_now. simpl.
  pose proof (ClockProps.wall_us_of_wall (t + off) false) as Hw.
  revert Hw. unfold Clock.wall_us, Clock.add_days. simpl. lia.
Qed.

(** In any zone, it is the instant at which the local clock shows the
    reading of now moved [AUTO_DELETE_AFTER_DAYS] days ahead; this is the
    retention period later in elapsed time when the offset from UTC the zone
    gives that reading is the offset in force now. *)
Lemma delete_at_from_same_offset (E : env) (t : Z) :
  let tz := TIMEZONE E in
  Clock.utcoffset tz
    (Clock.add_days (Clock.datetime_now tz t) (AUTO_DELETE_AFTER_DAYS E))
  = Clock.offset_at tz t ->
  delete_at_from E t
  = Clock.int_seconds (t + AUTO_DELETE_AFTER_DAYS E * Clock.us_per_day).
Proof.
  intros tz Hoff. unfold delete_at_from. fold tz. f_equal.
  unfold Clock.timestamp. rewrite Hoff.
  unfold Clock.offset_at, Clock.datetime_now, Clock.wall_us, Clock.add_days.
  simpl. lia.
Qed.

(** C1, as stated, fails when the channel is given by name and its second
    lookup, made after the delivery to find the channel id for the ledger,
    fails: the delivery has returned the message id 42, and no row is
    written. In a firing over the two channels of the configuration both
    deliveries succeed and one row is written. *)
Lemma delivered_but_not_scheduled :
  let E := Scenarios.env_with Scenarios.flaky_lookup_client Scenarios.server_down in
  let w := Scenarios.empty_world in
  (_send_autopost_to_chat E (RefStr "@mychannel") Scenarios.post1 w).1
  = Returns (Some 42)
  ∧ Ledger.rows (ledger (post_to_channel E Scenarios.post1 (RefStr "@mychannel") w).2)
    = Ledger.rows (ledger w)
  ∧ length (sends (autopost_fire E Scenarios.post1 w).2) = 2%nat
  ∧ length (Ledger.rows (ledger (autopost_fire E Scenarios.post1 w).2)) = 1%nat.
Proof. repeat split; reflexivity. Qed.

(** A turn of the loop after a delivery that returned a message id. *)
Lemma post_to_channel_after_delivery (E : env) (post_cfg : post)
    (ref : chat_ref) (w w1 w2 : world) (m c : Z) :
  _send_autopost_to_chat E ref post_cfg w = (Returns (Some m), w1) ->
  m ≠ 0 ->
  _resolve_chat_id E ref w1 = (Returns (Some c), w2) ->
  post_to_channel E post_cfg ref w
  = (Returns 1,
     World (fs w2) (log w2) (calls w2)
       (Ledger.db_schedule_deletion c m (delete_at_from E (clock E w1))
          (ledger w2))).
Proof.
  intros Hsend Hm Hres.
  unfold post_to_channel, schedule_deletion, with_ledger. run.
  rewrite Hsend. simpl.
  destruct (Z.eqb_spec m 0) as [?|_]; [done|]. simpl.
  by rewrite Hres.
Qed.

(** C1 (amended): when a delivery returns a message id other than 0 and the
    channel reference resolves again after the delivery, the turn of the
    loop adds exactly one row to the ledger, at its end, with a fresh row
    id, the resolved channel, the message id, and as deletion time the
    whole-second Unix time of the local clock reading taken right after the
    delivery, moved [AUTO_DELETE_AFTER_DAYS] days ahead; the turn counts as
    sent. Where the zone gives that later reading the offset from UTC in
    force at the delivery, the deletion time is the delivery time plus
    [AUTO_DELETE_AFTER_DAYS] times 86400 seconds, cut to whole seconds. *)
Theorem successful_delivery_schedules_deletion (E : env) (post_cfg : post)
    (ref : chat_ref) (w w1 w2 : world) (m c : Z) :
  _send_autopost_to_chat E ref post_cfg w = (Returns (Some m), w1) ->
  m ≠ 0 ->
  _resolve_chat_id E ref w1 = (Returns (Some c), w2) ->
  (post_to_channel E post_cfg ref w).1 = Returns 1
  ∧ Ledger.rows (ledger (post_to_channel E post_cfg ref w).2)
    = Ledger.rows (ledger w)
      ++ [Ledger.Deletion (Ledger.next_id (ledger w)) c m
            (delete_at_from E (clock E w1))]
  ∧ (Clock.utcoffset (TIMEZONE E)
       (Clock.add_days (Clock.datetime_now (TIMEZONE E) (clock E w1))
          (AUTO_DELETE_AFTER_DAYS E))
     = Clock.offset_at (TIMEZONE E) (clock E w1) ->
     delete_at_from E (clock E w1)
     = Clock.int_seconds
         (clock E w1 + AUTO_DELETE_AFTER_DAYS E * Clock.us_per_day)).
Proof.
  intros Hsend Hm Hres.
  pose proof (send_autopost_ledger E ref post_cfg w) as Hled.
  rewrite Hsend in Hled. simpl in Hled.
  destruct (resolve_chat_id_spec E ref w1) as (r & w2' & Hres' & _ & Hled2 & _).
  rewrite Hres in Hres'. injection Hres' as <- <-.
  rewrite (post_to_channel_after_delivery E post_cfg ref w w1 w2 m c
             Hsend Hm Hres). simpl.
  split; [done|]. split; [by rewrite Hled2, Hled|].
  apply delete_at_from_same_offset.
Qed.

(** The first post goes to ["@mychannel"]; the row is due seven days after
    2025-03-29 22:45:00 UTC. *)
Lemma successful_delivery_schedules_deletion_witness :
  let E := Scenarios.env_with Scenarios.obliging_client Scenarios.server_down in
  let w := Scenarios.empty_world in
  Ledger.rows (ledger (post_to_channel E Scenarios.post1 (RefStr "@mychannel") w).2)
  = [Ledger.Deletion 1 (-1001234) 42 (1743288300 + 7 * 86400)].
Proof.
  intros E w.
  destruct (_send_autopost_to_chat E (RefStr "@mychannel") Scenarios.post1 w)
    as [r w1] eqn:Hsend.
  destruct (_resolve_chat_id E (RefStr "@mychannel") w1) as [r2 w2] eqn:Hres.
  assert (r = Returns (Some 42)) as ->
    by (apply (f_equal fst) in Hsend; vm_compute in Hsend; congruence).
  assert (r2 = Returns (Some (-1001234))) as ->.
  { apply (f_equal fst) in Hres. unfold _resolve_chat_id in Hres.
    vm_compute in Hres. congruence. }
  destruct (successful_delivery_schedules_deletion E Scenarios.post1
              (RefStr "@mychannel") w w1 w2 42 (-1001234) Hsend
              ltac:(discriminate) Hres) as (_ & Hrows & _).
  rewrite Hrows. reflexivity.
Defined.

(** For a numeric channel reference the second resolution cannot fail. *)
Lemma successful_delivery_numeric_channel (E : env) (post_cfg : post)
    (n : Z) (w w1 : world) (m : Z) :
  _send_autopost_to_chat E (RefInt n) post_cfg w = (Returns (Some m), w1) ->
  m ≠ 0 ->
  Ledger.rows (ledger (post_to_channel E post_cfg (RefInt n) w).2)
  = Ledger.rows (ledger w)
    ++ [Ledger.Deletion (Ledger.next_id (ledger w)) n m
          (delete_at_from E (clock E w1))].
Proof.
  intros Hsend Hm.
  pose proof (send_autopost_ledger E (RefInt n) post_cfg w) as Hled.
  rewrite Hsend in Hled. simpl in Hled.
  rewrite (post_to_channel_after_delivery E post_cfg (RefInt n) w w1 w1 m n
             Hsend Hm (resolve_chat_id_int E n w1)). simpl.
  by rewrite Hled.
Qed.

(** A delivery that returns [None] writes no row. *)
Lemma failed_delivery_schedules_nothing (E : env) (post_cfg : post)
    (ref : chat_ref) (w w1 : world) :
  _send_autopost_to_chat E ref post_cfg w = (Returns None, w1) ->
  (post_to_channel E post_cfg ref w) = (Returns 0, w1).
Proof.
  intros Hsend. unfold post_to_channel. run. by rewrite Hsend.
Qed.

(** One retraction: one call on the client for the message, whatever it
    answers, then the row is deleted. *)
Lemma retract_spec (E : env) (row : Z * Z * Z) (w : world) :
  exists w' o, retract E row w = (Returns tt, w')
    ∧ fs w' = fs w
    ∧ calls w' = calls w ++ [(retraction row, o)]
    ∧ ledger w' = Ledger.db_delete_deletion_row row.1.1 (ledger w).
Proof.
  destruct row as [[i c] m]. unfold retract, delete_deletion_row, with_ledger.
  run. destruct (client E w (DeleteMessages c m)) as [a|e]; simpl;
    eexists _, _; split; try reflexivity; simpl; repeat split.
Qed.

(** A batch of retractions: one call per row, in the order of the batch,
    and all the rows of the batch deleted. *)
Lemma retract_batch_spec (E : env) (batch : list (Z * Z * Z)) (w : world) :
  exists w' evs, for_each batch (retract E) w = (Returns tt, w')
    ∧ calls w' = calls w ++ evs
    ∧ evs.*1 = retraction <$> batch
    ∧ ledger w' = delete_rows batch (ledger w).
Proof.
  revert w. induction batch as [|row batch IH]; intros w.
  - exists w, []. simpl. by rewrite app_nil_r.
  - destruct (retract_spec E row w) as (w1 & o & Hr & _ & Hc1 & Hl1).
    destruct (IH w1) as (w2 & evs & Hf & Hc2 & Hevs & Hl2).
    exists w2, ((retraction row, o) :: evs).
    split; [|split; [|split]].
    + simpl. unfold mbind, M_bind. by rewrite Hr, Hf.
    + rewrite Hc2, Hc1. by rewrite <- app_assoc.
    + by rewrite !fmap_cons, Hevs.
    + by rewrite Hl2, Hl1.
Qed.

Lemma delete_rows_evolves (batch : list (Z * Z * Z)) (L0 L : Ledger.ledger) :
  Ledger.evolves L0 L -> Ledger.evolves L0 (delete_rows batch L).
Proof.
  revert L. induction batch as [|row batch IH]; intros L HL; [done|].
  simpl. apply IH. by constructor.
Qed.

Lemma delete_rows_rows (batch : list (Z * Z * Z)) (L : Ledger.ledger) :
  Ledger.rows (delete_rows batch L)
  = filter (fun r => Ledger.id r ∉ batch.*1.*1) (Ledger.rows L).
Proof.
  revert L. induction batch as [|row batch IH]; intros L; simpl.
  - symmetry. apply LedgerProps.filter_all, Forall_forall.
    intros r _. apply not_elem_of_nil.
  - rewrite IH. simpl. rewrite list_filter_filter. apply list_filter_iff.
    intros r. rewrite not_elem_of_cons. tauto.
Qed.

(** A turn of the reaper is the batch of retractions over the rows fetched
    as due, after a log record. *)
Lemma autodelete_poll_unfold (E : env) (w : world) :
  exists w0, calls w0 = calls w ∧ ledger w0 = ledger w
    ∧ autodelete_poll E w
      = for_each (Ledger.db_fetch_due_deletions
                    (Clock.int_seconds (clock E w)) 200 (ledger w))
          (retract E) w0.
Proof.
  unfold autodelete_poll, fetch_due_deletions. run.
  destruct (Ledger.db_fetch_due_deletions _ 200 (ledger w)) as [|row batch].
  - exists w. done.
  - exists (World (fs w) (log w ++ [InfoToDelete (length (row :: batch))])
              (calls w) (ledger w)).
    split; [done|]. split; [done|].
    match goal with
    | |- _ = ?X => destruct X as [[[]|] ?]; reflexivity
    end.
Qed.

(** C8: in one turn of the reaper, whatever the client answers to the
    retraction calls, the turn ends normally; the calls it makes are exactly
    one retraction per row fetched as due, in the order of the fetch; each
    fetched row is gone from the ledger at the end; the rows that were not
    fetched are kept; and however the ledger goes on by inserts and deletes,
    no later fetch gives a row with the id of a row of this batch again. *)
Theorem autodelete_poll_gives_up_after_one_attempt (E : env) (w : world) :
  Ledger.wf (ledger w) ->
  let due := Ledger.db_fetch_due_deletions
               (Clock.int_seconds (clock E w)) 200 (ledger w) in
  let run := autodelete_poll E w in
  run.1 = Returns tt
  ∧ (new_calls w run.2).*1 = retraction <$> due
  ∧ (forall row, row ∈ due -> row.1.1 ∉ Ledger.id <$> Ledger.rows (ledger run.2))
  ∧ (forall r, r ∈ Ledger.rows (ledger w) -> Ledger.columns r ∉ due ->
       r ∈ Ledger.rows (ledger run.2))
  ∧ (forall L', Ledger.evolves (ledger run.2) L' ->
       forall now_ts limit row t, row ∈ due ->
         t ∈ Ledger.db_fetch_due_deletions now_ts limit L' -> t.1.1 ≠ row.1.1).
Proof.
  intros Hwf due run.
  destruct (autodelete_poll_unfold E w) as (w0 & Hc0 & Hl0 & Hrun).
  fold due run in Hrun.
  destruct (retract_batch_spec E due w0) as (w' & evs & Hf & Hc & Hevs & Hl).
  rewrite Hrun, Hf. simpl. rewrite Hl0 in Hl.
  assert (forall row, row ∈ due -> Ledger.retired row.1.1 (ledger w')) as Hret.
  { intros row Hrow. split.
    - apply list_elem_of_fmap in Hrow as (r & -> & Hr).
      apply LedgerProps.due_rows_elem_of in Hr as [Hr _].
      assert (Ledger.seq (ledger w') = Ledger.seq (ledger w)) as ->.
      { rewrite Hl. clear. generalize (ledger w).
        induction due as [|x l IH]; intros L; [done|]. simpl. by rewrite IH. }
      destruct Hwf as [_ Hle]. rewrite Forall_forall in Hle. by apply Hle.
    - rewrite Hl, delete_rows_rows.
      intros (r & Heq & Hin)%list_elem_of_fmap.
      apply list_elem_of_filter in Hin as [Hni _]. apply Hni.
      rewrite <- Heq. apply list_elem_of_fmap. exists row.1.
      split; [done|]. apply list_elem_of_fmap. eauto. }
  split; [done|]. split; [|split; [|split]].
  - rewrite (new_calls_app w w' evs); [done|]. by rewrite Hc, Hc0.
  - intros row Hrow. by destruct (Hret row Hrow).
  - intros r Hr Hnot. rewrite Hl, delete_rows_rows.
    apply list_elem_of_filter. split; [|done].
    intros (ic & Hi & Hin)%list_elem_of_fmap.
    apply list_elem_of_fmap in Hin as ([[i c] m] & -> & Hin).
    simpl in Hi. subst i. apply Hnot.
    pose proof Hin as Hin'.
    apply list_elem_of_fmap in Hin as (r' & Heq & Hr').
    apply LedgerProps.due_rows_elem_of in Hr' as [Hr' _].
    assert (r = r') as <-.
    { destruct Hwf as [Hnd _].
      eapply (LedgerProps.NoDup_fmap_eq Ledger.id); eauto.
      unfold Ledger.columns in Heq. congruence. }
    by rewrite <- Heq.
  - intros L' Hev now_ts limit row t Hrow Ht Heq.
    destruct (LedgerProps.retired_evolves _ _ _ (Hret row Hrow) Hev) as [_ Hni].
    apply Hni. rewrite <- Heq.
    apply list_elem_of_fmap in Ht as (r & -> & Hr).
    apply LedgerProps.due_rows_elem_of in Hr as [Hr _].
    apply list_elem_of_fmap. eauto.
Qed.

(** Two due rows and one that is not: the two are retracted, here without
    success, and removed; the third stays. *)
Lemma autodelete_poll_gives_up_after_one_attempt_witness :
  let E := Scenarios.env_with Scenarios.no_rights_client Scenarios.server_down in
  let w := Scenarios.world_with_three_rows in
  let run := autodelete_poll E w in
  Ledger.wf (ledger w)
  ∧ run.1 = Returns tt
  ∧ new_calls w run.2
    = [(DeleteMessages (-1001234) 41, Raises ChatAdminRequired);
       (DeleteMessages (-1001234) 42, Raises ChatAdminRequired)]
  ∧ Ledger.rows (ledger run.2) = [Ledger.Deletion 3 (-1001234) 43 1743893100]
  ∧ (forall row,
       row ∈ Ledger.db_fetch_due_deletions
               (Clock.int_seconds (clock E w)) 200 (ledger w) ->
       row.1.1 ∉ Ledger.id <$> Ledger.rows (ledger run.2)).
Proof.
  intros E w run.
  assert (Hwf : Ledger.wf (ledger w)).
  { split; apply (bool_decide_unpack _); vm_compute; exact I. }
  split; [exact Hwf|].
  destruct (autodelete_poll_gives_up_after_one_attempt E w Hwf)
    as (Hr & _ & Hgone & _).
  split; [exact Hr|]. split; [reflexivity|]. split; [reflexivity|exact Hgone].
Defined.

End WorkerProps.

(** ** The users table *)

Module UsersProps.
Import Users.

Lemma first_with_user_id_None (uid : Z) (t : list user) :
  first_with_user_id uid t = None <-> uid ∉ user_id <$> t.
Proof.
  unfold first_with_user_id. induction t as [|u t IH].
  - split; [intros _; apply not_elem_of_nil|done].
  - rewrite filter_cons, fmap_cons, not_elem_of_cons.
    destruct (decide (user_id u = uid)) as [Heq|Hne]; simpl.
    + split; [done|]. intros [Hne _]. congruence.
    + rewrite IH. split; [intros ?; split; [congruence|done]|by intros [_ ?]].
Qed.

Lemma first_with_user_id_Some (uid : Z) (t : list user) (u : user) :
  first_with_user_id uid t = Some u -> u ∈ t ∧ user_id u = uid.
Proof.
  unfold first_with_user_id. intros Hh%head_Some_elem_of.
  by apply list_elem_of_filter in Hh as [? ?].
Qed.

(** The three facts about one call. *)
Lemma add_user_to_db_present (uid : Z) (fname : string) (uname : option string)
    (t : list user) :
  uid ∈ user_id <$> t -> add_user_to_db uid fname uname t = t.
Proof.
  intros Hin. unfold add_user_to_db.
  destruct (first_with_user_id uid t) as [u|] eqn:Hfirst; [done|].
  by apply first_with_user_id_None in Hfirst.
Qed.

Lemma add_user_to_db_absent (uid : Z) (fname : string) (uname : option string)
    (t : list user) :
  uid ∉ user_id <$> t ->
  add_user_to_db uid fname uname t = t ++ [User (next_rowid t) uid fname uname].
Proof.
  intros Hni. unfold add_user_to_db.
  destruct (first_with_user_id uid t) as [u|] eqn:Hfirst; [|done].
  apply first_with_user_id_Some in Hfirst as [Hin Huid].
  exfalso. apply Hni, list_elem_of_fmap. eauto.
Qed.

Lemma add_user_to_db_NoDup (uid : Z) (fname : string) (uname : option string)
    (t : list user) :
  NoDup (user_id <$> t) -> NoDup (user_id <$> add_user_to_db uid fname uname t).
Proof.
  intros Hnd. destruct (decide (uid ∈ user_id <$> t)) as [Hin|Hni].
  - by rewrite add_user_to_db_present.
  - rewrite add_user_to_db_absent by done.
    rewrite fmap_app. apply NoDup_app. split; [done|]. split.
    + intros x Hx Hx'%list_elem_of_singleton. simpl in Hx'. congruence.
    + apply NoDup_singleton.
Qed.

(** C10: [add_user_to_db] keeps the user ids of the table pairwise
    distinct; with a user id that is already in the table it leaves the
    table as it is, the stored names included; with a new user id it adds
    exactly one row, at the end, holding the three values given. *)
Theorem add_user_to_db_spec (uid : Z) (fname : string) (uname : option string)
    (t : list user) :
  NoDup (user_id <$> t) ->
  NoDup (user_id <$> add_user_to_db uid fname uname t)
  ∧ (uid ∈ user_id <$> t -> add_user_to_db uid fname uname t = t)
  ∧ (uid ∉ user_id <$> t ->
       add_user_to_db uid fname uname t
       = t ++ [User (next_rowid t) uid fname uname]
       ∧ length (add_user_to_db uid fname uname t) = S (length t)).
Proof.
  intros Hnd. split; [by apply add_user_to_db_NoDup|].
  split; [apply add_user_to_db_present|].
  intros Hni. rewrite add_user_to_db_absent by done.
  split; [done|]. rewrite length_app. simpl. lia.
Qed.

Lemma add_user_to_db_spec_witness :
  let t := add_user_to_db 1001 "Lisa" (Some "lisa") [] in
  NoDup (user_id <$> t)
  ∧ t = [User 1 1001 "Lisa" (Some "lisa")]
  ∧ add_user_to_db 1001 "Elisabeth" None t = t
  ∧ add_user_to_db 1002 "Marc" None t = t ++ [User 2 1002 "Marc" None].
Proof.
  intros t.
  assert (Hnd : NoDup (user_id <$> t)).
  { apply (bool_decide_unpack _). vm_compute. exact I. }
  split; [exact Hnd|]. split; [reflexivity|].
  destruct (add_user_to_db_spec 1001 "Elisabeth" None t Hnd) as (_ & Hsame & _).
  split; [|reflexivity].
  apply Hsame. apply (bool_decide_unpack _). vm_compute. exact I.
Defined.

(** Under sequential calls from the empty table, the table never holds two
    rows with the same user id. *)
Lemma built_NoDup (t : list user) : built t -> NoDup (user_id <$> t).
Proof.
  induction 1 as [|uid fname uname t _ IH]; [constructor|].
  by apply add_user_to_db_NoDup.
Qed.

(** The row ids stay pairwise distinct as well. *)
Lemma next_rowid_fresh (t : list user) (u : user) : u ∈ t -> id u < next_rowid t.
Proof.
  unfold next_rowid. induction t as [|x t IH]; [by intros ?%elem_of_nil|].
  intros [->|Hin]%elem_of_cons; simpl; [lia|]. specialize (IH Hin). lia.
Qed.

End UsersProps.

(** ** More on the deletion ledger *)

Module LedgerMore.
Import Ledger LedgerProps.

Lemma sql_limit_all {A} (n : Z) (l : list A) :
  n < 0 ∨ Z.of_nat (length l) <= n -> sql_limit n l = l.
Proof.
  intros Hn. unfold sql_limit. destruct (Z.ltb_spec n 0) as [?|?]; [done|].
  destruct Hn as [?|Hn]; [lia|]. apply take_ge. lia.
Qed.

(** Under well-formedness the next row id depends on the counter alone. *)
Lemma next_id_seq (L : ledger) : wf L -> next_id L = Z.max (seq L) 0 + 1.
Proof.
  intros [_ Hle]. unfold next_id. f_equal.
  assert (max_id (rows L) <= Z.max (seq L) 0 ∧ 0 <= max_id (rows L)) as [? ?];
    [|lia].
  induction Hle as [|r l Hr _ IH]; simpl; [lia|]. lia.
Qed.

(** X1: a task that has just been enqueued is returned by a fetch exactly
    when it is due. Before its time no fetch gives a row with its id; once
    [delete_at <= now_ts], a fetch whose limit leaves room for it (no limit,
    or more than the number of rows already due) gives it, and gives no row
    twice. *)
Theorem schedule_then_fetch (L : ledger) (c m d now_ts limit : Z) :
  wf L ->
  (now_ts < d ->
     forall t, t ∈ db_fetch_due_deletions now_ts limit (db_schedule_deletion c m d L) ->
       t.1.1 ≠ next_id L)
  ∧ (d <= now_ts ->
     limit < 0 ∨ Z.of_nat (length (filter (due now_ts) (rows L))) < limit ->
     (next_id L, c, m)
       ∈ db_fetch_due_deletions now_ts limit (db_schedule_deletion c m d L))
  ∧ NoDup (db_fetch_due_deletions now_ts limit (db_schedule_deletion c m d L)).
Proof.
  intros Hwf. pose proof (wf_insert c m d L Hwf) as [Hnd' _].
  split; [|split].
  - intros Hlate t (r & -> & Hr)%list_elem_of_fmap Heq.
    apply due_rows_elem_of in Hr as [Hin Hdue]. simpl in Hin, Heq.
    apply elem_of_app in Hin as [Hin|Hin%list_elem_of_singleton].
    + pose proof (max_id_ge _ _ Hin). unfold next_id in Heq. lia.
    + subst r. simpl in Hdue. lia.
  - intros Hdue Hroom. unfold db_fetch_due_deletions, due_rows. simpl.
    rewrite filter_app, filter_cons, filter_nil.
    destruct (decide (due now_ts _)) as [_|Hn]; [|by destruct Hn].
    rewrite sql_limit_all.
    + apply list_elem_of_fmap. exists (Deletion (next_id L) c m d).
      split; [reflexivity|].
      rewrite order_by_id_perm. apply elem_of_app. right.
      by apply list_elem_of_singleton.
    + destruct Hroom as [?|Hroom]; [by left|right].
      rewrite (Permutation_length (order_by_id_perm _)), length_app. simpl. lia.
  - eapply (NoDup_fmap_1 (fun t : Z * Z * Z => t.1.1)).
    unfold db_fetch_due_deletions.
    rewrite <- list_fmap_compose. by apply due_rows_NoDup.
Qed.

Lemma schedule_then_fetch_witness :
  let L := db_schedule_deletion 7 1 10 db_init in
  wf L
  ∧ db_fetch_due_deletions 19 200 (db_schedule_deletion 7 2 20 L) = [(1, 7, 1)]
  ∧ (2, 7, 2) ∈ db_fetch_due_deletions 20 200 (db_schedule_deletion 7 2 20 L).
Proof.
  intros L.
  assert (Hwf : wf L) by (apply wf_insert, wf_init).
  split; [exact Hwf|]. split; [reflexivity|].
  apply (proj1 (proj2 (schedule_then_fetch L 7 2 20 20 200 Hwf)));
    [lia|right; simpl; lia].
Defined.

(** X2: operations on different rows commute. Deleting a row and enqueuing a
    new task can be done in either order, as long as the row deleted is not
    the one being created; two deletes can always be swapped. *)
Theorem ledger_operations_commute (L : ledger) (c m d i j : Z) :
  wf L -> i ≠ next_id L ->
  db_delete_deletion_row i (db_schedule_deletion c m d L)
  = db_schedule_deletion c m d (db_delete_deletion_row i L)
  ∧ db_delete_deletion_row i (db_delete_deletion_row j L)
    = db_delete_deletion_row j (db_delete_deletion_row i L).
Proof.
  intros Hwf Hi. split.
  - assert (next_id (db_delete_deletion_row i L) = next_id L) as Hnext.
    { rewrite !next_id_seq; [done|done|by apply wf_delete]. }
    unfold db_schedule_deletion. rewrite Hnext.
    unfold db_delete_deletion_row. simpl. f_equal.
    rewrite filter_app, filter_cons, filter_nil. simpl.
    destruct (decide (next_id L ≠ i)) as [_|Hn]; [done|].
    exfalso. apply Hn. congruence.
  - unfold db_delete_deletion_row. simpl. f_equal.
    rewrite !list_filter_filter. apply list_filter_iff. intros r. tauto.
Qed.

Lemma ledger_operations_commute_witness :
  let L := db_schedule_deletion 7 2 20 (db_schedule_deletion 7 1 10 db_init) in
  wf L
  ∧ rows (db_delete_deletion_row 1 (db_schedule_deletion 7 3 30 L))
    = [Deletion 2 7 2 20; Deletion 3 7 3 30]
  ∧ db_delete_deletion_row 1 (db_schedule_deletion 7 3 30 L)
    = db_schedule_deletion 7 3 30 (db_delete_deletion_row 1 L).
Proof.
  intros L.
  assert (Hwf : wf L) by (apply wf_insert, wf_insert, wf_init).
  split; [exact Hwf|]. split; [reflexivity|].
  apply (ledger_operations_commute L 7 3 30 1 1 Hwf). vm_compute. discriminate.
Defined.

(** X3: a row id is never handed out again. Once a row has been deleted,
    however the ledger goes on by inserts and deletes, no row carries its id
    and the next id to be assigned is above it. *)
Theorem deleted_row_id_never_returns (L L' : ledger) (i : Z) :
  wf L -> i ∈ id <$> rows L ->
  evolves (db_delete_deletion_row i L) L' ->
  (i ∉ id <$> rows L') ∧ i < next_id L'.
Proof.
  intros Hwf Hin Hev.
  destruct (retired_evolves _ _ _ (delete_retires i L Hwf Hin) Hev) as [Hle Hni].
  split; [done|]. unfold next_id. lia.
Qed.

Lemma deleted_row_id_never_returns_witness :
  let L := db_schedule_deletion 7 2 20 (db_schedule_deletion 7 1 10 db_init) in
  let L' := db_schedule_deletion 7 3 30 (db_delete_deletion_row 2 L) in
  rows L' = [Deletion 1 7 1 10; Deletion 3 7 3 30] ∧ 2 < next_id L'.
Proof.
  intros L L'. split; [reflexivity|].
  assert (Hwf : wf L) by (apply wf_insert, wf_insert, wf_init).
  refine (proj2 (deleted_row_id_never_returns L L' 2 Hwf _ _)).
  - apply (bool_decide_unpack _). vm_compute. exact I.
  - apply evolves_insert, evolves_refl.
Defined.

Lemma max_id_nonneg (l : list deletion) : 0 <= max_id l.
Proof. induction l as [|r l IH]; simpl; lia. Qed.

(** X4: every ledger the program can build from [db_init] by inserts and
    deletes has pairwise distinct row ids, all between 1 and the
    AUTOINCREMENT counter, and its rows stand in strictly ascending id, the
    order in which they were inserted. *)
Theorem reachable_ledger_invariant (L : ledger) :
  reachable L ->
  NoDup (id <$> rows L)
  ∧ Forall (fun r => 1 <= id r <= seq L) (rows L)
  ∧ StronglySorted (fun a b => id a < id b) (rows L).
Proof.
  intros HL. destruct (reachable_wf L HL) as [Hnd Hle].
  split; [done|]. split; [|by apply reachable_in_id_order].
  unfold reachable in HL.
  induction HL as [|c m d L' HL IH|i L' HL IH].
  - constructor.
  - destruct (evolves_wf _ _ wf_init HL) as [Hnd' Hle'].
    specialize (IH Hnd' Hle'). simpl. apply Forall_app. split.
    + eapply Forall_impl; [exact IH|]. intros r. simpl. unfold next_id. lia.
    + constructor; [|constructor]. simpl.
      pose proof (max_id_nonneg (rows L')). unfold next_id. lia.
  - destruct (evolves_wf _ _ wf_init HL) as [Hnd' Hle'].
    specialize (IH Hnd' Hle'). simpl.
    rewrite Forall_forall in IH. apply Forall_forall.
    intros r [_ Hr]%list_elem_of_filter. by apply IH.
Qed.

Lemma reachable_ledger_invariant_witness :
  let L := db_schedule_deletion 7 3 30
             (db_delete_deletion_row 1
                (db_schedule_deletion 7 2 20 (db_schedule_deletion 7 1 10 db_init))) in
  rows L = [Deletion 2 7 2 20; Deletion 3 7 3 30]
  ∧ StronglySorted (fun a b => id a < id b) (rows L).
Proof.
  intros L. split; [reflexivity|].
  refine (proj2 (proj2 (reachable_ledger_invariant L _))).
  unfold L, reachable. repeat constructor.
Defined.

End LedgerMore.

(** ** More on the reaper *)

Module ReaperMore.
Import Bot BotProps WorkerProps.

Lemma retract_batch_fs (E : env) (batch : list (Z * Z * Z)) (w : world) :
  fs (for_each batch (retract E) w).2 = fs w.
Proof.
  revert w. induction batch as [|row batch IH]; intros w; [done|].
  destruct (retract_spec E row w) as (w1 & o & Hr & Hfs & _).
  simpl. unfold mbind, M_bind. rewrite Hr. by rewrite IH.
Qed.

Lemma filter_none {A} (P : A -> Prop) `{!forall x, Decision (P x)} (l : list A) :
  (forall x, x ∈ l -> ¬ P x) -> filter P l = [].
Proof.
  intros Hno. destruct (filter P l) as [|x l'] eqn:Hf; [done|].
  assert (x ∈ filter P l) as [HP Hin]%list_elem_of_filter
    by (rewrite Hf; apply list_elem_of_here).
  by destruct (Hno x Hin).
Qed.

(** The world a turn of the reaper ends in. *)
Lemma autodelete_poll_result (E : env) (w : world) :
  let due := Ledger.db_fetch_due_deletions
               (Clock.int_seconds (clock E w)) 200 (ledger w) in
  exists evs,
    (autodelete_poll E w).1 = Returns tt
    ∧ fs (autodelete_poll E w).2 = fs w
    ∧ calls (autodelete_poll E w).2 = calls w ++ evs
    ∧ evs.*1 = retraction <$> due
    ∧ ledger (autodelete_poll E w).2 = delete_rows due (ledger w).
Proof.
  intros due.
  destruct (autodelete_poll_unfold E w) as (w0 & Hc0 & Hl0 & Hrun).
  fold due in Hrun.
  destruct (retract_batch_spec E due w0) as (w' & evs & Hf & Hc & Hevs & Hl).
  pose proof (retract_batch_fs E due w0) as Hfs.
  exists evs. rewrite Hrun. rewrite Hf in Hfs |- *. simpl in *.
  split; [done|]. split; [|split; [congruence|split; [done|congruence]]].
  rewrite Hfs. clear -Hrun.
  unfold autodelete_poll, fetch_due_deletions in Hrun. run. fold due in Hrun.
  destruct due as [|row batch]; simpl in Hrun.
  - injection Hrun as <-. done.
  - unfold mbind, M_bind in Hrun.
    destruct (retract_spec E row
                (World (fs w) (log w ++ [InfoToDelete (S (length batch))])
                   (calls w) (ledger w))) as (w1 & o & Hr & Hfs1 & _).
    destruct (retract_spec E row w0) as (w1' & o' & Hr' & Hfs1' & _).
    rewrite Hr, Hr' in Hrun.
    pose proof (retract_batch_fs E batch w1) as H1.
    pose proof (retract_batch_fs E batch w1') as H2.
    destruct (for_each batch (retract E) w1) as [[[]|] ?];
      destruct (for_each batch (retract E) w1') as [[[]|] ?];
      simpl in *; inversion Hrun; subst; congruence.
Qed.

(** X5: a turn of the reaper that finds fewer than 200 due rows clears the
    backlog: right after it, no row of the ledger is due at that time any
    more, whatever the client answered. And a turn that finds nothing due
    changes nothing at all. *)
Theorem autodelete_poll_clears_backlog (E : env) (w : world) :
  Ledger.wf (ledger w) ->
  (length (Ledger.db_fetch_due_deletions
             (Clock.int_seconds (clock E w)) 200 (ledger w)) < 200)%nat ->
  (forall limit,
     Ledger.db_fetch_due_deletions (Clock.int_seconds (clock E w)) limit
       (ledger (autodelete_poll E w).2) = [])
  ∧ (Ledger.db_fetch_due_deletions
       (Clock.int_seconds (clock E w)) 200 (ledger w) = [] ->
     autodelete_poll E w = (Returns tt, w)).
Proof.
  intros [Hnd _] Hfew. split.
  - intros limit.
    destruct (autodelete_poll_result E w) as (evs & _ & _ & _ & _ & Hl).
    rewrite Hl. clear Hl evs.
    set (now_ts := Clock.int_seconds (clock E w)) in *.
    unfold Ledger.db_fetch_due_deletions at 1, Ledger.due_rows.
    rewrite delete_rows_rows, filter_none.
    { change (Ledger.order_by_id []) with (@nil Ledger.deletion).
      destruct (LedgerProps.sql_limit_take limit (@nil Ledger.deletion))
        as [k ->]. by rewrite take_nil. }
    intros r [Hni Hr]%list_elem_of_filter Hdue. apply Hni.
    assert (r ∈ Ledger.due_rows now_ts 200 (ledger w)) as Hin.
    { unfold Ledger.due_rows. rewrite LedgerMore.sql_limit_all.
      - rewrite LedgerProps.order_by_id_perm. by apply list_elem_of_filter.
      - right. unfold Ledger.db_fetch_due_deletions, Ledger.due_rows in Hfew.
        rewrite length_fmap in Hfew.
        destruct (LedgerProps.sql_limit_take 200
                    (Ledger.order_by_id
                       (filter (Ledger.due now_ts) (Ledger.rows (ledger w)))))
          as [k Hk].
        unfold Ledger.sql_limit in Hfew. simpl in Hfew.
        rewrite length_take in Hfew. lia. }
    apply list_elem_of_fmap. exists (Ledger.id r, Ledger.chat_id r).
    split; [done|]. apply list_elem_of_fmap. exists (Ledger.columns r).
    split; [done|]. unfold Ledger.db_fetch_due_deletions.
    apply list_elem_of_fmap. eauto.
  - intros Hnone. unfold autodelete_poll, fetch_due_deletions. run.
    by rewrite Hnone.
Qed.

Lemma autodelete_poll_clears_backlog_witness :
  let E := Scenarios.env_with Scenarios.no_rights_client Scenarios.server_down in
  let w := Scenarios.world_with_three_rows in
  Ledger.rows (ledger (autodelete_poll E w).2)
  = [Ledger.Deletion 3 (-1001234) 43 1743893100]
  ∧ Ledger.db_fetch_due_deletions (Clock.int_seconds (clock E w)) 200
      (ledger (autodelete_poll E w).2) = [].
Proof.
  intros E w. split; [reflexivity|].
  assert (Hwf : Ledger.wf (ledger w))
    by (split; apply (bool_decide_unpack _); vm_compute; exact I).
  apply (autodelete_poll_clears_backlog E w Hwf). vm_compute. lia.
Defined.

(** X6: what a turn of the reaper never does. It never raises, never
    touches the disk, never publishes; it makes at most 200 calls on the
    client, all of them retractions; it leaves the AUTOINCREMENT counter
    alone, and the ledger afterwards is the ledger before without the rows
    it fetched. *)
Theorem autodelete_poll_frame (E : env) (w : world) :
  (autodelete_poll E w).1 = Returns tt
  ∧ fs (autodelete_poll E w).2 = fs w
  ∧ sends (autodelete_poll E w).2 = sends w
  ∧ (length (new_calls w (autodelete_poll E w).2) <= 200)%nat
  ∧ Forall (fun ev => exists c m, ev.1 = DeleteMessages c m)
      (new_calls w (autodelete_poll E w).2)
  ∧ Ledger.seq (ledger (autodelete_poll E w).2) = Ledger.seq (ledger w)
  ∧ Ledger.rows (ledger (autodelete_poll E w).2)
    = filter (fun r => Ledger.id r
                ∉ (Ledger.db_fetch_due_deletions
                     (Clock.int_seconds (clock E w)) 200 (ledger w)).*1.*1)
        (Ledger.rows (ledger w)).
Proof.
  destruct (autodelete_poll_result E w) as (evs & Hr & Hfs & Hc & Hevs & Hl).
  set (due := Ledger.db_fetch_due_deletions _ 200 (ledger w)) in *.
  assert (Forall (fun ev : client_call * outcome Z =>
                    exists c m, ev.1 = DeleteMessages c m) evs) as Hall.
  { apply Forall_forall. intros ev Hev.
    assert (ev.1 ∈ retraction <$> due) as (row & -> & _)%list_elem_of_fmap.
    { rewrite <- Hevs. apply list_elem_of_fmap. eauto. }
    unfold retraction. eauto. }
  split; [done|]. split; [done|]. split; [|split; [|split; [|split]]].
  - unfold sends. rewrite Hc, filter_app.
    rewrite (ReaperMore.filter_none _ evs), app_nil_r; [done|].
    rewrite Forall_forall in Hall. intros ev Hev.
    destruct (Hall ev Hev) as (c & m & ->). done.
  - rewrite (new_calls_app _ _ _ Hc).
    rewrite <- (length_fmap fst), Hevs, length_fmap.
    pose proof (LedgerProps.sql_limit_length 200
                  (Ledger.order_by_id
                     (filter (Ledger.due (Clock.int_seconds (clock E w)))
                        (Ledger.rows (ledger w)))) ltac:(lia)).
    unfold due, Ledger.db_fetch_due_deletions, Ledger.due_rows.
    rewrite length_fmap. lia.
  - by rewrite (new_calls_app _ _ _ Hc).
  - rewrite Hl. clear. generalize (ledger w).
    induction due as [|x l IH]; intros L; [done|]. simpl. by rewrite IH.
  - by rewrite Hl, delete_rows_rows.
Qed.

End ReaperMore.

(** ** More on the weekly recurrence *)

Module ClockMore.
Import Clock ClockProps.

(** X7: whatever the zone and the clock, for an hour and a minute in range
    the delay [_seconds_until_next_weekly] returns is strictly positive and
    at most seven days: the worker never fires at once and never skips a
    week. *)
Theorem weekly_delay_bounds (weekday_idx h m : Z) (tz : tzinfo) (clock : Z) :
  valid (fromutc tz clock) -> 0 <= h < 24 -> 0 <= m < 60 ->
  0 < _seconds_until_next_weekly weekday_idx h m tz clock <= 7 * us_per_day.
Proof. apply seconds_until_next_weekly_bounds. Qed.

(** Europe/Paris, Saturday 2025-03-29 23:45 local time, Sunday 23:30 asked:
    23 h 45 min. *)
Lemma weekly_delay_bounds_witness :
  let clock := 1743288300 * us_per_second in
  _seconds_until_next_weekly 6 23 30 europe_paris_2025 clock = 85500 * us_per_second
  ∧ 0 < _seconds_until_next_weekly 6 23 30 europe_paris_2025 clock <= 7 * us_per_day.
Proof.
  intros clock. split; [reflexivity|].
  apply weekly_delay_bounds; [|lia|lia].
  apply datetime_of_wall_valid.
Defined.

(** X8: the target the function aims at is the earliest wall-clock reading
    strictly after now that falls on the asked weekday at the asked hour
    and minute, zero seconds. *)
Theorem next_weekly_target_is_earliest (weekday_idx h m : Z) (now d : datetime) :
  valid now -> 0 <= weekday_idx < 7 -> 0 <= h < 24 -> 0 <= m < 60 ->
  at_schedule weekday_idx h m d ->
  wall_us now < wall_us d ->
  wall_us now < wall_us (next_weekly_target weekday_idx h m now) <= wall_us d.
Proof.
  intros Hv Hwd Hh Hm (Dwd & Dh & Dm & Ds & Dus) Hlater.
  pose proof (next_weekly_target_after weekday_idx h m now Hv Hh Hm) as [Hlo Hhi].
  destruct (next_weekly_target_fields weekday_idx h m now Hwd)
    as (Twd & Th & Tm & Ts & Tus).
  split; [exact Hlo|].
  set (t := next_weekly_target weekday_idx h m now) in *. clearbody t.
  clear Hlo. revert Hhi Hlater Twd Dwd. unfold wall_us, weekday.
  rewrite Th, Tm, Ts, Tus, Dh, Dm, Ds, Dus.
  unfold us_per_day, us_per_second, epoch_ordinal.
  intros Hhi Hlater Twd Dwd.
  assert (exists k, ordinal t - ordinal d = 7 * k) as [k Hk].
  { exists ((ordinal t + 6) / 7 - (ordinal d + 6) / 7).
    revert Twd Dwd. Z.div_mod_to_equations. lia. }
  assert (k <= 0) by lia. lia.
Qed.

(** Monday 09:00 asked on Monday 2025-03-03 at 09:00:01: the target is
    Monday 2025-03-10 09:00, and no earlier Monday 09:00 lies after now. *)
Lemma next_weekly_target_is_earliest_witness :
  let now := datetime_of_wall (1740992401 * us_per_second) false in
  let d := datetime_of_wall (1742202000 * us_per_second) false in
  wall_us (next_weekly_target 0 9 0 now) = 1741597200 * us_per_second
  ∧ wall_us (next_weekly_target 0 9 0 now) <= wall_us d.
Proof.
  intros now d. split; [reflexivity|].
  refine (proj2 (next_weekly_target_is_earliest 0 9 0 now d _ _ _ _ _ _));
    try lia.
  - apply datetime_of_wall_valid.
  - repeat split; reflexivity.
  - vm_compute. reflexivity.
Defined.

(** X9: in a zone without clock changes the weekly loop keeps its
    schedule. The instant at which the sleep ends lies after the clock, a
    week ahead at most; the local clock then reads exactly the asked
    weekday, hour and minute, zero seconds; and the delay computed at that
    instant, as the loop of [_autopost_worker] does after a firing, is seven
    days: successive firings are one week apart. *)
Theorem weekly_firings_fixed_zone (weekday_idx h m off clock : Z) :
  0 <= weekday_idx < 7 -> 0 <= h < 24 -> 0 <= m < 60 ->
  let tz := fixed_zone off in
  let fire := next_occurrence weekday_idx h m tz clock in
  clock < fire <= clock + 7 * us_per_day
  ∧ at_schedule weekday_idx h m (fromutc tz fire)
  ∧ next_occurrence weekday_idx h m tz fire = fire + 7 * us_per_day.
Proof.
  intros Hwd Hh Hm tz fire.
  assert (Hv : forall t, valid (fromutc tz t))
    by (intros t; apply datetime_of_wall_valid).
  pose proof (seconds_until_next_weekly_bounds weekday_idx h m tz clock
                (Hv clock) Hh Hm) as Hb.
  assert (Hat : at_schedule weekday_idx h m (fromutc tz fire)).
  { destruct (next_weekly_target_fields weekday_idx h m (fromutc tz clock) Hwd)
      as (Twd & Th & Tm & Ts & Tus).
    assert (Hoff : offset_at tz fire = offset_at tz clock)
      by (unfold tz; by rewrite !offset_at_fixed_zone).
    apply fire_reads_target in Hoff.
    apply wall_us_inj in Hoff as (Ho & Hh' & Hm' & Hs' & Hus');
      [|by apply Hv|by apply next_weekly_target_valid].
    unfold at_schedule. fold fire in Ho, Hh', Hm', Hs', Hus'.
    repeat split; try congruence.
    unfold weekday in *. by rewrite Ho. }
  split; [unfold fire, next_occurrence; lia|]. split; [exact Hat|].
  unfold next_occurrence at 1.
  by rewrite (seconds_until_next_weekly_exact _ _ _ _ _ Hat).
Qed.

(** UTC+1 on Saturday 2025-03-29 at 23:45: Sunday 23:30 is 23 h 45 min
    away, and the firing after that one a week later. *)
Lemma weekly_firings_fixed_zone_witness :
  let tz := fixed_zone (3600 * us_per_second) in
  let clock := 1743288300 * us_per_second in
  let fire := next_occurrence 6 23 30 tz clock in
  fire = clock + 85500 * us_per_second
  ∧ next_occurrence 6 23 30 tz fire = fire + 7 * us_per_day.
Proof.
  intros tz clock fire. split; [reflexivity|].
  destruct (weekly_firings_fixed_zone 6 23 30 (3600 * us_per_second) clock)
    as (_ & _ & Hnext); [lia|lia|lia|exact Hnext].
Defined.

End ClockMore.

(** ** Text *)

Module TextProps.
Import PyText.
Import Stdlib.Strings.Ascii.

Ltac each_char c := destruct c as [[] [] [] [] [] [] [] []]; try reflexivity; try discriminate.

Lemma is_space_lower (c : ascii) : is_space (PyStr.ascii_lower c) = is_space c.
Proof. each_char c. Qed.

Lemma lower_upper_char (c : ascii) :
  PyStr.ascii_lower (PyStr.ascii_upper c) = PyStr.ascii_lower c.
Proof. each_char c. Qed.

Lemma eqb_lower_semicolon (c : ascii) :
  Ascii.eqb (PyStr.ascii_lower c) ";"%char = Ascii.eqb c ";"%char.
Proof. each_char c. Qed.

Lemma digit_char_facts (c : ascii) :
  PyStr.is_digit_char c = true ->
  is_space c = false ∧ Ascii.eqb c ":"%char = false
  ∧ Ascii.eqb c "-"%char = false ∧ Ascii.eqb c "+"%char = false
  ∧ Ascii.eqb c "_"%char = false.
Proof. each_char c; intros _; repeat split. Qed.

Lemma space_char_facts (c : ascii) :
  is_space c = true -> Ascii.eqb c ";"%char = false.
Proof. each_char c. Qed.

Lemma app_String (a b : string) (c : ascii) :
  String c a +:+ b = String c (a +:+ b).
Proof. reflexivity. Qed.

Lemma app_empty_r (s : string) : s +:+ "" = s.
Proof. induction s as [|c s IH]; [done|]. by rewrite app_String, IH. Qed.

Lemma app_assoc_s (a b c : string) : (a +:+ b) +:+ c = a +:+ (b +:+ c).
Proof. induction a as [|x a IH]; [done|]. by rewrite !app_String, IH. Qed.

Lemma lower_app (a b : string) :
  PyStr.lower (a +:+ b) = PyStr.lower a +:+ PyStr.lower b.
Proof.
  induction a as [|x a IH]; [done|]. rewrite app_String.
  unfold PyStr.lower in *. simpl. by rewrite IH.
Qed.

Lemma lower_upper (s : string) : PyStr.lower (PyStr.upper s) = PyStr.lower s.
Proof.
  unfold PyStr.lower, PyStr.upper.
  induction s as [|c s IH]; [done|]. simpl. by rewrite lower_upper_char, IH.
Qed.

(** Stripping *)

Lemma lstrip_lower (s : string) : lstrip (PyStr.lower s) = PyStr.lower (lstrip s).
Proof.
  unfold PyStr.lower. induction s as [|c s IH]; [done|]. simpl.
  rewrite is_space_lower. by destruct (is_space c).
Qed.

Lemma rstrip_lower (s : string) : rstrip (PyStr.lower s) = PyStr.lower (rstrip s).
Proof.
  unfold PyStr.lower. induction s as [|c s IH]; [done|]. simpl.
  rewrite IH, is_space_lower.
  destruct (rstrip s); simpl; [by destruct (is_space c)|done].
Qed.

Lemma strip_lower (s : string) : strip (PyStr.lower s) = PyStr.lower (strip s).
Proof. unfold strip. by rewrite lstrip_lower, rstrip_lower. Qed.

Lemma rstrip_all_space (p : string) : all_space p = true -> rstrip p = "".
Proof.
  induction p as [|c p IH]; [done|]. simpl.
  intros [Hc Hp]%andb_prop. by rewrite IH, Hc.
Qed.

Lemma rstrip_app_space (s p : string) :
  all_space p = true -> rstrip (s +:+ p) = rstrip s.
Proof.
  intros Hp. induction s as [|c s IH].
  - by apply rstrip_all_space.
  - rewrite app_String. simpl. by rewrite IH.
Qed.

Lemma lstrip_all_space (p : string) : all_space p = true -> lstrip p = "".
Proof.
  induction p as [|c p IH]; [done|]. simpl.
  intros [Hc Hp]%andb_prop. rewrite Hc. by apply IH.
Qed.

Lemma lstrip_app_space (p s : string) :
  all_space p = true -> lstrip (p +:+ s) = lstrip s.
Proof.
  induction p as [|c p IH]; [done|]. rewrite app_String. simpl.
  intros [Hc Hp]%andb_prop. rewrite Hc. by apply IH.
Qed.

Lemma strip_app_space_r (s p : string) :
  all_space p = true -> strip (s +:+ p) = strip s.
Proof.
  intros Hp. unfold strip. induction s as [|c s IH].
  - change ("" +:+ p) with p. by rewrite lstrip_all_space.
  - rewrite app_String. simpl.
    destruct (is_space c); [done|]. by rewrite <- app_String, rstrip_app_space.
Qed.

(** White space around a string does not count. *)
Lemma strip_padding (p1 s p2 : string) :
  all_space p1 = true -> all_space p2 = true ->
  strip (p1 +:+ s +:+ p2) = strip s.
Proof.
  intros H1 H2. unfold strip at 1. rewrite lstrip_app_space by done.
  by apply strip_app_space_r.
Qed.

Lemma strip_no_space (s : string) : no_space s = true -> strip s = s.
Proof.
  intros Hs. unfold strip.
  assert (lstrip s = s) as ->.
  { destruct s as [|c s]; [done|]. simpl in *.
    apply andb_prop in Hs as [Hc _]. by destruct (is_space c). }
  induction s as [|c s IH]; [done|]. simpl in *.
  apply andb_prop in Hs as [Hc Hs]. rewrite IH by done.
  destruct s; [by destruct (is_space c)|done].
Qed.

(** Splitting *)

Lemma split_on_lacks (sep : ascii) (s : string) :
  lacks sep s = true -> split_on sep s = [s].
Proof.
  induction s as [|c s IH]; [done|]. simpl.
  intros [Hc Hs]%andb_prop. rewrite IH by done.
  by destruct (Ascii.eqb c sep).
Qed.

Lemma split_on_app (sep : ascii) (a b : string) :
  lacks sep a = true ->
  split_on sep (a +:+ String sep b) = a :: split_on sep b.
Proof.
  induction a as [|c a IH].
  - intros _. change ("" +:+ String sep b) with (String sep b). simpl.
    by rewrite Ascii.eqb_refl.
  - rewrite app_String. simpl. intros [Hc Ha]%andb_prop. rewrite IH by done.
    by destruct (Ascii.eqb c sep).
Qed.

Lemma all_chars_app (P : ascii -> bool) (a b : string) :
  all_chars P (a +:+ b) = all_chars P a && all_chars P b.
Proof.
  induction a as [|c a IH]; [done|]. rewrite app_String. simpl.
  rewrite IH. by rewrite andb_assoc.
Qed.

Lemma all_chars_impl (P Q : ascii -> bool) (s : string) :
  (forall c, P c = true -> Q c = true) ->
  all_chars P s = true -> all_chars Q s = true.
Proof.
  intros HPQ. induction s as [|c s IH]; [done|]. simpl.
  intros [Hc Hs]%andb_prop. by rewrite (HPQ c Hc), IH.
Qed.

(** Numbers *)

Lemma digit_not_int_space (c : ascii) :
  PyStr.is_digit_char c = true -> is_int_space c = false.
Proof. each_char c; by intros _. Qed.

Lemma int_rstrip_fixed (s : string) :
  all_chars (fun c => negb (is_int_space c)) s = true -> int_rstrip s = s.
Proof.
  induction s as [|c s IH]; [done|]. simpl.
  intros [Hc Hs]%andb_prop. rewrite (IH Hs).
  destruct s; [|done]. by apply negb_true_iff in Hc as ->.
Qed.

(** [int] skips nothing around a number without white space. *)
Lemma int_strip_no_space (s : string) :
  all_chars (fun c => negb (is_int_space c)) s = true ->
  int_rstrip (int_lstrip s) = s.
Proof.
  intros Hs. assert (int_lstrip s = s) as ->; [|by apply int_rstrip_fixed].
  destruct s as [|c s]; [done|]. simpl in *.
  apply andb_prop in Hs as [Hc _]. by apply negb_true_iff in Hc as ->.
Qed.

Lemma digits_are (P : ascii -> bool) (s : string) :
  (forall c, PyStr.is_digit_char c = true -> P c = true) ->
  PyStr.all_digits s = true -> all_chars P s = true.
Proof.
  intros HP. induction s as [|c s IH]; [done|]. simpl.
  intros [Hc Hs]%andb_prop. by rewrite (HP c Hc), IH.
Qed.

Lemma plain_digits_all_digits (s : string) :
  PyStr.plain_digits s = true -> PyStr.all_digits s = true ∧ s ≠ "".
Proof. destruct s; [discriminate|]. by intros ?. Qed.

Lemma grouped_digits_plain (s : string) :
  PyStr.plain_digits s = true -> grouped_digits s = Some s.
Proof.
  intros [Hall Hne]%plain_digits_all_digits.
  induction s as [|c s IH]; [done|]. simpl in *.
  apply andb_prop in Hall as [Hc Hs]. rewrite Hc.
  destruct s as [|c' s']; [done|].
  simpl in Hs. apply andb_prop in Hs as [Hc' Hs'].
  destruct (digit_char_facts c' Hc') as (_ & _ & _ & _ & ->).
  rewrite IH; [done| |done]. simpl. by rewrite Hc', Hs'.
Qed.

(** [int] reads a plain digit string as its value. *)
Lemma int_plain_digits (s : string) :
  PyStr.plain_digits s = true ->
  (String.length s <= int_max_str_digits)%nat ->
  int s = Some (PyStr.digits_value 0 s).
Proof.
  intros Hd Hlen. pose proof Hd as [Hall Hne]%plain_digits_all_digits.
  unfold int. rewrite int_strip_no_space.
  2:{ apply (digits_are _ s); [|done]. intros c Hc.
      by rewrite digit_not_int_space. }
  destruct s as [|c s]; [done|]. simpl in Hall.
  apply andb_prop in Hall as [Hc _].
  destruct (digit_char_facts c Hc) as (_ & _ & -> & -> & _).
  unfold unsigned_int. rewrite grouped_digits_plain by done.
  by apply Nat.leb_le in Hlen as ->.
Qed.

End TextProps.

(** ** The schedule of a post and the extension of a download *)

Module ConfigProps.
Import Config PyText TextProps.
Import Stdlib.Strings.Ascii.

Lemma weekday_lookup_Some (k : string) (v : Z) :
  _FR_WEEKDAYS !! k = Some v -> 0 <= v <= 6 ∧ k ∈ day_names.
Proof.
  intros Hk%elem_of_list_to_map_2.
  repeat (apply elem_of_cons in Hk as [Hk|Hk];
          [injection Hk as -> ->; split; [lia|];
           apply (bool_decide_unpack _); vm_compute; exact I|]).
  by apply elem_of_nil in Hk.
Qed.

Lemma weekday_lookup_None (k : string) :
  k ∉ day_names -> _FR_WEEKDAYS !! k = None.
Proof. intros Hk. by apply not_elem_of_list_to_map_1. Qed.

(** X10: a schedule whose day is one of the seven names, in any case and
    with white space around, and whose time is two plain numbers around a
    colon, is accepted, with the index of the day between 0 and 6 and the
    two numbers as they are written: the hour and the minute are not
    checked against 23 and 59. *)
Theorem resolve_schedule_accepts (config : gmap string (string * string))
    (name day a b : string) (idx : Z) :
  config !! name = Some (day, a +:+ String ":"%char b) ->
  _FR_WEEKDAYS !! PyStr.lower (strip day) = Some idx ->
  PyStr.plain_digits a = true -> PyStr.plain_digits b = true ->
  (String.length a <= int_max_str_digits)%nat ->
  (String.length b <= int_max_str_digits)%nat ->
  _resolve_schedule_tuple config name
  = Some (idx, PyStr.digits_value 0 a, PyStr.digits_value 0 b)
  ∧ 0 <= idx <= 6.
Proof.
  intros Hcfg Hday Ha Hb Hla Hlb.
  destruct (weekday_lookup_Some _ _ Hday) as [Hrange _].
  split; [|done]. unfold _resolve_schedule_tuple. rewrite Hcfg, Hday.
  destruct (plain_digits_all_digits a Ha) as [Hda _].
  destruct (plain_digits_all_digits b Hb) as [Hdb _].
  rewrite strip_no_space.
  2:{ unfold no_space. rewrite all_chars_app. simpl.
      rewrite (digits_are _ a), (digits_are _ b); try done;
        intros c Hc; by destruct (digit_char_facts c Hc) as (-> & _). }
  rewrite split_on_app, split_on_lacks.
  - simpl. by rewrite !int_plain_digits.
  - apply (digits_are _ b); [|done]. intros c Hc.
    by destruct (digit_char_facts c Hc) as (_ & -> & _).
  - apply (digits_are _ a); [|done]. intros c Hc.
    by destruct (digit_char_facts c Hc) as (_ & -> & _).
Qed.

Lemma resolve_schedule_accepts_witness :
  let config : gmap string (string * string) :=
    {[ "POST4_SCHEDULE" := (" Dimanche", "25:99") ]} in
  _resolve_schedule_tuple config "POST4_SCHEDULE" = Some (6, 25, 99).
Proof.
  intros config.
  refine (proj1 (resolve_schedule_accepts config "POST4_SCHEDULE" " Dimanche"
                   "25" "99" 6 _ _ _ _ _ _)); try reflexivity;
    unfold int_max_str_digits; simpl; lia.
Defined.

(** X11: in a schedule, the case of the day name and the white space around
    it do not count. *)
Theorem resolve_schedule_ignores_case_and_padding
    (config : gmap string (string * string))
    (name day day' hhmm p1 p2 : string) :
  all_space p1 = true -> all_space p2 = true ->
  PyStr.lower day' = PyStr.lower day ->
  _resolve_schedule_tuple (<[name := (p1 +:+ day' +:+ p2, hhmm)]> config) name
  = _resolve_schedule_tuple (<[name := (day, hhmm)]> config) name.
Proof.
  intros H1 H2 Hcase. unfold _resolve_schedule_tuple.
  rewrite !lookup_insert_eq.
  by rewrite strip_padding, <- !strip_lower, Hcase.
Qed.

Lemma resolve_schedule_ignores_case_and_padding_witness :
  _resolve_schedule_tuple {[ "POST1_SCHEDULE" := ("  LUNDI ", "09:00") ]}
    "POST1_SCHEDULE"
  = _resolve_schedule_tuple {[ "POST1_SCHEDULE" := ("lundi", "09:00") ]}
      "POST1_SCHEDULE".
Proof.
  exact (resolve_schedule_ignores_case_and_padding ∅ "POST1_SCHEDULE"
           "lundi" "LUNDI" "09:00" "  " " " eq_refl eq_refl eq_refl).
Defined.

(** X12: what [_resolve_schedule_tuple] refuses: a variable that is not in
    the configuration, a day that is not one of the seven names, a time
    that is not made of exactly two fields around one colon. And whatever
    it accepts has a day index between 0 and 6. *)
Theorem resolve_schedule_rejects (config : gmap string (string * string))
    (name : string) :
  (config !! name = None -> _resolve_schedule_tuple config name = None)
  ∧ (forall day hhmm, config !! name = Some (day, hhmm) ->
       PyStr.lower (strip day) ∉ day_names ->
       _resolve_schedule_tuple config name = None)
  ∧ (forall day hhmm, config !! name = Some (day, hhmm) ->
       length (split_on ":"%char (strip hhmm)) ≠ 2%nat ->
       _resolve_schedule_tuple config name = None)
  ∧ (forall d h m, _resolve_schedule_tuple config name = Some (d, h, m) ->
       0 <= d <= 6).
Proof.
  unfold _resolve_schedule_tuple. split; [|split; [|split]].
  - by intros ->.
  - intros day hhmm -> Hday. by rewrite weekday_lookup_None.
  - intros day hhmm -> Hlen.
    destruct (_FR_WEEKDAYS !! _) as [i|]; [|done].
    destruct (split_on _ _) as [|x [|y [|x3 l]]]; simpl in *; try done.
    + by destruct (int x).
    + by destruct (int x), (int y).
  - intros d h m.
    destruct (config !! name) as [[day hhmm]|]; [|done].
    destruct (_FR_WEEKDAYS !! _) as [i|] eqn:Hi; [|done].
    destruct (weekday_lookup_Some _ _ Hi) as [Hr _].
    destruct (int <$> _) as [|[x|] [|[y|] [|z' l]]]; try done.
    by intros [= <- _ _].
Qed.

Lemma split_on_cons (sep : ascii) (s : string) :
  exists p ps, split_on sep s = p :: ps.
Proof.
  induction s as [|c s (p & ps & IH)]; simpl; [eauto|].
  rewrite IH. destruct (Ascii.eqb c sep); eauto.
Qed.

Lemma before_semicolon_lower (s : string) :
  before_semicolon (PyStr.lower s) = PyStr.lower (before_semicolon s).
Proof.
  unfold before_semicolon, PyStr.lower.
  induction s as [|c s IH]; [done|]. simpl.
  rewrite eqb_lower_semicolon. destruct (Ascii.eqb c ";"%char); [done|].
  destruct (split_on_cons ";"%char s) as (p & ps & Hs).
  destruct (split_on_cons ";"%char (PyStr.map_chars PyStr.ascii_lower s))
    as (q & qs & Hq).
  rewrite Hs, Hq in IH |- *. simpl in *. by rewrite IH.
Qed.

Lemma lower_empty (s : string) : PyStr.lower s = "" -> s = "".
Proof. by destruct s. Qed.

Lemma app_not_empty (a b : string) : b ≠ "" -> a +:+ b ≠ "".
Proof. destruct a; [done|discriminate]. Qed.

(** X13: the extension guessed from a [Content-Type] header is the default
    or one of the eight extensions of the table; for an empty header it is
    the default; the case of the header does not count; and neither do the
    parameters after a semicolon nor white space around the media type. *)
Theorem guess_ext_contract (ct dflt : string) :
  (_guess_ext_from_content_type ct dflt = dflt
   ∨ _guess_ext_from_content_type ct dflt ∈ known_extensions)
  ∧ _guess_ext_from_content_type "" dflt = dflt
  ∧ (forall ct', PyStr.lower ct' = PyStr.lower ct ->
       _guess_ext_from_content_type ct' dflt
       = _guess_ext_from_content_type ct dflt)
  ∧ (forall params p1 p2,
       all_space p1 = true -> all_space p2 = true ->
       lacks ";"%char ct = true ->
       _guess_ext_from_content_type
         (p1 +:+ ct +:+ p2 +:+ String ";"%char params) dflt
       = _guess_ext_from_content_type ct dflt).
Proof.
  split; [|split; [done|split]].
  - unfold _guess_ext_from_content_type. destruct (decide _); [by left|].
    destruct (extensions !! _) as [v|] eqn:Hv; [|by left]. right. simpl.
    apply elem_of_list_to_map_2 in Hv.
    repeat (apply elem_of_cons in Hv as [Hv|Hv];
            [injection Hv as _ ->; apply (bool_decide_unpack _);
             vm_compute; exact I|]).
    by apply elem_of_nil in Hv.
  - intros ct' Hcase. unfold _guess_ext_from_content_type.
    destruct (decide (ct = "")) as [->|Hne].
    + apply lower_empty in Hcase as ->. done.
    + destruct (decide (ct' = "")) as [->|Hne'].
      { symmetry in Hcase. by apply lower_empty in Hcase. }
      by rewrite <- !strip_lower, <- !before_semicolon_lower, Hcase.
  - intros params p1 p2 H1 H2 Hct. unfold _guess_ext_from_content_type.
    rewrite decide_False.
    2:{ apply app_not_empty, app_not_empty, app_not_empty. discriminate. }
    assert (before_semicolon (p1 +:+ ct +:+ p2 +:+ String ";"%char params)
            = p1 +:+ ct +:+ p2) as ->.
    { unfold before_semicolon.
      replace (p1 +:+ ct +:+ p2 +:+ String ";"%char params)
        with ((p1 +:+ ct +:+ p2) +:+ String ";"%char params)
        by (by rewrite !app_assoc_s).
      rewrite split_on_app; [done|].
      unfold lacks in *. rewrite !all_chars_app, Hct.
      rewrite (all_chars_impl is_space _ p1), (all_chars_impl is_space _ p2);
        try done; intros c Hc; by rewrite space_char_facts. }
    rewrite strip_padding by done.
    destruct (decide (ct = "")) as [->|_]; [done|].
    unfold before_semicolon. by rewrite split_on_lacks.
Qed.

Example guess_ext_examples :
  _guess_ext_from_content_type " Image/JPEG ; charset=binary" ".bin" = ".jpg"
  ∧ _guess_ext_from_content_type "text/html" ".bin" = ".bin".
Proof. split; reflexivity. Qed.

End ConfigProps.

(** ** More on the delivery unit *)

Module DeliveryMore.
Import Bot BotProps Tally.
Import Stdlib.Strings.Ascii.

Lemma new_log_refl (w : world) : new_log w w = [].
Proof. apply new_log_app. by rewrite app_nil_r. Qed.

Lemma new_calls_refl (w : world) : new_calls w w = [].
Proof. apply new_calls_app. by rewrite app_nil_r. Qed.

Ltac observe :=
  unfold new_log, new_calls; simpl;
  rewrite ?drop_app_length, ?drop_all; simpl.

Ltac frame_goals := repeat split; try done; try apply union_subseteq_r.

Lemma ascii_isdigit_char (c : Ascii.ascii) :
  (Ascii.nat_of_ascii c <? 128)%nat = true ->
  PyStr.isdigit_char c = PyStr.is_digit_char c.
Proof. TextProps.each_char c; by intros ?. Qed.

Lemma ascii_all_isdigit (s : string) :
  PyStr.is_ascii s = true -> PyStr.all_isdigit s = PyStr.all_digits s.
Proof.
  induction s as [|c s IH]; [done|]. simpl.
  intros [Hc Hs]%andb_prop. by rewrite (ascii_isdigit_char c Hc), IH.
Qed.

Lemma ascii_lstrip_minus (s : string) :
  PyStr.is_ascii s = true -> PyStr.is_ascii (PyStr.lstrip_minus s) = true.
Proof.
  induction s as [|c s IH]; [done|]. simpl.
  intros H. pose proof H as [Hc Hs]%andb_prop.
  destruct (Ascii.eqb c _); [by apply IH|done].
Qed.

(** On an ASCII string [isdigit] holds of the strings of the digits 0 to 9
    alone. *)
Lemma ascii_isdigit (s : string) :
  PyStr.is_ascii s = true -> PyStr.isdigit s = PyStr.plain_digits s.
Proof.
  intros Hs. destruct s as [|c s]; [done|].
  unfold PyStr.isdigit, PyStr.plain_digits. by apply ascii_all_isdigit.
Qed.

(** X14: [_resolve_chat_id] never raises and leaves the disk and the ledger
    alone. It logs one warning exactly when it gives [None], and nothing
    otherwise. A number is given back with no call. For a string it makes
    no call, or the one [get_chat] call for that string, whose answer is
    then the result, [None] if the call raises. For an ASCII string the two
    cases are told apart by the string: digits 0 to 9 after leading minus
    signs go through [int] with no call, and any other string is looked
    up. *)
Theorem resolve_chat_id_contract (E : env) (ref : chat_ref) (w : world) :
  exists r w', _resolve_chat_id E ref w = (Returns r, w')
    ∧ fs w' = fs w ∧ ledger w' = ledger w
    ∧ new_log w w' = match r with Some _ => [] | None => [WarnResolve ref] end
    ∧ match ref with
      | RefInt n => r = Some n ∧ new_calls w w' = []
      | RefStr s =>
          let looked_up :=
            new_calls w w' = [(GetChat s, client E w (GetChat s))]
            ∧ r = match client E w (GetChat s) with
                  | Returns c => Some c
                  | Raises _ => None
                  end in
          (new_calls w w' = [] ∨ looked_up)
          ∧ (PyStr.is_ascii s = true ->
             if PyStr.plain_digits (PyStr.lstrip_minus s)
             then r = PyText.int s ∧ new_calls w w' = []
             else looked_up)
      end.
Proof.
  unfold _resolve_chat_id. destruct ref as [n|s]; run.
  - exists (Some n), w. by rewrite new_log_refl, new_calls_refl.
  - pose proof (fun H => ascii_isdigit _ (ascii_lstrip_minus s H)) as Hascii.
    destruct (PyStr.isdigit _); run.
    + destruct (PyText.int s); run;
        eexists _, _; (split; [reflexivity|]); observe;
        (repeat split; try done; [by left|]);
        intros Hs; by rewrite <- (Hascii Hs).
    + destruct (client E w (GetChat s)) as [c|e]; run;
        eexists _, _; (split; [reflexivity|]); observe;
        (repeat split; try done; [by right|]);
        intros Hs; by rewrite <- (Hascii Hs).
Qed.

(** A channel id written as a string; a string with two minus signs, which
    [int] refuses; and the superscript two, a digit for [isdigit] that
    [int] refuses as well: none of them is looked up. *)
Example resolve_chat_id_numbers :
  let E := Scenarios.env_with Scenarios.obliging_client Scenarios.server_down in
  let w := Scenarios.empty_world in
  _resolve_chat_id E (RefStr "-1001234") w = (Returns (Some (-1001234)), w)
  ∧ _resolve_chat_id E (RefStr "--5") w
    = (Returns None, World ∅ [WarnResolve (RefStr "--5")] [] Ledger.db_init)
  ∧ _resolve_chat_id E (RefStr (String "178"%char "")) w
    = (Returns None,
       World ∅ [WarnResolve (RefStr (String "178"%char ""))] []
         Ledger.db_init).
Proof. repeat split. Qed.

(** X15: [_download_if_url] never raises, makes no call, leaves the ledger
    alone and deletes no file. Without a value it gives [None] and does
    nothing; a value that is no URL is given back as it is, and nothing
    happens. For a URL it gives a path only when the server answered with a
    body of at least 1024 bytes: the path is the temporary file it created,
    the only new file, and nothing is logged. In every other case of a URL
    it gives [None] and logs one warning. *)
Theorem download_if_url_contract (E : env) (u : option string) (w : world) :
  exists r w', _download_if_url E u w = (Returns r, w')
    ∧ calls w' = calls w ∧ ledger w' = ledger w ∧ fs w ⊆ fs w'
    ∧ match r with
      | Some p =>
          new_log w w' = []
          ∧ ((u = Some p ∧ p ≠ "" ∧ PyStr.is_url p = false ∧ w' = w)
             ∨ exists s resp n,
                 u = Some s ∧ PyStr.is_url s = true
                 ∧ urlopen E w s = Some resp
                 ∧ body_length resp = Some n ∧ 1024 <= n
                 ∧ mkstemp E w "ap_dl_" (temp_suffix E (content_type resp) s)
                   = Some p
                 ∧ fs w' = {[p]} ∪ fs w)
      | None =>
          (PyStr.falsy u = true ∧ w' = w)
          ∨ exists s, u = Some s ∧ PyStr.is_url s = true
              ∧ (new_log w w' = [WarnDownloadTooSmall s]
                 ∨ new_log w w' = [WarnDownloadKO s])
      end.
Proof.
  unfold _download_if_url. destruct (PyStr.falsy u) eqn:Hf; run.
  { eexists _, _. split; [reflexivity|]. repeat split; auto. }
  destruct u as [s|]; [|done]. simpl in *.
  apply bool_decide_eq_false in Hf.
  destruct (PyStr.is_url s) eqn:Hurl; run.
  2:{ eexists _, _. split; [reflexivity|].
      rewrite new_log_refl. repeat split; auto. }
  unfold download_to_temp.
  destruct (urlopen E w s) as [resp|] eqn:Hopen; run.
  2:{ eexists _, _. split; [reflexivity|]. observe.
      repeat split; try done. right. exists s. auto. }
  destruct (mkstemp E w _ _) as [tp|] eqn:Htp; run.
  2:{ eexists _, _. split; [reflexivity|]. observe.
      repeat split; try done. right. exists s. auto. }
  destruct (body_length resp) as [n|] eqn:Hn; run.
  2:{ eexists _, _. split; [reflexivity|]. observe.
      repeat split; try done; [apply union_subseteq_r|].
      right. exists s. auto. }
  destruct (Z.ltb_spec n 1024); run.
  - eexists _, _. split; [reflexivity|]. observe.
    repeat split; try done; [apply union_subseteq_r|].
    right. exists s. auto.
  - eexists _, _. split; [reflexivity|]. observe.
    repeat split; try done; [apply union_subseteq_r|].
    right. exists s, resp, n. by repeat split.
Qed.

(** X16: [_convert_image_if_needed] never raises, makes no call and leaves
    the ledger alone. Either it gives the path it was given and nothing has
    changed; or it gives the output path, the stem of the path with [.jpg]
    or [_tg.jpg], which is the only new file, and logs nothing; or the
    conversion failed: it logs one warning and gives the path it was given,
    with at most the output file new on disk. No file is deleted. *)
Theorem convert_image_contract (E : env) (path : string) (w : world) :
  exists c w', _convert_image_if_needed E path w = (Returns c, w')
    ∧ calls w' = calls w ∧ ledger w' = ledger w ∧ fs w ⊆ fs w'
    ∧ ((c = path ∧ w' = w)
       ∨ exists out,
           (out = PyStr.rsplit_dot_head path +:+ ".jpg"
            ∨ out = PyStr.rsplit_dot_head path +:+ "_tg.jpg")
           ∧ ((c = out ∧ fs w' = {[out]} ∪ fs w ∧ new_log w w' = [])
              ∨ (c = path ∧ new_log w w' = [WarnImageConversion]
                 ∧ (fs w' = fs w ∨ fs w' = {[out]} ∪ fs w)))).
Proof.
  unfold _convert_image_if_needed. run.
  destruct (image_open E w path) as [im|]; run.
  2:{ eexists _, _. split; [reflexivity|]. observe. frame_goals.
      right. eexists. split; [by left|]. right. auto. }
  destruct (bool_decide (_ ∈ problematic)).
  - destruct (_ && _).
    { eexists _, _. split; [reflexivity|]. frame_goals. by left. }
    destruct (pil_save E w path _) as [|[|]]; run;
      eexists _, _; (split; [reflexivity|]); observe; frame_goals;
      right; eexists; (split; [by left|]); auto.
  - destruct (size im) as [wd ht]. destruct (max_side <? _).
    2:{ eexists _, _. split; [reflexivity|]. frame_goals. by left. }
    destruct (pil_save E w path _) as [|[|]]; run;
      eexists _, _; (split; [reflexivity|]); observe; frame_goals;
      right; eexists; (split; [by right|]); auto.
Qed.

(** X17: [_convert_video_if_needed] never raises, makes no call and leaves
    the ledger alone. Without ffmpeg it gives the path it was given and
    nothing has changed. With ffmpeg, either it gives the output path, the
    stem of the path with [_tg.mp4], which is the only new file, and logs
    nothing; or it logs one warning and gives the path it was given, with
    at most the output file new on disk. No file is deleted. *)
Theorem convert_video_contract (E : env) (path : string) (w : world) :
  exists c w', _convert_video_if_needed E path w = (Returns c, w')
    ∧ calls w' = calls w ∧ ledger w' = ledger w ∧ fs w ⊆ fs w'
    ∧ let out := PyStr.rsplit_dot_head path +:+ "_tg.mp4" in
      if _has_ffmpeg E w then
        (c = out ∧ fs w' = {[out]} ∪ fs w ∧ new_log w w' = [])
        ∨ (c = path ∧ new_log w w' = [WarnVideoConversion]
           ∧ (fs w' = fs w ∨ fs w' = {[out]} ∪ fs w))
      else c = path ∧ w' = w.
Proof.
  unfold _convert_video_if_needed. destruct (_has_ffmpeg E w); simpl.
  2:{ eexists _, _. split; [reflexivity|]. frame_goals. }
  run. destruct (ffmpeg_run E w path _) as [|[|]]; run;
    eexists _, _; (split; [reflexivity|]); observe; frame_goals; auto.
Qed.

(** X18: [_send_autopost_to_chat] never raises and never touches the
    ledger; its log only grows. It makes at most one publishing call: when it
    returns a message id, exactly one, answered with that id; when it returns
    [None], none at all, or one that raised. *)
Theorem send_autopost_contract (E : env) (ref : chat_ref) (post_cfg : post)
    (w : world) :
  exists r w' evs, _send_autopost_to_chat E ref post_cfg w = (Returns r, w')
    ∧ ledger w' = ledger w
    ∧ (exists lg, log w' = log w ++ lg)
    ∧ calls w' = calls w ++ evs
    ∧ match r with
      | Some m =>
          exists c, is_send c = true
            ∧ filter (fun ev => is_send ev.1 = true) evs = [(c, Returns m)]
      | None =>
          filter (fun ev => is_send ev.1 = true) evs = []
          ∨ exists c e, is_send c = true
              ∧ filter (fun ev => is_send ev.1 = true) evs = [(c, Raises e)]
      end.
Proof.
  destruct (send_autopost_summary E ref post_cfg w)
    as (pre & lg & Hpre & Hled & Hcases).
  destruct (lookup_is_no_send ref pre Hpre) as [Hfilter _].
  destruct (_send_autopost_to_chat E ref post_cfg w) as [r w'].
  simpl in *.
  assert (Hlast : forall c o, is_send c = true ->
            filter (fun ev : client_call * outcome Z => is_send ev.1 = true)
              (pre ++ [(c, o)]) = [(c, o)]).
  { intros c o Hc. rewrite filter_app, Hfilter. simpl.
    rewrite filter_cons. simpl. destruct (decide _); [done|congruence]. }
  destruct Hcases as [(-> & Hc & Hl)|[(c & m & Hs & -> & Hc & Hl)
                                     |(c & e & chat & Hs & -> & Hc & Hl)]].
  - exists None, w', pre.
    split; [done|]. split; [done|]. split; [eauto|]. split; [done|by left].
  - exists (Some m), w', (pre ++ [(c, Returns m)]).
    split; [done|]. split; [done|]. split; [eauto|]. split; [done|eauto].
  - exists None, w', (pre ++ [(c, Raises e)]).
    split; [done|]. split; [done|]. split; [eauto|]. split; [done|].
    right. exists c, e. eauto.
Qed.

Lemma str_or_twice (a : string) :
  PyStr.str_or (PyStr.str_or a "") " " = PyStr.str_or a " ".
Proof. unfold PyStr.str_or. by repeat destruct (decide _). Qed.

(** The whole run of a delivery that needs no media, once the channel is
    resolved. *)
Lemma text_post_run (E : env) (ref : chat_ref) (post_cfg : post)
    (w w1 : world) (chat_id : Z) :
  requires_media (post_type post_cfg) = false ->
  _resolve_chat_id E ref w = (Returns (Some chat_id), w1) ->
  let c := SendMessage chat_id (PyStr.str_or (default "" (text post_cfg)) " ")
             (_kb (buttons post_cfg)) in
  _send_autopost_to_chat E ref post_cfg w
  = match client E w1 c with
    | Returns m =>
        (Returns (Some m),
         World (fs w1) (log w1) (calls w1 ++ [(c, Returns m)]) (ledger w1))
    | Raises e =>
        (Returns None,
         World (fs w1) (log w1 ++ [error_record chat_id e])
           (calls w1 ++ [(c, Raises e)]) (ledger w1))
    end.
Proof.
  intros Hreq Hres c.
  assert (Hprep : prepare_media E (post_type post_cfg) post_cfg
                    (Frame None None, w1)
                  = (Returns (Some None), (Frame None None, w1))).
  { unfold prepare_media. by rewrite Hreq. }
  assert (Hsend : send_by_type E (post_type post_cfg) chat_id None
                    (PyStr.str_or (default "" (text post_cfg)) "")
                    (_kb (buttons post_cfg)) w1
                  = call E c w1).
  { unfold send_by_type, c. rewrite str_or_twice.
    unfold requires_media in Hreq. apply bool_decide_eq_false in Hreq.
    repeat (destruct (decide _) as [Heq|_];
            [try reflexivity; exfalso; apply Hreq; rewrite Heq;
             apply (bool_decide_unpack _); vm_compute; exact I|]).
    reflexivity. }
  unfold call in Hsend.
  destruct (client E w1 c) as [m|e] eqn:Hans.
  - by rewrite (send_autopost_sent _ _ _ _ _ _ _ _ _ _ _ Hres Hprep Hsend).
  - by rewrite (send_autopost_failed _ _ _ _ _ _ _ _ _ _ _ Hres Hprep Hsend).
Qed.

(** X19: a post whose type is none of photo, video, voice and document (a
    text post, or one of an unknown type) goes out as one [send_message]
    call, with the text of the post, or one space for no text, as body.
    Once the channel is resolved the delivery reads no media, touches no
    file, and logs nothing unless the call raises; it returns the id the
    call answers. *)
Theorem text_post_is_one_message (E : env) (ref : chat_ref) (post_cfg : post)
    (w w1 : world) (chat_id : Z) :
  requires_media (post_type post_cfg) = false ->
  _resolve_chat_id E ref w = (Returns (Some chat_id), w1) ->
  let c := SendMessage chat_id (PyStr.str_or (default "" (text post_cfg)) " ")
             (_kb (buttons post_cfg)) in
  _send_autopost_to_chat E ref post_cfg w
  = match client E w1 c with
    | Returns m =>
        (Returns (Some m),
         World (fs w1) (log w1) (calls w1 ++ [(c, Returns m)]) (ledger w1))
    | Raises e =>
        (Returns None,
         World (fs w1) (log w1 ++ [error_record chat_id e])
           (calls w1 ++ [(c, Raises e)]) (ledger w1))
    end.
Proof. apply text_post_run. Qed.

(** The first post, to the numeric channel: one message, id 42. *)
Lemma text_post_is_one_message_witness :
  let E := Scenarios.env_with Scenarios.obliging_client Scenarios.server_down in
  let w := Scenarios.empty_world in
  _send_autopost_to_chat E (RefInt (-1001234)) Scenarios.post1 w
  = (Returns (Some 42),
     World ∅ [] [(SendMessage (-1001234) "Coucou" None, Returns 42)]
       Ledger.db_init).
Proof.
  intros E w.
  exact (text_post_is_one_message E (RefInt (-1001234)) Scenarios.post1 w w
           (-1001234) eq_refl eq_refl).
Defined.

(** X20: the delivery reads the type of a post without regard to case, and
    takes a post without type, or with an empty one, for a text post: two
    posts that differ in their types only, by case or by one of them being
    absent or empty where the other says text, are delivered alike. *)
Theorem post_type_is_normalised (E : env) (ref : chat_ref) (p q : post)
    (w : world) :
  name p = name q -> media p = media q -> text p = text q ->
  buttons p = buttons q ->
  PyStr.lower (PyStr.str_or (default "" (type p)) "text")
  = PyStr.lower (PyStr.str_or (default "" (type q)) "text") ->
  _send_autopost_to_chat E ref p w = _send_autopost_to_chat E ref q w.
Proof.
  intros Hname Hmedia Htext Hbuttons Htype.
  unfold _send_autopost_to_chat, prepare_media, post_type.
  by rewrite Htype, Hname, Hmedia, Htext, Hbuttons.
Qed.

Lemma post_type_is_normalised_witness :
  let E := Scenarios.env_with Scenarios.obliging_client Scenarios.picture_server in
  let shouting := Post "post4" "POST4_SCHEDULE" (Some "PHOTO")
                    (media Scenarios.post4) (text Scenarios.post4) [] in
  let untyped := Post "post1" "POST1_SCHEDULE" None None (Some "Coucou") [] in
  _send_autopost_to_chat E (RefInt (-1001234)) shouting Scenarios.empty_world
  = _send_autopost_to_chat E (RefInt (-1001234)) Scenarios.post4
      Scenarios.empty_world
  ∧ _send_autopost_to_chat E (RefInt (-1001234)) untyped Scenarios.empty_world
    = _send_autopost_to_chat E (RefInt (-1001234)) Scenarios.post1
        Scenarios.empty_world.
Proof.
  intros E shouting untyped. split.
  - exact (post_type_is_normalised E (RefInt (-1001234)) shouting
             Scenarios.post4 Scenarios.empty_world
             eq_refl eq_refl eq_refl eq_refl eq_refl).
  - exact (post_type_is_normalised E (RefInt (-1001234)) untyped
             Scenarios.post1 Scenarios.empty_world
             eq_refl eq_refl eq_refl eq_refl eq_refl).
Defined.

(** X21: a delivery leaves no new file on disk, whatever its outcome, where
    every download that starts goes through with at least 1024 bytes,
    temporary files get absolute paths, a conversion that fails leaves no
    partial output, and the operating system lets files be removed. *)
Theorem delivery_leaves_no_new_file (E : env) (ref : chat_ref)
    (post_cfg : post) (w : world) :
  (forall w s resp, urlopen E w s = Some resp ->
     exists n, body_length resp = Some n ∧ (n <? 1024) = false) ->
  (forall w a b p, mkstemp E w a b = Some p -> PyStr.isabs p = true) ->
  (forall w a b, pil_save E w a b ≠ WriteFailed true) ->
  (forall w a b, ffmpeg_run E w a b ≠ WriteFailed true) ->
  (forall w p, os_remove_ok E w p = true) ->
  fs (_send_autopost_to_chat E ref post_cfg w).2 ⊆ fs w.
Proof. intros. by apply send_autopost_leaves_no_file. Qed.

(** The picture of [post4] is downloaded, sent and removed. *)
Lemma delivery_leaves_no_new_file_witness :
  let E := Scenarios.env_with Scenarios.obliging_client Scenarios.picture_server in
  let run := _send_autopost_to_chat E (RefInt (-1001234)) Scenarios.post4
               Scenarios.empty_world in
  run.1 = Returns (Some 42) ∧ fs run.2 ⊆ fs Scenarios.empty_world.
Proof.
  intros E run. split; [reflexivity|].
  apply (delivery_leaves_no_new_file E (RefInt (-1001234)) Scenarios.post4
           Scenarios.empty_world).
  - intros w s resp [= <-]. exists 50000. by split.
  - intros w a b p [= <-]. reflexivity.
  - intros w a b. discriminate.
  - intros w a b. discriminate.
  - intros w p. reflexivity.
Defined.

Lemma concat_singletons {A} (l : list A) : concat ((fun b => [b]) <$> l) = l.
Proof. induction l as [|x l IH]; [done|]. simpl. f_equal. exact IH. Qed.

(** X22: [_kb] gives no markup exactly for no buttons; otherwise the
    keyboard has one row per button, each row holds one button, and the
    rows read in order give the buttons back. *)
Theorem kb_rows (buttons : list (string * string)) :
  (_kb buttons = None <-> buttons = [])
  ∧ (forall rows, _kb buttons = Some rows ->
       concat rows = buttons
       ∧ length rows = length buttons
       ∧ Forall (fun row => length row = 1%nat) rows).
Proof.
  destruct buttons as [|b bs]; simpl; [by split|].
  split; [by split|]. intros rows [= <-]. simpl.
  rewrite concat_singletons, length_fmap.
  split; [done|]. split; [done|].
  constructor; [done|]. apply Forall_fmap, Forall_forall. by intros x _.
Qed.

(** *** What every delivery leaves behind *)

Lemma skips_app (a b : list log_entry) :
  Tally.skips (a ++ b) = (Tally.skips a + Tally.skips b)%nat.
Proof. unfold Tally.skips. by rewrite filter_app, length_app. Qed.




Lemma silent_trans (w1 w2 w3 : world) : silent w1 w2 -> silent w2 w3 -> silent w1 w3.
Proof.
  intros (C1 & L1 & lg1 & G1 & S1) (C2 & L2 & lg2 & G2 & S2).
  repeat split; [congruence..|].
  exists (lg1 ++ lg2). rewrite G2, G1, app_assoc, skips_app, S1, S2. done.
Qed.











End DeliveryMore.

(** ** More on the workers *)

Module WorkerMore.
Import Bot BotProps WorkerProps DeliveryMore Tally.





(** X24: in a zone without clock changes, for a clock after the epoch and
    a retention period that is not negative, the deletion time written to
    the ledger is the whole second of the clock plus
    [AUTO_DELETE_AFTER_DAYS] times 86400 seconds, whatever the offset of the
    zone. *)
Theorem deletion_time_fixed_zone (E : env) (off t : Z) :
  TIMEZONE E = Clock.fixed_zone off ->
  0 <= t -> 0 <= AUTO_DELETE_AFTER_DAYS E ->
  delete_at_from E t
  = Clock.int_seconds t + AUTO_DELETE_AFTER_DAYS E * 86400.
Proof.
  intros Htz Ht Hdays. rewrite (delete_at_from_fixed_zone E off t Htz).
  unfold Clock.int_seconds, Clock.us_per_day, Clock.us_per_second.
  rewrite !Z.quot_div_nonneg by lia.
  Z.div_mod_to_equations. lia.
Qed.

(** UTC, a clock at 2025-03-29 22:45:00.999999, seven days. *)
Lemma deletion_time_fixed_zone_witness :
  let E := Scenarios.env_with Scenarios.obliging_client Scenarios.server_down in
  delete_at_from E (1743288300 * Clock.us_per_second + 999999)
  = 1743288300 + 7 * 86400.
Proof.
  intros E.
  rewrite (deletion_time_fixed_zone E 0
             (1743288300 * Clock.us_per_second + 999999) eq_refl);
    [reflexivity|unfold Clock.us_per_second; lia|simpl; lia].
Defined.

End WorkerMore.

(** ** The operator's command *)

Module CommandsProps.
Import Bot BotProps WorkerMore PyText Tally Commands.







(** A message without text, and a reply that fails. *)
Example force_post_index_raises :
  let E := Scenarios.env_with Scenarios.obliging_client Scenarios.picture_server in
  let deaf := Console (fun _ _ _ => Raises RPCError) true in
  (force_post_index_command E deaf [Scenarios.post1] None
     ([], Scenarios.empty_world)).1 = Raises OtherException
  ∧ (force_post_index_command E deaf [Scenarios.post1] (Some "/force_post_index")
       ([], Scenarios.empty_world))
    = (Raises RPCError, ([(ReplyUsage, Raises RPCError)], Scenarios.empty_world)).
Proof. split; reflexivity. Qed.

End CommandsProps.

(** ** More on the users table *)

Module UsersMore.
Import Users UsersProps.

Lemma max_id_of_numbered (t : list user) (off : Z) :
  0 <= off ->
  (forall k u, t !! k = Some u -> Users.id u = Z.of_nat k + 1 + off) ->
  foldr (fun u m => Z.max (Users.id u) m) 0 t
  = match t with [] => 0 | _ => Z.of_nat (length t) + off end.
Proof.
  revert off. induction t as [|x t IH]; intros off Hoff Hnum; [done|].
  simpl. rewrite (IH (off + 1)); [|lia|].
  - pose proof (Hnum 0%nat x eq_refl) as Hx. destruct t; simpl in *; lia.
  - intros k u Hk. rewrite (Hnum (S k) u Hk). lia.
Qed.

(** X26: in a table built by calls of [add_user_to_db] from the empty
    one, the row ids are 1, 2, 3, ... in the order of the rows, the next
    row gets the number of rows plus one, and no two rows have the same
    user id. *)
Theorem built_table_shape (t : list user) :
  built t ->
  (forall k u, t !! k = Some u -> Users.id u = Z.of_nat k + 1)
  ∧ next_rowid t = Z.of_nat (length t) + 1
  ∧ NoDup (user_id <$> t).
Proof.
  intros Hb.
  assert (Hnum : forall k u, t !! k = Some u -> Users.id u = Z.of_nat k + 1).
  { induction Hb as [|uid fname uname t Hb IH]; [done|].
    intros k u. unfold add_user_to_db.
    destruct (first_with_user_id uid t); [apply IH|].
    intros Hk. apply lookup_app_Some in Hk as [Hk|[Hlen Hk]]; [by apply IH|].
    apply list_lookup_singleton_Some in Hk as [Hk <-]. simpl.
    unfold next_rowid. rewrite (max_id_of_numbered t 0); [|lia|].
    - destruct t; simpl in *; lia.
    - intros k' u' Hk'. rewrite (IH k' u' Hk'). lia. }
  split; [exact Hnum|]. split; [|by apply built_NoDup].
  unfold next_rowid. rewrite (max_id_of_numbered t 0); [|lia|].
  - destruct t; simpl; lia.
  - intros k u Hk. rewrite (Hnum k u Hk). lia.
Qed.

(** Three calls, two users. *)
Lemma built_table_shape_witness :
  let t := add_user_to_db 1002 "Marc" None
             (add_user_to_db 1001 "Elisabeth" None
                (add_user_to_db 1001 "Lisa" (Some "lisa") [])) in
  t = [User 1 1001 "Lisa" (Some "lisa"); User 2 1002 "Marc" None]
  ∧ next_rowid t = 3.
Proof.
  intros t. split; [reflexivity|].
  assert (Hb : built t) by (repeat constructor).
  exact (proj1 (proj2 (built_table_shape t Hb))).
Defined.

(** X27: after [add_user_to_db] the table read by [get_user] holds a row
    for the user id; it is the row that was there before, if there was one,
    and otherwise a row with the names given. A second call for the same
    user id, with whatever names, changes nothing; and the rows of the
    other user ids are what they were. *)
Theorem first_write_wins (uid : Z) (fname fname' : string)
    (uname uname' : option string) (t : list user) :
  let t' := add_user_to_db uid fname uname t in
  add_user_to_db uid fname' uname' t' = t'
  ∧ (exists u, first_with_user_id uid (get_user t') = Some u
       ∧ user_id u = uid
       ∧ (forall u0, first_with_user_id uid t = Some u0 -> u = u0)
       ∧ (uid ∉ user_id <$> t -> first_name u = fname ∧ username u = uname))
  ∧ (forall uid', uid' ≠ uid ->
       first_with_user_id uid' (get_user t') = first_with_user_id uid' t).
Proof.
  intros t'. subst t'. unfold get_user.
  destruct (decide (uid ∈ user_id <$> t)) as [Hin|Hni].
  - rewrite (add_user_to_db_present uid fname uname t Hin).
    split; [by apply add_user_to_db_present|]. split; [|done].
    destruct (first_with_user_id uid t) as [u|] eqn:Hfirst.
    + exists u. apply first_with_user_id_Some in Hfirst as [_ Hu].
      split; [done|]. split; [done|]. split; [by intros u0 [= <-]|done].
    + by apply first_with_user_id_None in Hfirst.
  - rewrite (add_user_to_db_absent uid fname uname t Hni).
    assert (Hnone : filter (fun u => user_id u = uid) t = []).
    { apply first_with_user_id_None in Hni. unfold first_with_user_id in Hni.
      by destruct (filter _ t). }
    split; [|split].
    + apply add_user_to_db_present. rewrite fmap_app. apply elem_of_app.
      right. simpl. by apply list_elem_of_singleton.
    + exists (User (next_rowid t) uid fname uname).
      unfold first_with_user_id. rewrite filter_app, Hnone. simpl.
      rewrite filter_cons. simpl. destruct (decide _); [|done].
      split; [done|]. split; [done|]. split; [by intros u0 ?|done].
    + intros uid' Hne. unfold first_with_user_id.
      rewrite filter_app. simpl. rewrite filter_cons. simpl.
      destruct (decide _); [congruence|]. by rewrite filter_nil, app_nil_r.
Qed.

End UsersMore.

(** ** The start-up check *)

Module PreflightProps.
Import Bot BotProps Preflight.

Ltac step :=
  unfold mbind, M_bind, mret, M_ret, try_except, ask, note; simpl.

Lemma check_channel_spec (O : api) (me : Z) (raw : chat_ref) (s : state) :
  exists ps r,
    check_channel O me raw s
    = (Returns tt, State (probes s ++ ps) (records s ++ [r]))
    ∧ r ≠ WarnGlobal ∧ lookups ps = [raw].
Proof.
  unfold check_channel. step.
  destruct (get_chat O (probes s) raw) as [chat|e]; simpl.
  - destruct (get_chat_member O _ chat me) as [member|e]; simpl;
      eexists [_; _], _; rewrite <- app_assoc; simpl;
      (split; [reflexivity|]); done.
  - by eexists [_], _.
Qed.

Lemma check_channels_spec (O : api) (me : Z) (refs : list chat_ref) (s : state) :
  exists ps rs,
    for_each refs (check_channel O me) s
    = (Returns tt, State (probes s ++ ps) (records s ++ rs))
    ∧ length rs = length refs ∧ (WarnGlobal ∉ rs) ∧ lookups ps = refs.
Proof.
  revert s. induction refs as [|raw refs IH]; intros s.
  - exists [], []. simpl. rewrite !app_nil_r. destruct s.
    repeat split; try done. apply not_elem_of_nil.
  - destruct (check_channel_spec O me raw s) as (ps1 & r & Hone & Hr & Hl1).
    destruct (IH (State (probes s ++ ps1) (records s ++ [r])))
      as (ps2 & rs & Hrest & Hlen & Hg & Hl2).
    exists (ps1 ++ ps2), (r :: rs). simpl in *.
    split; [|split; [|split]].
    + unfold mbind, M_bind. rewrite Hone, Hrest.
      by rewrite <- !app_assoc.
    + by rewrite Hlen.
    + apply not_elem_of_cons. split; [congruence|done].
    + unfold lookups in *. by rewrite omap_app, Hl1, Hl2.
Qed.

(** X28: [_preflight_check] never raises. When [get_me] fails it makes no
    other call and writes the one global warning. Otherwise it looks every
    channel of the list up, once, in the order of the list, and writes
    exactly one record for each, none of them the global warning: a channel
    that cannot be reached or whose rights cannot be read does not stop the
    run. *)
Theorem preflight_check_spec (O : api) (refs : list chat_ref) (s : state) :
  exists s', _preflight_check O refs s = (Returns tt, s')
    ∧ match get_me O (probes s) with
      | Raises _ =>
          probes s' = probes s ++ [GetMe]
          ∧ records s' = records s ++ [WarnGlobal]
      | Returns me =>
          exists ps rs,
            probes s' = probes s ++ GetMe :: ps
            ∧ records s' = records s ++ rs
            ∧ lookups ps = refs
            ∧ length rs = length refs
            ∧ (WarnGlobal ∉ rs)
      end.
Proof.
  unfold _preflight_check. step.
  destruct (get_me O (probes s)) as [me|e]; simpl.
  - destruct (check_channels_spec O me refs (State (probes s ++ [GetMe]) (records s)))
      as (ps & rs & Hrun & Hlen & Hg & Hl).
    rewrite Hrun. eexists. split; [reflexivity|]. simpl.
    exists ps, rs. rewrite <- app_assoc. by repeat split.
  - eexists. split; [reflexivity|]. done.
Qed.

End PreflightProps.
